(** * Aurora long-running-query collector: a shallow embedding

    The development follows the Python modules of the collector:

    - [dynatrace/logs_client.py]: [DynatraceLogsClient.send_logs];
    - [dynatrace/metrics_client.py]: [DynatraceMetricsClient.send_metrics];
    - [collectors/postgres_collector.py]:
      [PostgresCollector.get_long_running_queries];
    - [lambda_function.py]: [get_secret], [get_config], [lambda_handler].

    The dictionaries of the log entries are Python objects that [send_logs]
    updates in place: they live in a store indexed by references, and a list
    of entries is a list of references. Everything the code obtains from
    outside (environment variables, Secrets Manager, the database, the HTTP
    endpoints, the clock) is read from a [World]; the I/O done is recorded in
    a trace. The definitions come first, the proofs follow. *)

From Stdlib Require Import ZArith String Ascii List Lia.
From Stdlib Require Import Floats.SpecFloat.
From stdpp Require Import base tactics option list gmap strings pretty functions.

Set Warnings "-register-all".

Open Scope string_scope.
Open Scope Z_scope.

(** ** Python values *)

(** Values decoded by [json.loads]. An object keeps its members in the order
    of the text; [dict_get] reads them the way the resulting [dict] does (the
    last binding of a key wins). *)
Inductive json :=
| JNull
| JBool (b : bool)
| JInt (n : Z)
| JFloat (f : spec_float)
| JStr (s : string)
| JList (l : list json)
| JDict (kvs : list (string * json)).

(** Values stored in a log entry: strings and the integer timestamp. *)
Inductive value :=
| VStr (s : string)
| VInt (n : Z).

Global Instance value_eq_dec : EqDecision value.
Proof. solve_decision. Defined.

(** A log entry is a [dict[str, Any]]. *)
Abbreviation entry := (gmap string value).

(** A reference to a dictionary object. *)
Abbreviation loc := nat.

(** ** HTTP, as [requests] shows it to the program *)

Record response := {
  status_code : Z;
  reason : string;
  url : string;
  text : string;
}.

Inductive body :=
| TextBody (s : string)
| JsonBody (entries : list entry).

Record request := {
  req_url : string;
  req_token : json;           (* header Authorization: f"Api-Token {token}" *)
  req_content_type : string;
  req_data : body;
  req_timeout : Z;
}.

(** What [requests.post] does: it returns a response, or raises a
    [RequestException] (connection error, timeout, ...) with a message. *)
Inductive post_outcome :=
| Responded (r : response)
| Failed (msg : string).

(** ** Exceptions *)

Inductive exn :=
| ValueError (msg : string)
| AttributeError (msg : string)
| OverflowError (msg : string)
| ZeroDivisionError (msg : string)
| TypeError (msg : string)
| HTTPError (msg : string) (r : response)
| RequestException (msg : string)
| ExternalError (msg : string).   (* botocore and psycopg2 errors *)

(** [str(e)] *)
Definition str_exn (e : exn) : string :=
  match e with
  | ValueError msg | AttributeError msg | OverflowError msg
  | ZeroDivisionError msg | TypeError msg
  | HTTPError msg _ | RequestException msg | ExternalError msg => msg
  end.

Inductive res (A : Type) :=
| Ok (a : A)
| Raise (e : exn).
Arguments Ok {A} a.
Arguments Raise {A} e.

(** ** The state of one invocation and the outside world *)

Record QueryRow := {
  pid : Z;
  usename : string;
  datname : string;
  q_state : string;
  wait_event_type : option string;
  wait_event : option string;
  duration_seconds : Z;
  query : string;
}.

Record conn_params := {
  cp_host : string;
  cp_port : Z;
  cp_database : string;
  cp_user : string;
  cp_password : json;
  cp_threshold : Z;
}.

Inductive io_event :=
| SecretFetch (arn : string)
| DbQuery (p : conn_params)
| HttpPost (rq : request).

(** [json.loads]: a value, or [JSONDecodeError] with its message. *)
Inductive decoded :=
| Decoded (v : json)
| DecodeError (msg : string).

Record state := {
  heap : loc → entry;        (* the dictionary objects *)
  next : loc;                (* the next fresh reference *)
  trace : list io_event;     (* I/O performed so far, oldest first *)
  posts : nat;               (* number of POST requests issued so far *)
  ticks : nat;               (* number of clock readings so far *)
}.

(** Everything the code obtains from outside the repository. The JSON
    decoder of the standard library is taken as it is: a function. *)
Record World := {
  json_loads : string → decoded;
  utcnow : nat → Z;                                 (* clock, in microseconds *)
  environ : gmap string string;                     (* os.environ *)
  get_secret_value : string → res (option string);  (* response.get("SecretString") *)
  pg_stat_activity : conn_params → res (list QueryRow);
  requests_post : nat → request → post_outcome;     (* the n-th POST *)
  time_ms : nat → Z;                                (* int(time.time() * 1000) *)
}.

(** ** A state and exception monad

    A raised exception keeps the state: mutations done before the raise stay. *)

Definition M (A : Type) : Type := state → res A * state.

Global Instance M_ret : MRet M := λ A a s, (Ok a, s).
Global Instance M_bind : MBind M := λ A B f m s,
  match m s with
  | (Ok a, s') => f a s'
  | (Raise e, s') => (Raise e, s')
  end.

Definition raise {A} (e : exn) : M A := λ s, (Raise e, s).

Definition lift {A} (r : res A) : M A := λ s, (r, s).

(** [try: m except ... as e: h e] *)
Definition try_except {A} (m : M A) (h : exn → M A) : M A := λ s,
  match m s with
  | (Ok a, s') => (Ok a, s')
  | (Raise e, s') => h e s'
  end.

(** [for x in l: acc = f acc x] *)
Fixpoint foldM {A B} (f : A → B → M A) (a : A) (l : list B) : M A :=
  match l with
  | [] => mret a
  | x :: l' => a' ← f a x; foldM f a' l'
  end.

Definition deref (l : loc) : M entry := λ s, (Ok (heap s l), s).

Definition store (l : loc) (e : entry) : M unit := λ s,
  (Ok (), {| heap := <[l := e]> (heap s); next := next s; trace := trace s;
             posts := posts s; ticks := ticks s |}).

(** [int(time.time() * 1000)] *)
Definition current_time_ms (w : World) : M Z := λ s,
  (Ok (time_ms w (ticks s)),
   {| heap := heap s; next := next s; trace := trace s; posts := posts s; ticks := S (ticks s) |}).

(** [requests.post(url, headers=..., data=..., timeout=...)] *)
Definition post (w : World) (rq : request) : M response := λ s,
  let s' := {| heap := heap s; next := next s; trace := (trace s ++ [HttpPost rq])%list;
               posts := S (posts s); ticks := ticks s |} in
  match requests_post w (posts s) rq with
  | Responded r => (Ok r, s')
  | Failed msg => (Raise (RequestException msg), s')
  end.

(** [response.raise_for_status()]. The method of [requests] builds a message
    when [400 <= status_code < 500] (client error) or
    [500 <= status_code < 600] (server error) and raises [HTTPError] when
    there is a message: no other status raises. *)
Definition raise_for_status (r : response) : M unit :=
  if bool_decide (400 ≤ status_code r < 500) then
    raise (HTTPError (pretty (status_code r) +:+ " Client Error: " +:+ reason r
                      +:+ " for url: " +:+ url r) r)
  else if bool_decide (500 ≤ status_code r < 600) then
    raise (HTTPError (pretty (status_code r) +:+ " Server Error: " +:+ reason r
                      +:+ " for url: " +:+ url r) r)
  else mret ().

(** ** Builtins *)

Fixpoint range_up (fuel : nat) (i stop step : Z) : list Z :=
  match fuel with
  | O => []
  | S fuel' => if i <? stop then i :: range_up fuel' (i + step) stop step else []
  end.

Fixpoint range_down (fuel : nat) (i stop step : Z) : list Z :=
  match fuel with
  | O => []
  | S fuel' => if stop <? i then i :: range_down fuel' (i + step) stop step else []
  end.

(** [range(start, stop, step)], as the list of the values it yields. *)
Definition py_range (start stop step : Z) : res (list Z) :=
  if step =? 0 then Raise (ValueError "range() arg 3 must not be zero")
  else if 0 <? step then Ok (range_up (Z.to_nat (stop - start)) start stop step)
  else Ok (range_down (Z.to_nat (start - stop)) start stop step).

(** A slice bound, as Python normalises it for a sequence of length [len]. *)
Definition slice_bound (len k : Z) : Z :=
  if k <? 0 then Z.max 0 (k + len) else Z.min k len.

(** [l[i:j]] *)
Definition py_slice {A} (l : list A) (i j : Z) : list A :=
  let len := Z.of_nat (length l) in
  let lo := slice_bound len i in
  let hi := slice_bound len j in
  take (Z.to_nat (hi - lo)) (drop (Z.to_nat lo) l).

(** [s.rstrip("/")] *)
Fixpoint rstrip_slash (s : string) : string :=
  match s with
  | EmptyString => EmptyString
  | String c s' =>
      match rstrip_slash s' with
      | EmptyString => if Ascii.eqb c "/" then EmptyString else String c EmptyString
      | t => String c t
      end
  end.

(** ** dynatrace/logs_client.py *)

Inductive rvalue :=
| RInt (n : Z)
| RList (l : list string).

Record DynatraceLogsClient := {
  base_url : string;
  api_token : json;
  timeout : Z;
  batch_size : Z;
  ingest_url : string;
}.

(** [DynatraceLogsClient.__init__] *)
Definition logs_client_init (environment_url : string) (token : json)
    (timeout batch_size : Z) : DynatraceLogsClient :=
  {| base_url := rstrip_slash environment_url;
     api_token := token;
     timeout := timeout;
     batch_size := batch_size;
     ingest_url := rstrip_slash environment_url +:+ "/api/v2/logs/ingest" |}.

(** The body of [for entry in batch]. *)
Definition stamp (t : Z) (_ : unit) (l : loc) : M unit :=
  e ← deref l;
  match e !! "timestamp" with
  | None => store l (<["timestamp" := VInt t]> e)
  | Some _ => mret ()
  end.

(** [json.dumps(batch)]: the payload holds the entries as they are now. *)
Definition json_dumps (batch : list loc) : M body := λ s,
  (Ok (JsonBody (heap s <$> batch)), s).

(** One iteration of the loop of [send_logs]. *)
Definition send_batch (w : World) (self : DynatraceLogsClient)
    (log_entries : list loc) (acc : nat * list string) (i : Z)
    : M (nat * list string) :=
  let '(total_sent, errors) := acc in
  let batch := py_slice log_entries i (i + batch_size self) in
  t ← current_time_ms w;
  _ ← foldM (stamp t) () batch;
  payload ← json_dumps batch;
  try_except
    (response ← post w {| req_url := ingest_url self;
                          req_token := api_token self;
                          req_content_type := "application/json; charset=utf-8";
                          req_data := payload;
                          req_timeout := timeout self |};
     _ ← raise_for_status response;
     mret (total_sent + length batch, errors)%nat)
    (λ e, match e with
          | HTTPError _ r =>
              mret (total_sent,
                    (errors ++ ["HTTP " +:+ pretty (status_code r) +:+ ": " +:+ text r])%list)
          | RequestException msg => mret (total_sent, (errors ++ [msg])%list)
          | _ => raise e
          end).

(** [DynatraceLogsClient.send_logs] *)
Definition send_logs (w : World) (self : DynatraceLogsClient)
    (log_entries : list loc) : M (gmap string rvalue) :=
  if bool_decide (log_entries = []) then mret {[ "sent" := RInt 0 ]}
  else
    idxs ← lift (py_range 0 (Z.of_nat (length log_entries)) (batch_size self));
    '(total_sent, errors) ← foldM (send_batch w self log_entries) (0%nat, []) idxs;
    let result : gmap string rvalue :=
      {[ "sent" := RInt (Z.of_nat total_sent);
         "total" := RInt (Z.of_nat (length log_entries)) ]} in
    mret (if bool_decide (errors = []) then result
          else <["errors" := RList errors]> result).

(** ** More builtins: results without state, strings, integers, floats *)

Global Instance res_ret : MRet res := λ A a, Ok a.
Global Instance res_bind : MBind res := λ A B f r,
  match r with
  | Ok a => f a
  | Raise e => Raise e
  end.

Global Instance res_fmap : FMap res := λ A B f r,
  match r with
  | Ok a => Ok (f a)
  | Raise e => Raise e
  end.

(** [sep.join(l)] *)
Fixpoint join (sep : string) (l : list string) : string :=
  match l with
  | [] => ""
  | [x] => x
  | x :: l' => x +:+ sep +:+ join sep l'
  end.

(** [s.split(".")[0]] *)
Fixpoint before_dot (s : string) : string :=
  match s with
  | EmptyString => EmptyString
  | String c s' => if Ascii.eqb c "." then EmptyString else String c (before_dot s')
  end.

(** The white space [int] skips around the literal of an ASCII string: the
    characters 9 to 13 and the space. (The separators 28 to 31, which
    [str.isspace] accepts, are not skipped.) *)
Definition py_isspace (c : ascii) : bool :=
  let n := nat_of_ascii c in
  ((9 <=? n) && (n <=? 13) || (n =? 32))%nat.

Fixpoint lstrip (s : string) : string :=
  match s with
  | EmptyString => EmptyString
  | String c s' => if py_isspace c then lstrip s' else s
  end.

(** [s] without the white space [int] skips at its two ends. *)
Definition strip (s : string) : string :=
  String.rev (lstrip (String.rev (lstrip s))).

(** The scan of a decimal literal: its value, the number of its digits and
    what follows it. One underscore may separate two digits; [None] is an
    underscore out of place. *)
Fixpoint scan_digits (acc : Z) (digits : nat) (after_digit : bool) (s : string)
    : option (Z * nat * string) :=
  match s with
  | EmptyString =>
      if after_digit || (digits =? 0)%nat then Some (acc, digits, s) else None
  | String c s' =>
      match Ascii.is_nat c with
      | Some d => scan_digits (10 * acc + Z.of_nat d) (S digits) true s'
      | None =>
          if Ascii.eqb c "_" then
            if after_digit then scan_digits acc digits false s' else None
          else if after_digit || (digits =? 0)%nat then Some (acc, digits, s) else None
      end
  end.

Definition quote : ascii := "'"%char.
Definition dquote : ascii := "034"%char.
Definition backslash : ascii := "\"%char.

Fixpoint contains_char (c : ascii) (s : string) : bool :=
  match s with
  | EmptyString => false
  | String c' s' => Ascii.eqb c c' || contains_char c s'
  end.

Definition hex_digit (n : nat) : ascii :=
  ascii_of_nat (if (n <? 10)%nat then 48 + n else 87 + n).

Fixpoint repr_chars (q : ascii) (s : string) : string :=
  match s with
  | EmptyString => EmptyString
  | String c s' =>
      let n := nat_of_ascii c in
      (if Ascii.eqb c backslash || Ascii.eqb c q then String backslash (String c "")
       else if Ascii.eqb c "010" then String backslash "n"
       else if Ascii.eqb c "013" then String backslash "r"
       else if Ascii.eqb c "009" then String backslash "t"
       else if (n <? 32)%nat || (n =? 127)%nat
            then String backslash
                   (String "x" (String (hex_digit (n / 16)) (String (hex_digit (n mod 16)) "")))
       else String c "") +:+ repr_chars q s'
  end.

(** [repr(s)] of an ASCII string. *)
Definition py_repr (s : string) : string :=
  let q := if contains_char quote s && negb (contains_char dquote s)
           then dquote else quote in
  String q (repr_chars q s) +:+ String q "".

(** [int(s)] without the sign: [body] is [s] stripped of white space and sign. *)
Definition int_magnitude (s body : string) : res Z :=
  let invalid := ValueError ("invalid literal for int() with base 10: " +:+ py_repr s) in
  match scan_digits 0 0 false body with
  | None => Raise invalid
  | Some (n, digits, rest) =>
      if (digits =? 0)%nat then Raise invalid
      else if (4300 <? digits)%nat then
        Raise (ValueError ("Exceeds the limit (4300 digits) for integer string conversion: "
                           +:+ "value has " +:+ pretty digits
                           +:+ " digits; use sys.set_int_max_str_digits() to increase the limit"))
      else if String.eqb rest "" then Ok n
      else Raise invalid
  end.

(** [int(s)] on an ASCII string: white space around, a sign, decimal digits
    (at most 4300 of them). *)
Definition py_int (s : string) : res Z :=
  match strip s with
  | String "+" body => int_magnitude s body
  | String "-" body => Z.opp <$> int_magnitude s body
  | body => int_magnitude s body
  end.

(** [max(iterable)]: the first of the largest items. *)
Definition py_max (l : list Z) : res Z :=
  match l with
  | [] => Raise (ValueError "max() arg is an empty sequence")
  | x :: l' => Ok (fold_left (λ m y, if m <? y then y else m) l' x)
  end.

(** [sum(iterable)] *)
Definition py_sum (l : list Z) : Z := fold_left Z.add l 0.

(** [n / d] for [d > 0], rounded to the nearest integer, ties to even. *)
Definition div_half_even (n d : Z) : Z :=
  let q := n / d in
  let r := n mod d in
  if 2 * r <? d then q
  else if d <? 2 * r then q + 1
  else if Z.even q then q else q + 1.

(** [floor (log2 (a / b))] for positive [a] and [b]. *)
Definition log2_ratio (a b : Z) : Z :=
  let d := Z.log2 a - Z.log2 b in
  if b * 2 ^ Z.max 0 d <=? a * 2 ^ Z.max 0 (- d) then d else d - 1.

(** [a / b] on integers: the quotient correctly rounded to a binary64 float
    (53-bit significand, exponents down to the subnormals at 2^-1074). *)
Definition int_truediv (a b : Z) : res spec_float :=
  if b =? 0 then Raise (ZeroDivisionError "division by zero")
  else
    let sign := xorb (a <? 0) (b <? 0) in
    if a =? 0 then Ok (S754_zero sign)
    else
      let e := Z.max (log2_ratio (Z.abs a) (Z.abs b) - 52) (-1074) in
      let m := div_half_even (Z.abs a * 2 ^ Z.max 0 (- e)) (Z.abs b * 2 ^ Z.max 0 e) in
      let '(m, e) := if m =? 2 ^ 53 then (2 ^ 52, e + 1) else (m, e) in
      if 971 <? e
      then Raise (OverflowError "integer division result too large for a float")
      else match m with
           | Zpos p => Ok (S754_finite sign p e)
           | _ => Ok (S754_zero sign)
           end.

(** The hundredths of a finite float: its exact value times 100, rounded to
    the nearest integer, ties to even. *)
Definition cents (m : positive) (e : Z) : Z :=
  div_half_even (100 * Zpos m * 2 ^ Z.max 0 e) (2 ^ Z.max 0 (- e)).

Definition two_digits (n : Z) : string := pretty (n / 10) +:+ pretty (n mod 10).

(** [format(x, ".2f")] *)
Definition format_2f (x : spec_float) : string :=
  match x with
  | S754_zero s => (if s then "-" else "") +:+ "0.00"
  | S754_infinity s => if s then "-inf" else "inf"
  | S754_nan => "nan"
  | S754_finite s m e =>
      (if s then "-" else "") +:+ pretty (cents m e / 100) +:+ "."
      +:+ two_digits (cents m e mod 100)
  end.

(** ** JSON values as Python objects *)

Definition type_name (v : json) : string :=
  match v with
  | JNull => "NoneType"
  | JBool _ => "bool"
  | JInt _ => "int"
  | JFloat _ => "float"
  | JStr _ => "str"
  | JList _ => "list"
  | JDict _ => "dict"
  end.

(** [bool(v)] *)
Definition truthy (v : json) : bool :=
  match v with
  | JNull => false
  | JBool b => b
  | JInt n => negb (n =? 0)
  | JFloat (S754_zero _) => false
  | JFloat _ => true
  | JStr s => negb (String.eqb s "")
  | JList l => match l with [] => false | _ => true end
  | JDict kvs => match kvs with [] => false | _ => true end
  end.

(** The value a [dict] built from the members [kvs] holds for [k]. *)
Fixpoint assoc_last (k : string) (kvs : list (string * json)) : option json :=
  match kvs with
  | [] => None
  | (k', v) :: rest =>
      match assoc_last k rest with
      | Some v' => Some v'
      | None => if String.eqb k k' then Some v else None
      end
  end.

(** [d.get(k, dflt)]; only a [dict] has the method. *)
Definition dict_get (d : json) (k : string) (dflt : json) : res json :=
  match d with
  | JDict kvs => Ok (default dflt (assoc_last k kvs))
  | _ => Raise (AttributeError ("'" +:+ type_name d +:+ "' object has no attribute 'get'"))
  end.

(** [v > 0] *)
Definition gt_zero (v : json) : res bool :=
  match v with
  | JInt n => Ok (0 <? n)
  | JBool b => Ok b
  | JFloat (S754_finite false _ _) | JFloat (S754_infinity false) => Ok true
  | JFloat _ => Ok false
  | _ => Raise (TypeError ("'>' not supported between instances of '"
                           +:+ type_name v +:+ "' and 'int'"))
  end.

(** ** dynatrace/metrics_client.py *)

Record DynatraceMetricsClient := {
  m_base_url : string;
  m_api_token : json;
  m_timeout : Z;
  m_ingest_url : string;
}.

(** [DynatraceMetricsClient.__init__] *)
Definition metrics_client_init (environment_url : string) (token : json)
    (timeout : Z) : DynatraceMetricsClient :=
  {| m_base_url := rstrip_slash environment_url;
     m_api_token := token;
     m_timeout := timeout;
     m_ingest_url := rstrip_slash environment_url +:+ "/api/v2/metrics/ingest" |}.

(** [response.json()]; [requests] turns a decoding error into its own
    [JSONDecodeError], a [RequestException]. *)
Definition response_json (w : World) (r : response) : M json :=
  match json_loads w (text r) with
  | Decoded v => mret v
  | DecodeError msg => raise (RequestException msg)
  end.

(** [DynatraceMetricsClient.send_metrics] *)
Definition send_metrics (w : World) (self : DynatraceMetricsClient)
    (metrics : list string) : M json :=
  if bool_decide (metrics = []) then
    mret (JDict [("linesOk", JInt 0); ("linesInvalid", JInt 0)])
  else
    let payload := join (String "010" "") metrics in
    try_except
      (response ← post w {| req_url := m_ingest_url self;
                            req_token := m_api_token self;
                            req_content_type := "text/plain; charset=utf-8";
                            req_data := TextBody payload;
                            req_timeout := m_timeout self |};
       _ ← raise_for_status response;
       result ← (if bool_decide (text response = "") then mret (JDict [])
                 else response_json w response);
       _ ← lift (dict_get result "linesOk" (JInt 0));
       _ ← lift (dict_get result "linesInvalid" (JInt 0));
       invalid ← lift (dict_get result "linesInvalid" (JInt 0));
       _ ← lift (gt_zero invalid);
       mret result)
      (λ e, raise e).

(** ** lambda_function.py *)

(** [boto3.client("secretsmanager").get_secret_value(SecretId=secret_arn)],
    then [response["SecretString"]] when the key is there. *)
Definition secretsmanager_get (w : World) (secret_arn : string) : M (option string) := λ s,
  (get_secret_value w secret_arn,
   {| heap := heap s; next := next s; trace := (trace s ++ [SecretFetch secret_arn])%list;
      posts := posts s; ticks := ticks s |}).

(** [x or y] on values *)
Definition py_or (x y : json) : json := if truthy x then x else y.

(** [get_secret] *)
Definition get_secret (w : World) (secret_arn : string) : M json :=
  response ← secretsmanager_get w secret_arn;
  match response with
  | Some secret =>
      match json_loads w secret with
      | Decoded secret_dict =>
          password ← lift (dict_get secret_dict "password" JNull);
          if truthy password then mret password
          else
            apiToken ← lift (dict_get secret_dict "apiToken" JNull);
            mret (py_or apiToken (JStr secret))
      | DecodeError _ => mret (JStr secret)
      end
  | None =>
      raise (ValueError ("Secret " +:+ secret_arn +:+ " does not contain a string value"))
  end.

Record Config := {
  aurora_host : string;
  aurora_port : Z;
  aurora_database : string;
  aurora_user : string;
  aurora_password_secret_arn : string;
  dt_environment_url : string;
  dt_api_token_secret_arn : string;
  threshold_seconds : Z;
}.

(** [not value] for the value of [os.environ.get(name)] *)
Definition unset_or_empty (value : option string) : bool :=
  match value with
  | None | Some EmptyString => true
  | Some _ => false
  end.

(** The pairs of the list [required] of [get_config]. *)
Definition required (env : gmap string string) : list (string * option string) :=
  [ ("AURORA_HOST", env !! "AURORA_HOST");
    ("AURORA_DATABASE", env !! "AURORA_DATABASE");
    ("AURORA_USER", env !! "AURORA_USER");
    ("AURORA_PASSWORD_SECRET_ARN", env !! "AURORA_PASSWORD_SECRET_ARN");
    ("DT_ENVIRONMENT_URL", env !! "DT_ENVIRONMENT_URL");
    ("DT_API_TOKEN_SECRET_ARN", env !! "DT_API_TOKEN_SECRET_ARN") ].

(** [[name for name, value in required if not value]] *)
Definition missing (env : gmap string string) : list string :=
  fst <$> List.filter (λ nv, unset_or_empty (snd nv)) (required env).

(** [get_config]: the two [int(...)] are evaluated while the dictionary is
    built, before the required values are checked. *)
Definition get_config (env : gmap string string) : res Config :=
  port ← py_int (default "5432" (env !! "AURORA_PORT"));
  threshold ← py_int (default "60" (env !! "THRESHOLD_SECONDS"));
  if bool_decide (missing env = []) then
    Ok {| aurora_host := default "" (env !! "AURORA_HOST");
          aurora_port := port;
          aurora_database := default "" (env !! "AURORA_DATABASE");
          aurora_user := default "" (env !! "AURORA_USER");
          aurora_password_secret_arn := default "" (env !! "AURORA_PASSWORD_SECRET_ARN");
          dt_environment_url := default "" (env !! "DT_ENVIRONMENT_URL");
          dt_api_token_secret_arn := default "" (env !! "DT_API_TOKEN_SECRET_ARN");
          threshold_seconds := threshold |}
  else
    Raise (ValueError ("Missing required environment variables: "
                       +:+ join ", " (missing env))).

(** [PostgresCollector.get_long_running_queries]: one connection, one
    SELECT; a [psycopg2.Error] is logged and raised again. *)
Definition get_long_running_queries (w : World) (self : conn_params)
    : M (list QueryRow) := λ s,
  (pg_stat_activity w self,
   {| heap := heap s; next := next s; trace := (trace s ++ [DbQuery self])%list;
      posts := posts s; ticks := ticks s |}).

(** One line of the metrics line protocol. *)
Definition metric_line (name db_name hostname value : string) : string :=
  "custom.db.long_queries." +:+ name +:+ ",db.type=postgres,db.name=" +:+ db_name
  +:+ ",host=" +:+ hostname +:+ " " +:+ value.

(** The block "Send metrics" of [lambda_handler], up to the list [metrics]. *)
Definition build_metrics (db_name hostname : string) (queries : list QueryRow)
    : res (list string) :=
  let query_count := length queries in
  if (0 <? query_count)%nat then
    max_duration ← py_max (duration_seconds <$> queries);
    avg_duration ← int_truediv (py_sum (duration_seconds <$> queries))
                               (Z.of_nat query_count);
    let total_duration := py_sum (duration_seconds <$> queries) in
    Ok [ metric_line "count" db_name hostname (pretty query_count);
         metric_line "max_duration_seconds" db_name hostname (pretty max_duration);
         metric_line "avg_duration_seconds" db_name hostname (format_2f avg_duration);
         metric_line "total_duration_seconds" db_name hostname (pretty total_duration) ]
  else
    Ok [ metric_line "count" db_name hostname "0" ].

(** ["ERROR" if query["duration_seconds"] > 300 else "WARN"] *)
Definition severity (q : QueryRow) : string :=
  if 300 <? duration_seconds q then "ERROR" else "WARN".

(** The dictionary [log_entry] built for one query. *)
Definition make_log_entry (db_name hostname : string) (q : QueryRow) : entry :=
  <["content" := VStr (String.substring 0 (100 * 100) (query q))]>
  (<["log.source" := VStr "custom.db.long_running_query"]>
  (<["severity" := VStr (severity q)]>
  (<["db.type" := VStr "postgres"]>
  (<["db.name" := VStr db_name]>
  (<["db.host" := VStr hostname]>
  (<["query.pid" := VStr (pretty (pid q))]>
  (<["query.duration_seconds" := VStr (pretty (duration_seconds q))]>
  (<["query.state" := VStr (q_state q)]>
  (<["query.wait_event_type" := VStr (default "" (wait_event_type q))]>
  (<["query.wait_event" := VStr (default "" (wait_event q))]>
  (<["query.username" := VStr (usename q)]>
  (<["query.database" := VStr (datname q)]> ∅)))))))))))).

(** A dictionary display creates a new object. *)
Definition alloc (e : entry) : M loc := λ s,
  (Ok (next s),
   {| heap := <[next s := e]> (heap s); next := S (next s); trace := trace s;
      posts := posts s; ticks := ticks s |}).

(** The body of [for query in queries]. *)
Definition append_log_entry (db_name hostname : string) (log_entries : list loc)
    (q : QueryRow) : M (list loc) :=
  log_entry ← alloc (make_log_entry db_name hostname q);
  mret (log_entries ++ [log_entry])%list.

(** [datetime.utcnow()], in microseconds. *)
Definition utcnow_read (w : World) : M Z := λ s,
  (Ok (utcnow w (ticks s)),
   {| heap := heap s; next := next s; trace := trace s; posts := posts s;
      ticks := S (ticks s) |}).

(** The dictionary given to [json.dumps] for the body of the result. The
    execution time is kept as the exact difference of the two clock
    readings, in microseconds. *)
Inductive handler_body :=
| Completed (message : string) (queries_found metrics_sent logs_sent : nat)
            (execution_time_us : Z)
| Errored (error : string).

Record handler_result := {
  statusCode : Z;
  body_of : handler_body;
}.

(** The [try] block of [lambda_handler]. *)
Definition collect (w : World) (start_time : Z) : M handler_result :=
  config ← lift (get_config (environ w));
  db_password ← get_secret w (aurora_password_secret_arn config);
  dt_api_token ← get_secret w (dt_api_token_secret_arn config);
  let collector := {| cp_host := aurora_host config;
                      cp_port := aurora_port config;
                      cp_database := aurora_database config;
                      cp_user := aurora_user config;
                      cp_password := db_password;
                      cp_threshold := threshold_seconds config |} in
  let metrics_client := metrics_client_init (dt_environment_url config) dt_api_token 30 in
  let logs_client := logs_client_init (dt_environment_url config) dt_api_token 30 100 in
  queries ← get_long_running_queries w collector;
  let query_count := length queries in
  let hostname := before_dot (aurora_host config) in
  let db_name := aurora_database config in
  metrics ← lift (build_metrics db_name hostname queries);
  metrics_result ← send_metrics w metrics_client metrics;
  _ ← (if (0 <? query_count)%nat then
         log_entries ← foldM (append_log_entry db_name hostname) [] queries;
         logs_result ← send_logs w logs_client log_entries;
         mret ()
       else mret ());
  end_time ← utcnow_read w;
  mret {| statusCode := 200;
          body_of := Completed "Collection completed successfully" query_count
                               (length metrics) query_count (end_time - start_time) |}.

(** [lambda_handler]: [except Exception as e] turns every exception of the
    block into the 500 result. *)
Definition lambda_handler (w : World) : M handler_result :=
  start_time ← utcnow_read w;
  try_except (collect w start_time)
    (λ e, mret {| statusCode := 500; body_of := Errored (str_exn e) |}).

(** The state in which an invocation starts. *)
Definition initial : state :=
  {| heap := λ _, ∅; next := 0%nat; trace := []; posts := 0%nat; ticks := 0%nat |}.

(** ** Vocabulary of the statements *)

(** [ceil (a / b)], for [b > 0]. *)
Definition ceil_div (a b : Z) : Z := (a + b - 1) / b.

(** The [k]-th batch of [send_logs]: the entries [k * size .. (k + 1) * size - 1]. *)
Definition batch_of {A} (size : nat) (l : list A) (k : nat) : list A :=
  take size (drop (k * size) l).

Definition has_timestamp (e : entry) : Prop := is_Some (e !! "timestamp").

(** A POST fails when [requests.post] raises or [raise_for_status] does. *)
Definition post_failed (o : post_outcome) : bool :=
  match o with
  | Responded r => bool_decide (400 ≤ status_code r < 600)
  | Failed _ => true
  end.

(** The string [send_logs] records for a failed POST. *)
Definition error_string (o : post_outcome) : option string :=
  match o with
  | Responded r =>
      if bool_decide (400 ≤ status_code r < 600)
      then Some ("HTTP " +:+ pretty (status_code r) +:+ ": " +:+ text r)
      else None
  | Failed msg => Some msg
  end.

(** The request [send_logs] builds for a payload. *)
Definition logs_request (self : DynatraceLogsClient) (payload : list entry) : request :=
  {| req_url := ingest_url self;
     req_token := api_token self;
     req_content_type := "application/json; charset=utf-8";
     req_data := JsonBody payload;
     req_timeout := timeout self |}.

Definition set_heap (h : loc → entry) (s : state) : state :=
  {| heap := h; next := next s; trace := trace s; posts := posts s; ticks := ticks s |}.

(** The effect of the stamping loop on the store. *)
Definition stamp_heap (t : Z) (h : loc → entry) (l : loc) : loc → entry :=
  match h l !! "timestamp" with
  | None => <[l := <["timestamp" := VInt t]> (h l)]> h
  | Some _ => h
  end.

Definition stamp_all (t : Z) (h : loc → entry) (batch : list loc) : loc → entry :=
  fold_left (stamp_heap t) batch h.

(** The run of [send_logs] from a state with [p0] earlier POSTs, read off the
    store [h]: the request of batch [k], its outcome, the entries of the
    batches that did not fail, and the recorded error strings. *)
Definition batch_request (self : DynatraceLogsClient) (entries : list loc)
    (h : loc → entry) (k : nat) : request :=
  logs_request self (h <$> batch_of (Z.to_nat (batch_size self)) entries k).

Definition batch_outcome (w : World) (self : DynatraceLogsClient) (entries : list loc)
    (h : loc → entry) (p0 k : nat) : post_outcome :=
  requests_post w (p0 + k) (batch_request self entries h k).

Definition sent_count (w : World) (self : DynatraceLogsClient) (entries : list loc)
    (h : loc → entry) (p0 n : nat) : nat :=
  sum_list_with
    (λ k, if post_failed (batch_outcome w self entries h p0 k) then 0%nat
          else length (batch_of (Z.to_nat (batch_size self)) entries k))
    (seq 0 n).

Definition error_strings (w : World) (self : DynatraceLogsClient) (entries : list loc)
    (h : loc → entry) (p0 n : nat) : list string :=
  omap (λ k, error_string (batch_outcome w self entries h p0 k)) (seq 0 n).

(** [i] is the first position of [l] in [entries]. *)
Definition first_at (entries : list loc) (l : loc) (i : nat) : Prop :=
  entries !! i = Some l ∧ ∀ i', (i' < i)%nat → entries !! i' ≠ Some l.

(** The store [h] is the store [h0] after the first [bound] entries were
    stamped, in batches of [size], the clock having been read [t0] times
    before: an entry with a timestamp is as it was; one without, first met at
    position [i], got the reading taken for the batch [i / size]. *)
Definition stamped_upto (w : World) (size : nat) (entries : list loc)
    (h0 h : loc → entry) (t0 bound : nat) : Prop :=
  ∀ l,
    (has_timestamp (h0 l) → h l = h0 l) ∧
    (l ∉ take bound entries → h l = h0 l) ∧
    (∀ i, (i < bound)%nat → first_at entries l i → ¬ has_timestamp (h0 l) →
          h l = <["timestamp" := VInt (time_ms w (t0 + i / size))]> (h0 l)).

(** The invariant of the loop of [send_logs] after [j] batches. *)
Definition logs_inv (w : World) (self : DynatraceLogsClient) (entries : list loc)
    (s0 : state) (j : nat) (s : state) (acc : nat * list string) : Prop :=
  let size := Z.to_nat (batch_size self) in
  next s = next s0 ∧
  ticks s = (ticks s0 + j)%nat ∧
  posts s = (posts s0 + j)%nat ∧
  trace s = (trace s0 ++ (HttpPost <$> (batch_request self entries (heap s) <$> seq 0 j)))%list ∧
  acc = (sent_count w self entries (heap s) (posts s0) j,
         error_strings w self entries (heap s) (posts s0) j) ∧
  (∀ l, l ∈ take (j * size) entries → has_timestamp (heap s l)) ∧
  stamped_upto w size entries (heap s0) (heap s) (ticks s0) (j * size).

(** The dictionary [send_logs] returns after its loop. *)
Definition logs_result (total_sent : nat) (total : nat) (errors : list string)
    : gmap string rvalue :=
  let result : gmap string rvalue :=
    {[ "sent" := RInt (Z.of_nat total_sent); "total" := RInt (Z.of_nat total) ]} in
  if bool_decide (errors = []) then result else <["errors" := RList errors]> result.

(** The number of batches of [send_logs]. *)
Definition batch_count (self : DynatraceLogsClient) (entries : list loc) : nat :=
  Z.to_nat (ceil_div (Z.of_nat (length entries)) (batch_size self)).

(** ** Worlds and clients for the examples *)

(** A response with the given status and an empty body. *)
Definition answer (status : Z) (rq : request) : post_outcome :=
  Responded {| status_code := status; reason := ""; url := req_url rq; text := "" |}.

(** A world whose HTTP endpoints answer by [reply]; no environment, no
    secrets, no rows. *)
Definition world_replying (reply : nat → request → post_outcome) : World :=
  {| json_loads := λ _, DecodeError "Expecting value: line 1 column 1 (char 0)";
     utcnow := λ n, 1000 * Z.of_nat n;
     environ := ∅;
     get_secret_value := λ _, Ok None;
     pg_stat_activity := λ _, Ok [];
     requests_post := reply;
     time_ms := λ n, 1700000000000 + Z.of_nat n |}.

(** The log client [lambda_handler] builds, for some URL and token. *)
Definition example_client : DynatraceLogsClient :=
  logs_client_init "https://abc.live.dynatrace.com/" (JStr "dt0c01.token") 30 100.

(** ** Vocabulary for [lambda_handler] *)

Definition add_event (ev : io_event) (s : state) : state :=
  {| heap := heap s; next := next s; trace := (trace s ++ [ev])%list;
     posts := posts s; ticks := ticks s |}.

(** What [get_secret] returns or raises for a reference; it does not depend
    on the state. *)
Definition secret_value (w : World) (secret_arn : string) : res json :=
  fst (get_secret w secret_arn initial).

(** The collector [lambda_handler] builds from the configuration and the
    database password. *)
Definition collector_for (config : Config) (db_password : json) : conn_params :=
  {| cp_host := aurora_host config;
     cp_port := aurora_port config;
     cp_database := aurora_database config;
     cp_user := aurora_user config;
     cp_password := db_password;
     cp_threshold := threshold_seconds config |}.

(** The request [send_metrics] builds for a list of lines. *)
Definition metrics_request (self : DynatraceMetricsClient) (metrics : list string)
    : request :=
  {| req_url := m_ingest_url self;
     req_token := m_api_token self;
     req_content_type := "text/plain; charset=utf-8";
     req_data := TextBody (join (String "010" "") metrics);
     req_timeout := m_timeout self |}.

(** The message of the [HTTPError] that [raise_for_status] raises. *)
Definition http_error_message (r : response) : string :=
  pretty (status_code r)
  +:+ (if bool_decide (status_code r < 500) then " Client Error: " else " Server Error: ")
  +:+ reason r +:+ " for url: " +:+ url r.

(** The six required variables. *)
Definition required_names : list string :=
  [ "AURORA_HOST"; "AURORA_DATABASE"; "AURORA_USER"; "AURORA_PASSWORD_SECRET_ARN";
    "DT_ENVIRONMENT_URL"; "DT_API_TOKEN_SECRET_ARN" ].

(** [name] occurs in [msg]. *)
Definition names (msg name : string) : Prop :=
  ∃ before after, msg = before +:+ name +:+ after.

(** A complete environment, two rows, and a world made of them. *)
Definition example_environ : gmap string string :=
  <["AURORA_HOST" := "db1.cluster-x.eu-west-1.rds.amazonaws.com"]>
  (<["AURORA_DATABASE" := "app"]>
  (<["AURORA_USER" := "monitor"]>
  (<["AURORA_PASSWORD_SECRET_ARN" := "arn:aws:secretsmanager:pw"]>
  (<["DT_ENVIRONMENT_URL" := "https://abc.live.dynatrace.com/"]>
  (<["DT_API_TOKEN_SECRET_ARN" := "arn:aws:secretsmanager:token"]> ∅))))).

Definition example_rows : list QueryRow :=
  [ {| pid := 4711; usename := "app"; datname := "app"; q_state := "active";
       wait_event_type := Some "Lock"; wait_event := Some "relation";
       duration_seconds := 400; query := "UPDATE accounts SET balance = 0" |};
    {| pid := 4712; usename := "report"; datname := "app"; q_state := "active";
       wait_event_type := None; wait_event := None;
       duration_seconds := 120; query := "SELECT count(*) FROM events" |} ].

Definition example_world (env : gmap string string) (rows : list QueryRow)
    (reply : nat → request → post_outcome) : World :=
  {| json_loads := λ _, DecodeError "Expecting value: line 1 column 1 (char 0)";
     utcnow := λ n, 1000 * Z.of_nat n;
     environ := env;
     get_secret_value := λ arn, Ok (Some ("value of " +:+ arn));
     pg_stat_activity := λ _, Ok rows;
     requests_post := reply;
     time_ms := λ n, 1700000000000 + Z.of_nat n |}.

(** The metrics endpoint accepts (the first POST), the logs endpoint is down. *)
Definition logs_down (n : nat) (rq : request) : post_outcome :=
  match n with
  | O => answer 202 rq
  | S _ => Failed "HTTPSConnectionPool: Read timed out."
  end.

(** The configuration read from [example_environ]. *)
Definition example_config : Config :=
  {| aurora_host := "db1.cluster-x.eu-west-1.rds.amazonaws.com";
     aurora_port := 5432;
     aurora_database := "app";
     aurora_user := "monitor";
     aurora_password_secret_arn := "arn:aws:secretsmanager:pw";
     dt_environment_url := "https://abc.live.dynatrace.com/";
     dt_api_token_secret_arn := "arn:aws:secretsmanager:token";
     threshold_seconds := 60 |}.

(** A world whose password secret is the plain string [12345]: the
    decoder reads it as the JSON number it is. *)
Definition numeric_secret_world : World :=
  {| json_loads := λ s, if String.eqb s "12345" then Decoded (JInt 12345)
                        else DecodeError "Expecting value: line 1 column 1 (char 0)";
     utcnow := λ n, 1000 * Z.of_nat n;
     environ := example_environ;
     get_secret_value := λ arn, Ok (Some "12345");
     pg_stat_activity := λ _, Ok [];
     requests_post := λ _, answer 202;
     time_ms := λ n, 1700000000000 + Z.of_nat n |}.

(** ** The rest of dynatrace/logs_client.py *)

(** [DynatraceLogsClient.send_log], as it is called with the content and the
    severity in their positions and the attributes as keywords, in the order
    of the call: [client.send_log(content, severity, **attributes)].

    A keyword that has the name of a parameter is bound to that parameter
    and never reaches [**attributes]; the parameter having its value
    already, the call raises a [TypeError] for the first such keyword,
    before the body runs. *)
Definition send_log_parameters : list string := ["self"; "content"; "severity"].

Definition bound_twice (attributes : list (string * value)) : option string :=
  fst <$> List.find (λ kv, bool_decide (kv.1 ∈ send_log_parameters)) attributes.

(** The display [{"content": content, "severity": severity, **attributes}]
    makes a new dictionary; its keys are set from left to right. *)
Definition log_entry_display (content severity : string)
    (attributes : list (string * value)) : entry :=
  foldl (λ e kv, <[kv.1 := kv.2]> e)
        (<["severity" := VStr severity]> (<["content" := VStr content]> ∅))
        attributes.

Definition send_log (w : World) (self : DynatraceLogsClient)
    (content severity : string) (attributes : list (string * value))
    : M (gmap string rvalue) :=
  match bound_twice attributes with
  | Some name =>
      raise (TypeError ("DynatraceLogsClient.send_log() got multiple values for argument '"
                        +:+ name +:+ "'"))
  | None =>
      entry ← alloc (log_entry_display content severity attributes);
      send_logs w self [entry]
  end.

(** The entries a request carries. *)
Definition payload_entries (rq : request) : list entry :=
  match req_data rq with
  | JsonBody entries => entries
  | TextBody _ => []
  end.

(** [s] ends with the character [c]. *)
Definition ends_with (c : ascii) (s : string) : Prop :=
  ∃ t, s = t +:+ String c "".

(** [n] times the character [/]. *)
Fixpoint slashes (n : nat) : string :=
  match n with
  | O => ""
  | S n' => String "/" (slashes n')
  end.

(** The entry [send_logs] leaves in the store for an entry [e] it met in a
    batch stamped with [t]. *)
Definition stamped (t : Z) (e : entry) : entry :=
  match e !! "timestamp" with
  | Some _ => e
  | None => <["timestamp" := VInt t]> e
  end.

(** The state after one more POST. *)
Definition add_post (rq : request) (s : state) : state :=
  {| heap := heap s; next := next s; trace := (trace s ++ [HttpPost rq])%list;
     posts := S (posts s); ticks := ticks s |}.

(** What [send_metrics] returns or raises when [p] POSTs were issued before
    it: the state plays no other part. *)
Definition metrics_reply (w : World) (self : DynatraceMetricsClient)
    (metrics : list string) (p : nat) : res json :=
  fst (send_metrics w self metrics
         {| heap := λ _, ∅; next := 0%nat; trace := []; posts := p; ticks := 0%nat |}).




(** The state in which the [try] block of [lambda_handler] starts: the
    clock was read once. *)
Definition started : state :=
  {| heap := λ _, ∅; next := 0%nat; trace := []; posts := 0%nat; ticks := 1%nat |}.

(** The two clients [lambda_handler] builds. *)
Definition metrics_client_for (config : Config) (dt_api_token : json)
    : DynatraceMetricsClient :=
  metrics_client_init (dt_environment_url config) dt_api_token 30.

Definition logs_client_for (config : Config) (dt_api_token : json)
    : DynatraceLogsClient :=
  logs_client_init (dt_environment_url config) dt_api_token 30 100.

(** The entry posted for the row at position [i]: the dictionary built for
    the row, with the clock reading taken for its batch of 100 (the
    readings 1, 2, ... of the invocation, the reading 0 being its start). *)
Definition posted_entry (w : World) (config : Config) (i : nat) (q : QueryRow) : entry :=
  <["timestamp" := VInt (time_ms w (1 + i / 100))]>
    (make_log_entry (aurora_database config) (before_dot (aurora_host config)) q).

(** A world whose secrets are JSON objects, as Secrets Manager stores the
    credentials of a database: the decoder reads the text as the object it
    is. *)
Definition quoted (s : string) : string := String "034" s +:+ String "034" "".

Definition rds_secret_text : string :=
  "{" +:+ quoted "username" +:+ ": " +:+ quoted "monitor" +:+ ", "
  +:+ quoted "password" +:+ ": " +:+ quoted "s3cret" +:+ "}".

Definition rds_secret_world : World :=
  {| json_loads := λ s,
       if String.eqb s rds_secret_text
       then Decoded (JDict [("username", JStr "monitor"); ("password", JStr "s3cret")])
       else DecodeError "Expecting value: line 1 column 1 (char 0)";
     utcnow := λ n, 1000 * Z.of_nat n;
     environ := example_environ;
     get_secret_value := λ arn, Ok (Some rds_secret_text);
     pg_stat_activity := λ _, Ok [];
     requests_post := λ _, answer 202;
     time_ms := λ n, 1700000000000 + Z.of_nat n |}.

(** A world with the complete environment whose database refuses the
    connection. *)
Definition database_down : World :=
  {| json_loads := λ _, DecodeError "Expecting value: line 1 column 1 (char 0)";
     utcnow := λ n, 1000 * Z.of_nat n;
     environ := example_environ;
     get_secret_value := λ arn, Ok (Some ("value of " +:+ arn));
     pg_stat_activity := λ _, Raise (ExternalError "connection refused");
     requests_post := λ _, answer 202;
     time_ms := λ n, 1700000000000 + Z.of_nat n |}.

(** The requests that carry the log entries of the rows [queries]: one for
    every 100 rows. *)
Definition log_requests (w : World) (config : Config) (dt_api_token : json)
    (queries : list QueryRow) : list request :=
  (λ k, logs_request (logs_client_for config dt_api_token)
          (batch_of 100 (imap (posted_entry w config) queries) k))
  <$> seq 0 (Z.to_nat (ceil_div (Z.of_nat (length queries)) 100)).

(** The lines built for [example_rows]. *)
Definition example_metrics : list string :=
  Eval vm_compute in
    match build_metrics "app" "db1" example_rows with
    | Ok metrics => metrics
    | Raise _ => []
    end.

(** The requests POSTed in a trace. *)
Definition http_posts (t : list io_event) : list request :=
  omap (λ ev, match ev with HttpPost rq => Some rq | _ => None end) t.

(** The first row of [example_rows]. *)
Definition blocked_update : QueryRow :=
  {| pid := 4711; usename := "app"; datname := "app"; q_state := "active";
     wait_event_type := Some "Lock"; wait_event := Some "relation";
     duration_seconds := 400; query := "UPDATE accounts SET balance = 0" |}.

(** ** collectors/postgres_collector.py, statement by statement

    [get_long_running_queries] above is the method as [lambda_handler] sees
    it: rows or an error. This module follows the methods of
    [PostgresCollector] through their [try] blocks: the connection, the
    cursor, the statement, the [finally] and the [except] clauses. The
    server is a parameter: it accepts or refuses a connection and answers a
    statement by rows or by an error. The calls made and the lines logged
    are recorded in a trace of their own. Closing a cursor or a connection
    does not raise. *)
Module PostgresCollector.

(** A row of a [RealDictCursor], and the [dict] made of it. *)
Definition row : Type := gmap string json.

(** The three statements, by the method that holds their text. *)
Inductive sql :=
| LongRunningQueriesSQL
| BlockedQueriesSQL
| QueryStatsSQL.

(** The exceptions of [psycopg2]: [UndefinedTable] and the other subclasses
    of [psycopg2.Error]. *)
Inductive error :=
| UndefinedTable (msg : string)
| OtherError (msg : string).

Definition str_error (e : error) : string :=
  match e with UndefinedTable msg | OtherError msg => msg end.

Definition is_undefined_table (e : error) : bool :=
  match e with UndefinedTable _ => true | OtherError _ => false end.

(** The keyword arguments of [psycopg2.connect]. *)
Record connect_args := {
  host : string;
  port : Z;
  dbname : string;
  user : string;
  password : json;
  connect_timeout : Z;
  application_name : string;
}.

Record Server := {
  connect : connect_args → option error;          (* [None]: connected *)
  execute : sql → list Z → error + list row;      (* the rows of the cursor *)
}.

Inductive event :=
| Connect (args : connect_args) (connected : bool)
| OpenCursor
| Execute (statement : sql) (params : list Z)
| CloseCursor
| Close
| LogError (msg : string)
| LogWarning (msg : string).

Inductive outcome (A : Type) :=
| Returned (a : A)
| Raised (e : error).
Arguments Returned {A} a.
Arguments Raised {A} e.

(** Computations that call the server and the logger. *)
Definition P (A : Type) : Type := list event → outcome A * list event.

Definition ret {A} (a : A) : P A := λ t, (Returned a, t).

Definition bind {A B} (m : P A) (f : A → P B) : P B := λ t,
  match m t with
  | (Returned a, t') => f a t'
  | (Raised e, t') => (Raised e, t')
  end.

Definition throw {A} (e : error) : P A := λ t, (Raised e, t).

Definition emit (ev : event) : P unit := λ t, (Returned (), (t ++ [ev])%list).

(** [try: m except <class> as e: h e], the class being given by [caught] *)
Definition try_except {A} (caught : error → bool) (m : P A) (h : error → P A) : P A := λ t,
  match m t with
  | (Returned a, t') => (Returned a, t')
  | (Raised e, t') => if caught e then h e t' else (Raised e, t')
  end.

(** [try: m finally: cleanup], for a [cleanup] that does not raise *)
Definition try_finally {A} (m : P A) (cleanup : P unit) : P A := λ t,
  match m t with
  | (r, t') => (r, snd (cleanup t'))
  end.

(** [with conn.cursor(cursor_factory=RealDictCursor) as cur: body] *)
Definition with_cursor {A} (body : P A) : P A :=
  bind (emit OpenCursor) (λ _, try_finally body (emit CloseCursor)).

(** [cur.execute(query, params)] and the rows it makes available *)
Definition cur_execute (srv : Server) (statement : sql) (params : list Z)
    : P (list row) := λ t,
  (match execute srv statement params with
   | inl e => Raised e
   | inr rows => Returned rows
   end, (t ++ [Execute statement params])%list).

Definition args_of (self : conn_params) : connect_args :=
  {| host := cp_host self;
     port := cp_port self;
     dbname := cp_database self;
     user := cp_user self;
     password := cp_password self;
     connect_timeout := 10;
     application_name := "dynatrace_monitor" |}.

(** [_get_connection] *)
Definition _get_connection (srv : Server) (self : conn_params) : P unit := λ t,
  match connect srv (args_of self) with
  | None => (Returned (), (t ++ [Connect (args_of self) true])%list)
  | Some e => (Raised e, (t ++ [Connect (args_of self) false])%list)
  end.

(** [psycopg2.Error] catches every error of the library. *)
Definition any_error (e : error) : bool := true.

(** [except psycopg2.Error as e: logger.error(f"Database error: {e}"); raise] *)
Definition log_and_raise {A} (e : error) : P A :=
  bind (emit (LogError ("Database error: " +:+ str_error e))) (λ _, throw e).

(** [get_long_running_queries] *)
Definition get_long_running_queries (srv : Server) (self : conn_params)
    : P (list row) :=
  try_except any_error
    (bind (_get_connection srv self) (λ conn,
     try_finally
       (with_cursor
          (bind (cur_execute srv LongRunningQueriesSQL [cp_threshold self])
                (λ results, ret results)))
       (emit Close)))
    log_and_raise.

(** [get_blocked_queries] *)
Definition get_blocked_queries (srv : Server) (self : conn_params) : P (list row) :=
  try_except any_error
    (bind (_get_connection srv self) (λ conn,
     try_finally
       (with_cursor
          (bind (cur_execute srv BlockedQueriesSQL [])
                (λ results, ret results)))
       (emit Close)))
    log_and_raise.

(** [get_query_stats]; [fetchone] gives the first row, or [None]. *)
Definition get_query_stats (srv : Server) (self : conn_params) : P row :=
  try_except any_error
    (bind (_get_connection srv self) (λ conn,
     try_finally
       (try_except is_undefined_table
          (with_cursor
             (bind (cur_execute srv QueryStatsSQL [])
                   (λ rows,
                      let result := head rows in
                      ret (match result with
                           | Some r => if bool_decide (r = ∅) then ∅ else r
                           | None => ∅
                           end))))
          (λ _, bind (emit (LogWarning "pg_stat_statements extension not available"))
                     (λ _, ret ∅)))
       (emit Close)))
    log_and_raise.

(** [test_connection] *)
Definition test_connection (srv : Server) (self : conn_params) : P bool :=
  try_except any_error
    (bind (_get_connection srv self) (λ conn,
     bind (emit Close) (λ _, ret true)))
    (λ e, bind (emit (LogError ("Connection test failed: " +:+ str_error e)))
               (λ _, ret false)).

(** The state of the client while a trace unfolds: no connection, a
    connection, a connection with an open cursor. [session] follows a trace
    from a state and gives the state reached, or [None] when an event comes
    in a state that does not allow it: a statement without a cursor, a
    second connection, a close without a connection. *)
Inductive client := Idle | Connected | InCursor.

Definition step (c : client) (ev : event) : option client :=
  match ev, c with
  | Connect _ true, Idle => Some Connected
  | Connect _ false, Idle => Some Idle
  | OpenCursor, Connected => Some InCursor
  | Execute _ _, InCursor => Some InCursor
  | CloseCursor, InCursor => Some Connected
  | Close, Connected => Some Idle
  | LogError _, _ | LogWarning _, _ => Some c
  | _, _ => None
  end.

Fixpoint session (c : client) (evs : list event) : option client :=
  match evs with
  | [] => Some c
  | ev :: evs' => match step c ev with Some c' => session c' evs' | None => None end
  end.

(** The connection attempts and the statements of a trace. *)
Definition connects (evs : list event) : list (connect_args * bool) :=
  omap (λ ev, match ev with Connect args ok => Some (args, ok) | _ => None end) evs.

Definition statements (evs : list event) : list (sql * list Z) :=
  omap (λ ev, match ev with Execute q params => Some (q, params) | _ => None end) evs.

(** The server accepts the connection of the collector. *)
Definition accepts (srv : Server) (self : conn_params) : bool :=
  match connect srv (args_of self) with None => true | Some _ => false end.

(** What the server answers to a statement of a connected client. *)
Definition answer_of (srv : Server) (statement : sql) (params : list Z)
    : outcome (list row) :=
  match execute srv statement params with
  | inl e => Raised e
  | inr rows => Returned rows
  end.

(** The events of a method that found a connection and ran one statement. *)
Definition query_events (self : conn_params) (statement : sql) (params : list Z)
    : list event :=
  [ Connect (args_of self) true; OpenCursor; Execute statement params; CloseCursor; Close ].

(** A server that knows no [pg_stat_statements]. *)
Definition without_stat_statements : Server :=
  {| connect := λ _, None;
     execute := λ statement _,
       match statement with
       | QueryStatsSQL =>
           inl (UndefinedTable "relation pg_stat_statements does not exist")
       | _ => inr []
       end |}.

(** A server that refuses every connection. *)
Definition unreachable : Server :=
  {| connect := λ _, Some (OtherError "connection refused");
     execute := λ _ _, inr [] |}.

End PostgresCollector.

(** A collector for the examples. *)
Definition example_collector : conn_params :=
  collector_for example_config (JStr "value of arn:aws:secretsmanager:pw").

(** * Proofs *)

(** ** The monad *)

Ltac unfold_M :=
  unfold mbind, M_bind, mret, M_ret, raise, lift, try_except, deref, store,
    json_dumps, current_time_ms, post in *.

(** ** Builtins *)

Lemma ceil_div_nonpos a b : 0 < b → a ≤ 0 → ceil_div a b ≤ 0.
Proof.
  intros Hb Ha. unfold ceil_div.
  assert ((a + b - 1) / b < 1); [|lia].
  apply Z.div_lt_upper_bound; lia.
Qed.

Lemma ceil_div_step a b : 0 < b → ceil_div a b = 1 + ceil_div (a - b) b.
Proof.
  intros Hb. unfold ceil_div.
  replace (a + b - 1) with (1 * b + (a - b + b - 1)) by lia.
  rewrite Z.div_add_l by lia. done.
Qed.

Lemma ceil_div_pos a b : 0 < b → 0 < a → 0 < ceil_div a b.
Proof.
  intros Hb Ha. unfold ceil_div.
  apply Z.div_str_pos. lia.
Qed.

(** The ceiling is the least number of steps of size [b] that cover [a]. *)
Lemma ceil_div_spec a b : 0 < b → (ceil_div a b - 1) * b < a ≤ ceil_div a b * b.
Proof.
  intros Hb. unfold ceil_div.
  pose proof (Z.div_mod (a + b - 1) b ltac:(lia)) as Hdm.
  pose proof (Z.mod_pos_bound (a + b - 1) b Hb). nia.
Qed.

Lemma range_up_spec fuel i stop step :
  0 < step → (Z.to_nat (stop - i) ≤ fuel)%nat →
  range_up fuel i stop step =
  (λ k : nat, i + Z.of_nat k * step) <$> seq 0 (Z.to_nat (ceil_div (stop - i) step)).
Proof.
  intros Hstep. revert i. induction fuel as [|fuel IH]; intros i Hfuel; simpl.
  - pose proof (ceil_div_nonpos (stop - i) step Hstep ltac:(lia)).
    by replace (Z.to_nat (ceil_div (stop - i) step)) with 0%nat by lia.
  - destruct (Z.ltb_spec i stop) as [Hlt|Hge].
    + rewrite (ceil_div_step (stop - i)) by done.
      pose proof (ceil_div_nonpos (stop - i - step) step Hstep) as Hnp.
      destruct (Z.le_gt_cases (stop - i - step) 0) as [Hle|Hgt].
      * specialize (Hnp Hle).
        rewrite IH by lia.
        replace (stop - (i + step)) with (stop - i - step) by lia.
        replace (Z.to_nat (ceil_div (stop - i - step) step)) with 0%nat by lia.
        replace (Z.to_nat (1 + ceil_div (stop - i - step) step)) with 1%nat.
        { simpl. f_equal. lia. }
        assert (1 + ceil_div (stop - i - step) step = 1); [|lia].
        pose proof (ceil_div_pos (stop - i) step Hstep ltac:(lia)).
        rewrite (ceil_div_step (stop - i)) in H by done. lia.
      * pose proof (ceil_div_pos (stop - i - step) step Hstep Hgt).
        replace (Z.to_nat (1 + ceil_div (stop - i - step) step))
          with (S (Z.to_nat (ceil_div (stop - i - step) step))) by lia.
        rewrite IH by lia. simpl. f_equal; [lia|].
        replace (stop - (i + step)) with (stop - i - step) by lia.
        rewrite <- fmap_S_seq, <- list_fmap_compose.
        apply list_fmap_ext. intros _ k _. simpl. lia.
    + pose proof (ceil_div_nonpos (stop - i) step Hstep ltac:(lia)).
      by replace (Z.to_nat (ceil_div (stop - i) step)) with 0%nat by lia.
Qed.

(** For a positive step, [range(0, stop, step)] yields the multiples
    [0, step, 2 * step, ...] below [stop]: [ceil (stop / step)] values. *)
Lemma py_range_pos stop step :
  0 < step →
  py_range 0 stop step =
  Ok ((λ k : nat, Z.of_nat k * step) <$> seq 0 (Z.to_nat (ceil_div stop step))).
Proof.
  intros Hstep. unfold py_range.
  destruct (Z.eqb_spec step 0); [lia|].
  destruct (Z.ltb_spec 0 step); [|lia].
  rewrite range_up_spec by (done || lia).
  by rewrite Z.sub_0_r.
Qed.

Lemma py_slice_batch {A} (l : list A) (size : Z) (k : nat) :
  0 < size → (k * Z.to_nat size < length l)%nat →
  py_slice l (Z.of_nat k * size) (Z.of_nat k * size + size)
  = batch_of (Z.to_nat size) l k.
Proof.
  intros Hsize Hk. unfold py_slice, batch_of, slice_bound.
  assert (Hlt : Z.of_nat k * size < Z.of_nat (length l)) by nia.
  destruct (Z.ltb_spec (Z.of_nat k * size) 0); [nia|].
  destruct (Z.ltb_spec (Z.of_nat k * size + size) 0); [nia|].
  rewrite (Z.min_l (Z.of_nat k * size)) by lia.
  replace (Z.to_nat (Z.of_nat k * size)) with (k * Z.to_nat size)%nat by nia.
  destruct (Z.le_gt_cases (Z.of_nat k * size + size) (Z.of_nat (length l))).
  - rewrite Z.min_l by lia. f_equal. lia.
  - rewrite Z.min_r by lia.
    rewrite !take_ge; [done| |]; rewrite length_drop; lia.
Qed.

(** ** dynatrace/logs_client.py: the stamping loop *)

Lemma foldM_stamp t batch s :
  foldM (stamp t) () batch s = (Ok (), set_heap (stamp_all t (heap s) batch) s).
Proof.
  revert s. induction batch as [|l batch IH]; intros s.
  - by destruct s.
  - simpl. unfold mbind at 1, M_bind at 1. unfold stamp at 1. unfold_M.
    unfold stamp_all. simpl. unfold stamp_heap at 2.
    destruct (heap s l !! "timestamp") as [v|] eqn:Hl; simpl; rewrite IH.
    + done.
    + done.
Qed.

Lemma stamp_all_lookup t batch h l :
  stamp_all t h batch l =
  if decide (l ∈ batch)
  then match h l !! "timestamp" with
       | None => <["timestamp" := VInt t]> (h l)
       | Some _ => h l
       end
  else h l.
Proof.
  revert h. induction batch as [|x batch IH]; intros h.
  - simpl. destruct (decide (l ∈ [])) as [Hin|]; [by apply elem_of_nil in Hin|done].
  - unfold stamp_all in *. simpl. rewrite IH. clear IH.
    destruct (decide (x = l)) as [->|Hne].
    + rewrite (decide_True (P := l ∈ l :: batch)) by left.
      unfold stamp_heap.
      destruct (h l !! "timestamp") as [v|] eqn:Hl.
      * rewrite Hl. by destruct (decide (l ∈ batch)).
      * rewrite fn_lookup_insert, lookup_insert_eq.
        by destruct (decide (l ∈ batch)).
    + assert (Hh : stamp_heap t h x l = h l).
      { unfold stamp_heap. destruct (h x !! "timestamp"); [done|].
        by rewrite fn_lookup_insert_ne. }
      rewrite Hh.
      destruct (decide (l ∈ batch)) as [Hin|Hnin].
      * by rewrite (decide_True (P := l ∈ x :: batch)) by (by right).
      * rewrite (decide_False (P := l ∈ x :: batch)); [done|].
        intros [?|?]%elem_of_cons; congruence.
Qed.

Lemma stamp_all_keeps t batch h l :
  has_timestamp (h l) → stamp_all t h batch l = h l.
Proof.
  intros [v Hv]. rewrite stamp_all_lookup, Hv. by destruct (decide _).
Qed.

Lemma stamp_all_outside t batch h l :
  l ∉ batch → stamp_all t h batch l = h l.
Proof. intros Hl. rewrite stamp_all_lookup. by rewrite decide_False. Qed.

Lemma stamp_all_stamps t batch h l :
  l ∈ batch → ¬ has_timestamp (h l) →
  stamp_all t h batch l = <["timestamp" := VInt t]> (h l).
Proof.
  intros Hl Hno. rewrite stamp_all_lookup, decide_True by done.
  destruct (h l !! "timestamp") eqn:E; [|done].
  exfalso. apply Hno. by eexists.
Qed.

Lemma stamp_all_has t batch h l :
  l ∈ batch → has_timestamp (stamp_all t h batch l).
Proof.
  intros Hl. rewrite stamp_all_lookup, decide_True by done.
  unfold has_timestamp.
  destruct (h l !! "timestamp") eqn:E; [by rewrite E|].
  by rewrite lookup_insert_eq.
Qed.

(** One iteration of the loop, as a function of the state before it. *)
Lemma send_batch_run w self entries total_sent errors (k : nat) s :
  0 < batch_size self →
  (k * Z.to_nat (batch_size self) < length entries)%nat →
  let batch := batch_of (Z.to_nat (batch_size self)) entries k in
  let h' := stamp_all (time_ms w (ticks s)) (heap s) batch in
  let rq := logs_request self (h' <$> batch) in
  let o := requests_post w (posts s) rq in
  send_batch w self entries (total_sent, errors) (Z.of_nat k * batch_size self) s =
  (Ok (if post_failed o then total_sent else (total_sent + length batch)%nat,
       (errors ++ option_list (error_string o))%list),
   {| heap := h'; next := next s; trace := (trace s ++ [HttpPost rq])%list;
      posts := S (posts s); ticks := S (ticks s) |}).
Proof.
  intros Hsize Hk. simpl. unfold send_batch.
  rewrite py_slice_batch by done.
  unfold mbind at 1, M_bind at 1. unfold current_time_ms at 1. cbv beta iota.
  unfold mbind at 1, M_bind at 1. rewrite foldM_stamp.
  unfold set_heap; simpl.
  unfold mbind at 1, M_bind at 1. unfold json_dumps at 1. simpl.
  unfold try_except, mbind, M_bind, post, logs_request. simpl.
  destruct (requests_post w (posts s) _) as [r|msg]; simpl.
  - unfold raise_for_status.
    destruct (decide (400 ≤ status_code r < 500)) as [H4|H4].
    + rewrite (bool_decide_eq_true_2 _ H4). unfold_M.
      by rewrite (bool_decide_eq_true_2 (400 ≤ status_code r < 600)) by lia.
    + rewrite (bool_decide_eq_false_2 _ H4).
      destruct (decide (500 ≤ status_code r < 600)) as [H5|H5].
      * rewrite (bool_decide_eq_true_2 _ H5). unfold_M.
        by rewrite (bool_decide_eq_true_2 (400 ≤ status_code r < 600)) by lia.
      * rewrite (bool_decide_eq_false_2 _ H5). unfold_M.
        rewrite (bool_decide_eq_false_2 (400 ≤ status_code r < 600)) by lia.
        simpl. by rewrite app_nil_r.
  - done.
Qed.

(** ** dynatrace/logs_client.py: the batches *)

Lemma sum_list_with_ext_in {A} (f g : A → nat) (l : list A) :
  (∀ x, x ∈ l → f x = g x) → sum_list_with f l = sum_list_with g l.
Proof.
  induction l as [|x l IH]; intros Hfg; simpl; [done|].
  rewrite Hfg by left. rewrite IH; [done|]. intros y Hy. apply Hfg. by right.
Qed.

Lemma omap_ext_in {A B} (f g : A → option B) (l : list A) :
  (∀ x, x ∈ l → f x = g x) → omap f l = omap g l.
Proof.
  induction l as [|x l IH]; intros Hfg; simpl; [done|].
  rewrite Hfg by left.
  destruct (g x); [f_equal|]; apply IH; intros y Hy; apply Hfg; by right.
Qed.

Lemma take_succ_batch {A} (size j : nat) (l : list A) :
  take (S j * size) l = (take (j * size) l ++ batch_of size l j)%list.
Proof.
  unfold batch_of. rewrite take_take_drop. f_equal. lia.
Qed.

Lemma elem_of_batch {A} (size j : nat) (l : list A) (x : A) :
  x ∈ batch_of size l j ↔
  ∃ i, l !! i = Some x ∧ (j * size ≤ i < S j * size)%nat.
Proof.
  unfold batch_of. rewrite elem_of_take. split.
  - intros (i & Hi & Hlt). rewrite lookup_drop in Hi.
    exists (j * size + i)%nat. split; [done|lia].
  - intros (i & Hi & Hge & Hlt). exists (i - j * size)%nat.
    rewrite lookup_drop. replace (j * size + (i - j * size))%nat with i by lia.
    split; [done|lia].
Qed.

Lemma batch_subset_take {A} (size j k : nat) (l : list A) (x : A) :
  (k < j)%nat → x ∈ batch_of size l k → x ∈ take (j * size) l.
Proof.
  intros Hk (i & Hi & Hge & Hlt)%elem_of_batch.
  apply elem_of_take. exists i. split; [done|]. nia.
Qed.

(** Requests, outcomes and counts of the batches before [j] only depend on
    the entries of these batches. *)
Lemma batch_request_ext self entries h h' k :
  (∀ l, l ∈ batch_of (Z.to_nat (batch_size self)) entries k → h' l = h l) →
  batch_request self entries h' k = batch_request self entries h k.
Proof.
  intros Hext. unfold batch_request. f_equal.
  apply list_fmap_ext. intros i l Hl. apply Hext.
  by eapply list_elem_of_lookup_2.
Qed.

Section logs_loop.
Context (w : World) (self : DynatraceLogsClient) (entries : list loc) (s0 : state).
Let size := Z.to_nat (batch_size self).
Hypothesis Hsize : 0 < batch_size self.

Lemma logs_inv_init : logs_inv w self entries s0 0 s0 (0%nat, []).
Proof.
  unfold logs_inv. simpl. rewrite app_nil_r, Nat.add_0_r.
  repeat split; try done.
  - intros l Hl. rewrite take_0 in Hl. by apply elem_of_nil in Hl.
  - intros i Hi. lia.
Qed.

Lemma logs_inv_step j s acc :
  (j * size < length entries)%nat →
  logs_inv w self entries s0 j s acc →
  ∃ s' acc',
    send_batch w self entries acc (Z.of_nat j * batch_size self) s = (Ok acc', s') ∧
    logs_inv w self entries s0 (S j) s' acc'.
Proof.
  intros Hj (Hnext & Hticks & Hposts & Htrace & Hacc & Hhas & Hstamped).
  destruct acc as [total_sent errors]. injection Hacc as -> ->.
  rewrite send_batch_run by done. fold size.
  set (batch := batch_of size entries j).
  set (h' := stamp_all (time_ms w (ticks s)) (heap s) batch).
  eexists _, _. split; [reflexivity|].
  assert (Hold : ∀ k, (k < j)%nat →
            batch_request self entries h' k = batch_request self entries (heap s) k).
  { intros k Hk. apply batch_request_ext. intros l Hl. fold size in Hl.
    apply stamp_all_keeps, Hhas. by eapply batch_subset_take. }
  assert (Hout : ∀ k, (k < j)%nat →
            batch_outcome w self entries h' (posts s0) k
            = batch_outcome w self entries (heap s) (posts s0) k).
  { intros k Hk. unfold batch_outcome. by rewrite Hold. }
  unfold logs_inv. cbn [heap next trace posts ticks]. fold size.
  split; [done|]. split; [lia|]. split; [lia|].
  split; [|split; [|split]].
  - rewrite Htrace, seq_S, !fmap_app, <- app_assoc. f_equal. f_equal.
    f_equal. symmetry. apply list_fmap_ext. intros i k Hk.
    apply lookup_seq in Hk as [-> Hk]. by rewrite Hold.
  - unfold sent_count, error_strings. rewrite seq_S, sum_list_with_app, omap_app.
    simpl. fold size. fold batch.
    assert (Ho : batch_outcome w self entries h' (posts s0) j
                 = requests_post w (posts s) (logs_request self (h' <$> batch))).
    { unfold batch_outcome, batch_request. fold size. fold batch. by rewrite Hposts. }
    rewrite Ho.
    set (o := requests_post w (posts s) (logs_request self (h' <$> batch))).
    assert (Hsum : ∀ h1 h2 : loc → entry,
              (∀ k, (k < j)%nat → batch_outcome w self entries h1 (posts s0) k
                                  = batch_outcome w self entries h2 (posts s0) k) →
              sent_count w self entries h1 (posts s0) j
              = sent_count w self entries h2 (posts s0) j).
    { intros h1 h2 Hh. unfold sent_count. apply sum_list_with_ext_in. intros k Hk.
      apply elem_of_seq in Hk. by rewrite Hh by lia. }
    assert (Herr : ∀ h1 h2 : loc → entry,
              (∀ k, (k < j)%nat → batch_outcome w self entries h1 (posts s0) k
                                  = batch_outcome w self entries h2 (posts s0) k) →
              error_strings w self entries h1 (posts s0) j
              = error_strings w self entries h2 (posts s0) j).
    { intros h1 h2 Hh. unfold error_strings. apply omap_ext_in.
      intros k Hk. apply elem_of_seq in Hk. by rewrite Hh by lia. }
    specialize (Hsum _ _ Hout). specialize (Herr _ _ Hout).
    unfold sent_count, error_strings in Hsum, Herr. fold size in Hsum.
    rewrite Hsum, Herr. f_equal.
    all: try (destruct (post_failed o); lia).
    all: try (f_equal; by destruct (error_string o)).
  - intros l Hl. rewrite take_succ_batch in Hl. apply elem_of_app in Hl as [Hl|Hl].
    + unfold h'. rewrite stamp_all_keeps; by apply Hhas.
    + by apply stamp_all_has.
  - intros l. destruct (Hstamped l) as (Hkeep & Hout' & Hin). split; [|split].
    + intros Hts. unfold h'. rewrite stamp_all_keeps; [by apply Hkeep|].
      by rewrite Hkeep.
    + intros Hl. rewrite take_succ_batch in Hl.
      unfold h'. rewrite stamp_all_outside.
      * apply Hout'. intros ?. apply Hl, elem_of_app. by left.
      * intros ?. apply Hl, elem_of_app. by right.
    + intros i Hi [Hat Hfirst] Hno.
      destruct (decide (i < j * size)%nat) as [Hlt|Hge].
      * unfold h'. rewrite stamp_all_keeps; [by apply Hin|].
        apply Hhas, elem_of_take. by exists i.
      * assert (Hnotin : l ∉ take (j * size) entries).
        { intros (i' & Hi' & Hlt')%elem_of_take. apply (Hfirst i'); [lia|done]. }
        assert (Hinb : l ∈ batch).
        { apply elem_of_batch. exists i. split; [done|lia]. }
        unfold h'. rewrite stamp_all_stamps; [|done|by rewrite Hout'].
        rewrite Hout' by done. do 3 f_equal. rewrite Hticks. f_equal.
        assert (0 < size)%nat by (unfold size; lia).
        apply Nat.div_unique with (i - j * size)%nat; lia.
Qed.

Lemma logs_inv_loop n j s acc :
  ((j + n) * size < length entries + size)%nat →
  logs_inv w self entries s0 j s acc →
  ∃ s' acc',
    foldM (send_batch w self entries) acc
      ((λ k : nat, Z.of_nat k * batch_size self) <$> seq j n) s = (Ok acc', s') ∧
    logs_inv w self entries s0 (j + n) s' acc'.
Proof.
  revert j s acc. induction n as [|n IH]; intros j s acc Hbound Hinv.
  - simpl. exists s, acc. rewrite Nat.add_0_r. done.
  - simpl. unfold mbind, M_bind.
    destruct (logs_inv_step j s acc) as (s1 & acc1 & Hrun & Hinv1); [nia|done|].
    rewrite Hrun.
    destruct (IH (S j) s1 acc1) as (s' & acc' & Hrun' & Hinv'); [nia|done|].
    exists s', acc'. split; [done|].
    by replace (j + S n)%nat with (S j + n)%nat by lia.
Qed.
End logs_loop.

(** ** dynatrace/logs_client.py: [send_logs] as a whole *)

Lemma error_string_failed o : is_Some (error_string o) ↔ post_failed o = true.
Proof.
  destruct o as [r|msg]; simpl.
  - destruct (bool_decide (400 ≤ status_code r < 600)); split; try done;
      by intros [? ?].
  - split; [done|]. by eexists.
Qed.

Lemma batch_count_cover self entries :
  0 < batch_size self →
  let size := Z.to_nat (batch_size self) in
  (length entries ≤ batch_count self entries * size)%nat ∧
  (batch_count self entries * size < length entries + size)%nat.
Proof.
  intros Hsize. cbv zeta. unfold batch_count.
  pose proof (ceil_div_spec (Z.of_nat (length entries)) (batch_size self) Hsize).
  destruct (decide (length entries = 0)%nat) as [E|E].
  - rewrite E. change (Z.of_nat 0) with 0.
    pose proof (ceil_div_nonpos 0 (batch_size self) Hsize ltac:(lia)).
    replace (Z.to_nat (ceil_div 0 (batch_size self))) with 0%nat by lia. lia.
  - pose proof (ceil_div_pos (Z.of_nat (length entries)) (batch_size self) Hsize ltac:(lia)).
    split; nia.
Qed.

(** The run of [send_logs] on a non-empty list, with a positive batch size:
    it returns, and the invariant holds for all the batches. *)
Lemma send_logs_run w self entries s :
  0 < batch_size self → entries ≠ [] →
  ∃ s' total_sent errors,
    send_logs w self entries s
    = (Ok (logs_result total_sent (length entries) errors), s') ∧
    logs_inv w self entries s (batch_count self entries) s' (total_sent, errors).
Proof.
  intros Hsize Hne. unfold send_logs.
  rewrite bool_decide_eq_false_2 by done.
  rewrite py_range_pos by done.
  unfold mbind at 1, M_bind at 1, lift at 1.
  destruct (batch_count_cover self entries Hsize) as [_ Hup].
  destruct (logs_inv_loop w self entries s Hsize (batch_count self entries) 0 s (0%nat, []))
    as (s' & [total_sent errors] & Hrun & Hinv).
  { simpl. lia. }
  { apply logs_inv_init. }
  exists s', total_sent, errors. split; [|done].
  unfold mbind, M_bind. fold (batch_count self entries). rewrite Hrun. done.
Qed.

(** The run on the empty list: nothing happens. *)
Lemma send_logs_nil w self s :
  send_logs w self [] s = (Ok {[ "sent" := RInt 0 ]}, s).
Proof. done. Qed.

Lemma take_batch_count self (entries : list loc) :
  0 < batch_size self →
  take (batch_count self entries * Z.to_nat (batch_size self)) entries = entries.
Proof.
  intros Hsize. apply take_ge.
  by destruct (batch_count_cover self entries Hsize).
Qed.

Lemma first_at_bound entries l i : first_at entries l i → (i < length entries)%nat.
Proof. intros [Hi _]. by eapply lookup_lt_Some. Qed.


Lemma length_error_strings w self entries h p0 n :
  length (error_strings w self entries h p0 n)
  = length (List.filter (λ k, post_failed (batch_outcome w self entries h p0 k)) (seq 0 n)).
Proof.
  unfold error_strings. induction (seq 0 n) as [|k l IH]; simpl; [done|].
  pose proof (error_string_failed (batch_outcome w self entries h p0 k)) as Hf.
  destruct (error_string _) as [e|].
  - assert (post_failed (batch_outcome w self entries h p0 k) = true) as ->
      by (apply Hf; by eexists).
    simpl. f_equal. exact IH.
  - destruct (post_failed _); [|exact IH]. destruct Hf as [_ [? ?]]; done.
Qed.

Lemma error_strings_nil w self entries h p0 n :
  error_strings w self entries h p0 n = [] ↔
  ∀ k, (k < n)%nat → post_failed (batch_outcome w self entries h p0 k) = false.
Proof.
  unfold error_strings. split.
  - intros Hnil k Hk.
    destruct (post_failed _) eqn:Hf; [|done].
    apply error_string_failed in Hf as [e He].
    assert (e ∈ omap (λ k, error_string (batch_outcome w self entries h p0 k)) (seq 0 n)).
    { apply list_elem_of_omap. exists k. split; [|done]. apply elem_of_seq. lia. }
    rewrite Hnil in H. by apply elem_of_nil in H.
  - intros Hall. destruct (omap _ _) as [|e l] eqn:E; [done|].
    assert (e ∈ e :: l) as He by left. rewrite <- E in He.
    apply list_elem_of_omap in He as (k & Hk%elem_of_seq & He).
    specialize (Hall k ltac:(lia)).
    assert (is_Some (error_string (batch_outcome w self entries h p0 k))) as Hs by by eexists.
    apply error_string_failed in Hs. congruence.
Qed.

Lemma logs_result_sent total_sent total errors :
  logs_result total_sent total errors !! "sent" = Some (RInt (Z.of_nat total_sent)).
Proof. unfold logs_result. by case_bool_decide. Qed.

Lemma logs_result_total total_sent total errors :
  logs_result total_sent total errors !! "total" = Some (RInt (Z.of_nat total)).
Proof. unfold logs_result. by case_bool_decide. Qed.

Lemma logs_result_errors total_sent total errors :
  logs_result total_sent total errors !! "errors"
  = if bool_decide (errors = []) then None else Some (RList errors).
Proof. unfold logs_result. by case_bool_decide. Qed.

Lemma ceil_div_nil size :
  0 < size → Z.to_nat (ceil_div (Z.of_nat (length (@nil loc))) size) = 0%nat.
Proof.
  intros Hsize. change (Z.of_nat (length (@nil loc))) with 0.
  pose proof (ceil_div_nonpos 0 size Hsize ltac:(lia)). lia.
Qed.

(** ** The log forwarder: batching and partial failure *)

(** Claim C1, with a failing batch read as the code reads it. For a positive
    batch size [S] and [B] entries, [send_logs] returns without raising; it
    issues one POST per batch, [ceil (B / S)] in all, in order, whatever
    the outcome of the earlier ones; the count [sent] is the number of
    entries of the batches that did not fail, and a batch that fails
    (transport error, or a response whose status is 400..599) adds nothing
    to it and exactly one string to [errors]. *)
Theorem send_logs_batches w self entries s :
  0 < batch_size self →
  let n := Z.to_nat (ceil_div (Z.of_nat (length entries)) (batch_size self)) in
  ∃ result s',
    send_logs w self entries s = (Ok result, s') ∧
    trace s' = (trace s ++
                (HttpPost <$> (batch_request self entries (heap s') <$> seq 0 n)))%list ∧
    posts s' = (posts s + n)%nat ∧
    result !! "sent"
    = Some (RInt (Z.of_nat (sent_count w self entries (heap s') (posts s) n))) ∧
    result !! "errors"
    = (if bool_decide (error_strings w self entries (heap s') (posts s) n = [])
       then None
       else Some (RList (error_strings w self entries (heap s') (posts s) n))) ∧
    length (error_strings w self entries (heap s') (posts s) n)
    = length (List.filter
                (λ k, post_failed (batch_outcome w self entries (heap s') (posts s) k))
                (seq 0 n)).
Proof.
  intros Hsize n. destruct (decide (entries = [])) as [->|Hne].
  - exists {[ "sent" := RInt 0 ]}, s.
    assert (n = 0%nat) as -> by (by apply ceil_div_nil).
    rewrite send_logs_nil. simpl. rewrite app_nil_r, Nat.add_0_r. done.
  - destruct (send_logs_run w self entries s Hsize Hne)
      as (s' & total_sent & errors & Hrun & Hinv).
    destruct Hinv as (_ & _ & Hposts & Htrace & Hacc & _ & _).
    injection Hacc as -> ->. fold (batch_count self entries) in n.
    eexists _, s'. split; [exact Hrun|].
    rewrite logs_result_sent, logs_result_errors.
    repeat split; try done. apply length_error_strings.
Qed.

Lemma send_logs_batches_witness :
  0 < batch_size example_client ∧
  ∃ result s',
    send_logs (world_replying (λ _, answer 503)) example_client [0%nat; 1%nat] initial
    = (Ok result, s') ∧
    posts s' = 1%nat ∧ result !! "sent" = Some (RInt 0).
Proof.
  split; [done|].
  destruct (send_logs_batches (world_replying (λ _, answer 503)) example_client
              [0%nat; 1%nat] initial ltac:(done))
    as (result & s' & Hrun & _ & Hposts & Hsent & _).
  exists result, s'. split; [exact Hrun|]. split; [exact Hposts|exact Hsent].
Defined.

(** Claim C1 as stated fails on a response that is neither 2xx nor an
    error for [raise_for_status]: the only batch is answered 304, yet its
    entry is counted as sent and no error is recorded. *)
Lemma send_logs_counts_304 :
  ∃ result s' r,
    send_logs (world_replying (λ _, answer 304)) example_client [0%nat] initial
    = (Ok result, s') ∧
    batch_outcome (world_replying (λ _, answer 304)) example_client [0%nat]
      (heap s') 0 0 = Responded r ∧
    ¬ (200 ≤ status_code r < 300) ∧
    result !! "sent" = Some (RInt 1) ∧
    result !! "errors" = None.
Proof.
  eexists _, _, _. split; [vm_compute; reflexivity|].
  split; [vm_compute; reflexivity|].
  split; [simpl; lia|]. split; reflexivity.
Qed.

(** ** The log forwarder: timestamps *)

(** Claim C3. With a positive batch size, the clock is read once per
    batch; an entry that has a timestamp keeps it (the whole entry is
    unchanged); an entry that has none gets the reading of the batch in which
    it is first met, so two entries stamped in the same batch get the same
    value; and the payload of each batch carries the entries so stamped. *)
Theorem send_logs_timestamps w self entries s :
  0 < batch_size self →
  let size := Z.to_nat (batch_size self) in
  let n := Z.to_nat (ceil_div (Z.of_nat (length entries)) (batch_size self)) in
  ∃ result s',
    send_logs w self entries s = (Ok result, s') ∧
    ticks s' = (ticks s + n)%nat ∧
    (∀ l, has_timestamp (heap s l) → heap s' l = heap s l) ∧
    (∀ l i, first_at entries l i → ¬ has_timestamp (heap s l) →
       heap s' l = <["timestamp" := VInt (time_ms w (ticks s + i / size))]> (heap s l)) ∧
    (∀ l1 i1 l2 i2,
       first_at entries l1 i1 → first_at entries l2 i2 →
       ¬ has_timestamp (heap s l1) → ¬ has_timestamp (heap s l2) →
       (i1 / size = i2 / size)%nat →
       heap s' l1 !! "timestamp" = heap s' l2 !! "timestamp") ∧
    trace s' = (trace s ++
                (HttpPost <$> (batch_request self entries (heap s') <$> seq 0 n)))%list.
Proof.
  intros Hsize size n. destruct (decide (entries = [])) as [->|Hne].
  - exists {[ "sent" := RInt 0 ]}, s.
    assert (n = 0%nat) as -> by (by apply ceil_div_nil).
    rewrite send_logs_nil. simpl. rewrite app_nil_r, Nat.add_0_r.
    repeat split; try done.
    + intros l i [Hi _]. done.
    + intros l1 i1 l2 i2 [Hi _]. done.
  - destruct (send_logs_run w self entries s Hsize Hne)
      as (s' & total_sent & errors & Hrun & Hinv).
    destruct Hinv as (_ & Hticks & _ & Htrace & _ & _ & Hstamped).
    fold (batch_count self entries) in n. fold size in Hstamped.
    assert (Hstamp : ∀ l i, first_at entries l i → ¬ has_timestamp (heap s l) →
              heap s' l
              = <["timestamp" := VInt (time_ms w (ticks s + i / size))]> (heap s l)).
    { intros l i Hfirst Hno. destruct (Hstamped l) as (_ & _ & Hin).
      apply Hin; [|done|done].
      pose proof (first_at_bound _ _ _ Hfirst).
      destruct (batch_count_cover self entries Hsize) as [Hle _].
      fold size in Hle. unfold n. lia. }
    eexists _, s'. split; [exact Hrun|].
    split; [done|]. split; [|split; [done|split; [|done]]].
    + intros l Hl. by destruct (Hstamped l) as (Hkeep & _ & _); apply Hkeep.
    + intros l1 i1 l2 i2 H1 H2 Hno1 Hno2 Heq.
      rewrite (Hstamp l1 i1), (Hstamp l2 i2) by done.
      by rewrite !lookup_insert_eq, Heq.
Qed.

Lemma send_logs_timestamps_witness :
  0 < batch_size example_client ∧
  ∃ result s',
    send_logs (world_replying (λ _, answer 204)) example_client [0%nat; 1%nat] initial
    = (Ok result, s') ∧
    heap s' 0%nat !! "timestamp" = heap s' 1%nat !! "timestamp".
Proof.
  split; [done|].
  destruct (send_logs_timestamps (world_replying (λ _, answer 204)) example_client
              [0%nat; 1%nat] initial ltac:(done))
    as (result & s' & Hrun & _ & _ & _ & Hsame & _).
  exists result, s'. split; [exact Hrun|].
  apply (Hsame 0%nat 0%nat 1%nat 1%nat).
  - split; [done|]. intros i' Hi'. lia.
  - split; [done|]. intros [|i'] Hi'; [done|lia].
  - intros [v Hv]. done.
  - intros [v Hv]. done.
  - done.
Defined.

(** ** The log forwarder: the returned dictionary *)

(** Claim C4, amended. On the empty list [send_logs] does nothing (no
    request, the state is unchanged) and returns the dictionary that only
    holds [sent = 0]. On a non-empty list, with a positive batch size, the
    dictionary holds [sent] and [total], [total] is the number of entries,
    and [errors] is there exactly when a batch failed. *)
Theorem send_logs_result w self entries s :
  (entries = [] → send_logs w self entries s = (Ok {[ "sent" := RInt 0 ]}, s)) ∧
  (entries ≠ [] → 0 < batch_size self →
   let n := Z.to_nat (ceil_div (Z.of_nat (length entries)) (batch_size self)) in
   ∃ result s',
     send_logs w self entries s = (Ok result, s') ∧
     result !! "sent"
     = Some (RInt (Z.of_nat (sent_count w self entries (heap s') (posts s) n))) ∧
     result !! "total" = Some (RInt (Z.of_nat (length entries))) ∧
     (is_Some (result !! "errors") ↔
      ∃ k, (k < n)%nat ∧
           post_failed (batch_outcome w self entries (heap s') (posts s) k) = true)).
Proof.
  split; [by intros ->|].
  intros Hne Hsize n.
  destruct (send_logs_run w self entries s Hsize Hne)
    as (s' & total_sent & errors & Hrun & Hinv).
  destruct Hinv as (_ & _ & _ & _ & Hacc & _ & _).
  injection Hacc as -> ->. fold (batch_count self entries) in n.
  eexists _, s'. split; [exact Hrun|].
  rewrite logs_result_sent, logs_result_total, logs_result_errors.
  split; [done|]. split; [done|].
  pose proof (error_strings_nil w self entries (heap s') (posts s) n) as Hnil.
  fold n. case_bool_decide as Herr.
  - split; [by intros [? ?]|].
    intros (k & Hk & Hf). destruct Hnil as [Hnil _].
    rewrite (Hnil Herr k Hk) in Hf. done.
  - split; [|by eexists]. intros _.
    unfold error_strings in Herr.
    destruct (omap _ _) as [|e l] eqn:E; [done|].
    assert (e ∈ e :: l) as He by left. rewrite <- E in He.
    apply list_elem_of_omap in He as (k & Hk%elem_of_seq & He).
    exists k. split; [lia|]. apply error_string_failed. by eexists.
Qed.

Lemma send_logs_result_witness :
  [0%nat] ≠ [] ∧ 0 < batch_size example_client ∧
  ∃ result s',
    send_logs (world_replying (λ _ _, Failed "timed out")) example_client [0%nat] initial
    = (Ok result, s') ∧
    result !! "total" = Some (RInt 1).
Proof.
  split; [done|]. split; [done|].
  destruct (send_logs_result (world_replying (λ _ _, Failed "timed out")) example_client
              [0%nat] initial) as [_ Hne].
  destruct (Hne ltac:(done) ltac:(done)) as (result & s' & Hrun & _ & Htotal & _).
  exists result, s'. split; [exact Hrun|exact Htotal].
Defined.

(** Claim C4 as stated fails on the empty list: the dictionary returned
    has no [total]. *)
Lemma send_logs_empty_no_total :
  ∃ result,
    send_logs (world_replying (λ _, answer 204)) example_client [] initial
    = (Ok result, initial) ∧
    result !! "sent" = Some (RInt 0) ∧
    result !! "total" = None.
Proof. by exists {[ "sent" := RInt 0 ]}. Qed.

(** ** The log forwarder: the entries are stamped in place *)




(** ** Running the steps of [lambda_handler] *)

Lemma bind_run_ok {A B} (m : M A) (f : A → M B) s a s1 :
  m s = (Ok a, s1) → (m ≫= f) s = f a s1.
Proof. intros H. unfold mbind, M_bind. by rewrite H. Qed.

Lemma bind_run_raise {A B} (m : M A) (f : A → M B) s e s1 :
  m s = (Raise e, s1) → (m ≫= f) s = (Raise e, s1).
Proof. intros H. unfold mbind, M_bind. by rewrite H. Qed.

Lemma bind_inv_ok {A B} (m : M A) (f : A → M B) s b s' :
  (m ≫= f) s = (Ok b, s') → ∃ a s1, m s = (Ok a, s1) ∧ f a s1 = (Ok b, s').
Proof.
  unfold mbind, M_bind. destruct (m s) as [[a|e] s1]; [|done]. eauto.
Qed.

Lemma lift_inv_ok {A} (r : res A) s a s' :
  lift r s = (Ok a, s') → r = Ok a ∧ s' = s.
Proof. unfold lift. by intros [= -> ->]. Qed.

Lemma get_secret_run w secret_arn s :
  get_secret w secret_arn s
  = (secret_value w secret_arn, add_event (SecretFetch secret_arn) s).
Proof.
  unfold secret_value, get_secret, secretsmanager_get, add_event.
  unfold mbind, M_bind, mret, M_ret, raise, lift.
  destruct (get_secret_value w secret_arn) as [[secret|]|e]; simpl; try done.
  destruct (json_loads w secret) as [v|msg]; simpl; try done.
  destruct (dict_get v "password" JNull) as [password|e]; simpl; try done.
  destruct (truthy password); simpl; try done.
  destruct (dict_get v "apiToken" JNull) as [apiToken|e]; simpl; done.
Qed.

Lemma get_long_running_queries_run w self s :
  get_long_running_queries w self s = (pg_stat_activity w self, add_event (DbQuery self) s).
Proof. done. Qed.

Lemma raise_for_status_run r s :
  raise_for_status r s =
  (if bool_decide (400 ≤ status_code r < 600)
   then Raise (HTTPError (http_error_message r) r) else Ok (), s).
Proof.
  unfold raise_for_status, http_error_message.
  destruct (decide (400 ≤ status_code r < 500)) as [H4|H4].
  - rewrite (bool_decide_eq_true_2 _ H4).
    rewrite (bool_decide_eq_true_2 (400 ≤ status_code r < 600)) by lia.
    by rewrite (bool_decide_eq_true_2 (status_code r < 500)) by lia.
  - rewrite (bool_decide_eq_false_2 _ H4).
    destruct (decide (500 ≤ status_code r < 600)) as [H5|H5].
    + rewrite (bool_decide_eq_true_2 _ H5).
      rewrite (bool_decide_eq_true_2 (400 ≤ status_code r < 600)) by lia.
      by rewrite (bool_decide_eq_false_2 (status_code r < 500)) by lia.
    + rewrite (bool_decide_eq_false_2 _ H5).
      by rewrite (bool_decide_eq_false_2 (400 ≤ status_code r < 600)) by lia.
Qed.

(** [send_metrics] on a rejected request: one POST, then the [HTTPError]. *)
Lemma send_metrics_rejected w self metrics s r :
  metrics ≠ [] →
  requests_post w (posts s) (metrics_request self metrics) = Responded r →
  400 ≤ status_code r < 600 →
  send_metrics w self metrics s
  = (Raise (HTTPError (http_error_message r) r),
     {| heap := heap s; next := next s;
        trace := (trace s ++ [HttpPost (metrics_request self metrics)])%list;
        posts := S (posts s); ticks := ticks s |}).
Proof.
  intros Hne Hpost Hstatus. unfold send_metrics.
  rewrite bool_decide_eq_false_2 by done.
  fold (metrics_request self metrics).
  unfold try_except, mbind, M_bind, post. rewrite Hpost.
  rewrite raise_for_status_run, bool_decide_eq_true_2 by done. done.
Qed.

(** [lambda_handler] always returns a result. *)
Lemma lambda_handler_returns w s :
  ∃ r s', lambda_handler w s = (Ok r, s') ∧ (statusCode r = 200 ∨ statusCode r = 500).
Proof.
  unfold lambda_handler, utcnow_read, try_except, mbind at 1, M_bind at 1.
  destruct (collect w _ _) as [[r|e] s'] eqn:Hc.
  - eexists _, _. split; [done|]. left.
    unfold collect in Hc.
    repeat (apply bind_inv_ok in Hc as (? & ? & _ & Hc)).
    by injection Hc as <- _.
  - eexists _, _. split; [done|]. by right.
Qed.

Lemma build_metrics_nonempty db_name hostname queries metrics :
  build_metrics db_name hostname queries = Ok metrics → metrics ≠ [].
Proof.
  unfold build_metrics. destruct (0 <? length queries)%nat.
  - unfold mbind, res_bind.
    destruct (py_max _); [|done]. destruct (int_truediv _ _); [|done].
    by intros [= <-].
  - by intros [= <-].
Qed.

(** The steps of the [try] block up to the list of metrics. *)
Lemma collect_prefix w start_time s config db_password dt_api_token queries metrics :
  get_config (environ w) = Ok config →
  secret_value w (aurora_password_secret_arn config) = Ok db_password →
  secret_value w (dt_api_token_secret_arn config) = Ok dt_api_token →
  pg_stat_activity w (collector_for config db_password) = Ok queries →
  build_metrics (aurora_database config) (before_dot (aurora_host config)) queries
  = Ok metrics →
  collect w start_time s =
  (metrics_result ←
     send_metrics w (metrics_client_init (dt_environment_url config) dt_api_token 30)
       metrics;
   _ ← (if (0 <? length queries)%nat then
          log_entries ← foldM (append_log_entry (aurora_database config)
                                 (before_dot (aurora_host config))) [] queries;
          logs_result ← send_logs w (logs_client_init (dt_environment_url config)
                                       dt_api_token 30 100) log_entries;
          mret ()
        else mret ());
   end_time ← utcnow_read w;
   mret {| statusCode := 200;
           body_of := Completed "Collection completed successfully" (length queries)
                        (length metrics) (length queries) (end_time - start_time) |})
    (add_event (DbQuery (collector_for config db_password))
       (add_event (SecretFetch (dt_api_token_secret_arn config))
          (add_event (SecretFetch (aurora_password_secret_arn config)) s))).
Proof.
  intros Hcfg Hpw Htok Hrows Hmetrics. unfold collect.
  rewrite (bind_run_ok _ _ s config s) by (unfold lift; by rewrite Hcfg).
  erewrite bind_run_ok by (rewrite get_secret_run, Hpw; reflexivity).
  erewrite bind_run_ok by (rewrite get_secret_run, Htok; reflexivity).
  fold (collector_for config db_password).
  erewrite bind_run_ok by (rewrite get_long_running_queries_run, Hrows; reflexivity).
  erewrite bind_run_ok by (unfold lift; rewrite Hmetrics; reflexivity).
  done.
Qed.

Lemma collect_inv_ok w start_time s r s' :
  collect w start_time s = (Ok r, s') →
  ∃ config db_password dt_api_token queries metrics t,
    get_config (environ w) = Ok config ∧
    secret_value w (aurora_password_secret_arn config) = Ok db_password ∧
    secret_value w (dt_api_token_secret_arn config) = Ok dt_api_token ∧
    pg_stat_activity w (collector_for config db_password) = Ok queries ∧
    build_metrics (aurora_database config) (before_dot (aurora_host config)) queries
    = Ok metrics ∧
    r = {| statusCode := 200;
           body_of := Completed "Collection completed successfully" (length queries)
                        (length metrics) (length queries) t |}.
Proof.
  intros Hc. unfold collect in Hc.
  apply bind_inv_ok in Hc as (config & s1 & [Hcfg ->]%lift_inv_ok & Hc).
  apply bind_inv_ok in Hc as (db_password & s2 & Hpw & Hc).
  rewrite get_secret_run in Hpw. injection Hpw as Hpw <-.
  apply bind_inv_ok in Hc as (dt_api_token & s3 & Htok & Hc).
  rewrite get_secret_run in Htok. injection Htok as Htok <-.
  apply bind_inv_ok in Hc as (queries & s4 & Hrows & Hc).
  rewrite get_long_running_queries_run in Hrows. injection Hrows as Hrows <-.
  apply bind_inv_ok in Hc as (metrics & s5 & [Hm ->]%lift_inv_ok & Hc).
  apply bind_inv_ok in Hc as (metrics_result & s6 & _ & Hc).
  apply bind_inv_ok in Hc as (? & s7 & _ & Hc).
  apply bind_inv_ok in Hc as (end_time & s8 & _ & Hc).
  injection Hc as <- _.
  by exists config, db_password, dt_api_token, queries, metrics, (end_time - start_time).
Qed.

(** ** The counts reported on success *)

(** Claim C9. When the invocation succeeds (status 200), the body reports
    the number of collected rows as [queries_found] and again as
    [logs_sent], and the number of metric lines built as [metrics_sent]:
    the three are fixed by the rows alone, the answers of the two
    endpoints play no part. *)
Theorem success_counts w r s' :
  lambda_handler w initial = (Ok r, s') →
  statusCode r = 200 →
  ∃ config db_password queries metrics t,
    get_config (environ w) = Ok config ∧
    secret_value w (aurora_password_secret_arn config) = Ok db_password ∧
    pg_stat_activity w (collector_for config db_password) = Ok queries ∧
    build_metrics (aurora_database config) (before_dot (aurora_host config)) queries
    = Ok metrics ∧
    body_of r = Completed "Collection completed successfully"
                  (length queries) (length metrics) (length queries) t.
Proof.
  intros Hrun Hstatus.
  unfold lambda_handler, utcnow_read, try_except, mbind at 1, M_bind at 1 in Hrun.
  destruct (collect w _ _) as [[r'|e] s1] eqn:Hc.
  - injection Hrun as -> ->.
    apply collect_inv_ok in Hc
      as (config & db_password & dt_api_token & queries & metrics & t
          & Hcfg & Hpw & Htok & Hrows & Hm & ->).
    by exists config, db_password, queries, metrics, t.
  - injection Hrun as <- _. done.
Qed.

(** Two successful invocations in worlds that agree on the environment, the
    secrets, the decoder and the rows report the same counts, whatever the
    two endpoints answered in either. *)
Lemma reported_counts_independent w1 w2 r1 r2 s1 s2 :
  environ w1 = environ w2 →
  (∀ arn, get_secret_value w1 arn = get_secret_value w2 arn) →
  (∀ text, json_loads w1 text = json_loads w2 text) →
  (∀ p, pg_stat_activity w1 p = pg_stat_activity w2 p) →
  lambda_handler w1 initial = (Ok r1, s1) → statusCode r1 = 200 →
  lambda_handler w2 initial = (Ok r2, s2) → statusCode r2 = 200 →
  ∃ queries_found metrics_sent logs_sent t1 t2,
    body_of r1 = Completed "Collection completed successfully"
                   queries_found metrics_sent logs_sent t1 ∧
    body_of r2 = Completed "Collection completed successfully"
                   queries_found metrics_sent logs_sent t2.
Proof.
  intros Henv Hsecrets Hloads Hrows Hrun1 Hst1 Hrun2 Hst2.
  assert (Hsv : ∀ arn, secret_value w1 arn = secret_value w2 arn).
  { intros arn. unfold secret_value, get_secret, secretsmanager_get.
    unfold mbind, M_bind. simpl. rewrite Hsecrets.
    destruct (get_secret_value w2 arn) as [[secret|]|e]; try done.
    by rewrite Hloads. }
  assert (Hinv : ∀ w r s', lambda_handler w initial = (Ok r, s') → statusCode r = 200 →
            ∃ s0 s1, collect w (utcnow w 0) s0 = (Ok r, s1)).
  { intros w r s' Hrun Hst.
    unfold lambda_handler, utcnow_read, try_except, mbind at 1, M_bind at 1 in Hrun.
    destruct (collect w _ _) as [[r'|e] s''] eqn:Hc.
    - injection Hrun as -> ->. eauto.
    - injection Hrun as <- _. done. }
  destruct (Hinv _ _ _ Hrun1 Hst1) as (? & ? & Hc1).
  destruct (Hinv _ _ _ Hrun2 Hst2) as (? & ? & Hc2).
  apply collect_inv_ok in Hc1
    as (config1 & pw1 & tok1 & queries1 & metrics1 & t1 & Hcfg1 & Hpw1 & _ & Hq1 & Hm1 & ->).
  apply collect_inv_ok in Hc2
    as (config2 & pw2 & tok2 & queries2 & metrics2 & t2 & Hcfg2 & Hpw2 & _ & Hq2 & Hm2 & ->).
  rewrite Henv, Hcfg2 in Hcfg1. injection Hcfg1 as <-.
  rewrite Hsv, Hpw2 in Hpw1. injection Hpw1 as <-.
  rewrite Hrows, Hq2 in Hq1. injection Hq1 as <-.
  rewrite Hm2 in Hm1. injection Hm1 as <-.
  by eexists _, _, _, _, _.
Qed.

(** Both rows are reported as sent although the only log batch failed. *)
Lemma success_counts_witness :
  ∃ s',
    lambda_handler (example_world example_environ example_rows logs_down) initial
    = (Ok {| statusCode := 200;
             body_of := Completed "Collection completed successfully" 2 4 2 2000 |}, s') ∧
    ∃ metrics,
      build_metrics "app" "db1" example_rows = Ok metrics ∧ length metrics = 4%nat.
Proof.
  destruct (lambda_handler (example_world example_environ example_rows logs_down) initial)
    as [r s'] eqn:Hrun.
  assert (Hr : r = Ok {| statusCode := 200;
                         body_of := Completed "Collection completed successfully"
                                      2 4 2 2000 |}).
  { apply (f_equal fst) in Hrun. simpl in Hrun. rewrite <- Hrun.
    vm_compute. reflexivity. }
  subst r. exists s'. split; [reflexivity|].
  destruct (success_counts _ _ _ Hrun eq_refl)
    as (config & db_password & queries & metrics & t & Hcfg & Hpw & Hrows & Hm & Hbody).
  injection Hrows as <-.
  assert (Hc : config = example_config).
  { vm_compute in Hcfg. by injection Hcfg as <-. }
  subst config. exists metrics. split; [exact Hm|].
  simpl in Hbody. by injection Hbody as <-.
Defined.

(** ** A rejected metrics request *)

(** Claim C6, amended to the statuses [raise_for_status] rejects. For a
    non-empty list of lines, a response with a status in 400..599 makes
    [send_metrics] raise the [HTTPError] after its single POST; in
    [lambda_handler] the error is not caught before the top level: the result
    is the status 500 with the message of the error, the POST is not
    repeated and nothing is sent to the logs endpoint. *)
Theorem metrics_rejection :
  (∀ w self metrics s r,
     metrics ≠ [] →
     requests_post w (posts s) (metrics_request self metrics) = Responded r →
     400 ≤ status_code r < 600 →
     ∃ s', send_metrics w self metrics s = (Raise (HTTPError (http_error_message r) r), s') ∧
           trace s' = (trace s ++ [HttpPost (metrics_request self metrics)])%list) ∧
  (∀ w config db_password dt_api_token queries metrics r,
     get_config (environ w) = Ok config →
     secret_value w (aurora_password_secret_arn config) = Ok db_password →
     secret_value w (dt_api_token_secret_arn config) = Ok dt_api_token →
     pg_stat_activity w (collector_for config db_password) = Ok queries →
     build_metrics (aurora_database config) (before_dot (aurora_host config)) queries
     = Ok metrics →
     requests_post w 0
       (metrics_request (metrics_client_init (dt_environment_url config) dt_api_token 30)
          metrics) = Responded r →
     400 ≤ status_code r < 600 →
     ∃ s', lambda_handler w initial
           = (Ok {| statusCode := 500; body_of := Errored (http_error_message r) |}, s') ∧
           trace s' =
           [ SecretFetch (aurora_password_secret_arn config);
             SecretFetch (dt_api_token_secret_arn config);
             DbQuery (collector_for config db_password);
             HttpPost (metrics_request
                         (metrics_client_init (dt_environment_url config) dt_api_token 30)
                         metrics) ]).
Proof.
  split.
  - intros w self metrics s r Hne Hpost Hstatus.
    rewrite (send_metrics_rejected w self metrics s r) by done.
    by eexists.
  - intros w config db_password dt_api_token queries metrics r
      Hcfg Hpw Htok Hrows Hm Hpost Hstatus.
    unfold lambda_handler, utcnow_read, try_except, mbind at 1, M_bind at 1.
    rewrite (collect_prefix w _ _ config db_password dt_api_token queries metrics)
      by done.
    erewrite bind_run_raise.
    2:{ apply send_metrics_rejected; [by eapply build_metrics_nonempty|done|done]. }
    eexists. split; [reflexivity|]. done.
Qed.

Lemma metrics_rejection_witness :
  ∃ s',
    lambda_handler (example_world example_environ example_rows (λ _, answer 403)) initial
    = (Ok {| statusCode := 500;
             body_of := Errored ("403 Client Error:  for url: "
                                 +:+ "https://abc.live.dynatrace.com/api/v2/metrics/ingest") |},
       s') ∧
    length (trace s') = 4%nat.
Proof.
  destruct metrics_rejection as [_ H].
  destruct (build_metrics "app" "db1" example_rows) as [metrics|e] eqn:Hm;
    [|by vm_compute in Hm].
  destruct (H (example_world example_environ example_rows (λ _, answer 403))
              example_config (JStr "value of arn:aws:secretsmanager:pw")
              (JStr "value of arn:aws:secretsmanager:token") example_rows metrics
              {| status_code := 403; reason := ""; text := "";
                 url := "https://abc.live.dynatrace.com/api/v2/metrics/ingest" |})
    as (s' & Hrun & Htrace).
  - vm_compute. reflexivity.
  - vm_compute. reflexivity.
  - vm_compute. reflexivity.
  - reflexivity.
  - exact Hm.
  - reflexivity.
  - simpl. lia.
  - exists s'. split; [exact Hrun|]. by rewrite Htrace.
Defined.

(** Claim C6 as stated fails on a response that is not 2xx and not an
    error either: the metrics endpoint answers 304 with an empty body,
    [send_metrics] returns the empty result instead of raising, and the
    invocation ends with the status 200. *)
Lemma metrics_304_is_success :
  (∃ s1,
     send_metrics (example_world example_environ [] (λ _, answer 304))
       (metrics_client_init "https://abc.live.dynatrace.com/" (JStr "token") 30)
       [ metric_line "count" "app" "db1" "0" ] initial
     = (Ok (JDict []), s1)) ∧
  (∃ s',
     lambda_handler (example_world example_environ [] (λ _, answer 304)) initial
     = (Ok {| statusCode := 200;
              body_of := Completed "Collection completed successfully" 0 1 0 1000 |}, s')).
Proof. split; eexists; vm_compute; reflexivity. Qed.

(** ** Missing configuration *)

Lemma string_app_cons c s t : String c s +:+ t = String c (s +:+ t).
Proof. done. Qed.

Lemma string_app_nil_r s : s +:+ "" = s.
Proof. induction s as [|c s IH]; [done|]. by rewrite string_app_cons, IH. Qed.

Lemma string_app_assoc s t u : (s +:+ t) +:+ u = s +:+ (t +:+ u).
Proof. induction s as [|c s IH]; [done|]. by rewrite !string_app_cons, IH. Qed.

Lemma names_join prefix sep (l : list string) name :
  name ∈ l → names (prefix +:+ join sep l) name.
Proof.
  revert prefix. induction l as [|x l IH]; intros prefix Hin;
    [by apply elem_of_nil in Hin|].
  apply elem_of_cons in Hin as [->|Hin].
  - destruct l as [|y l].
    + exists prefix, "". simpl. by rewrite string_app_nil_r.
    + exists prefix, (sep +:+ join sep (y :: l)). done.
  - destruct l as [|y l]; [by apply elem_of_nil in Hin|].
    destruct (IH (prefix +:+ x +:+ sep) Hin) as (before & after & Heq).
    exists before, after. rewrite <- Heq.
    change (join sep (x :: y :: l)) with (x +:+ sep +:+ join sep (y :: l)).
    by rewrite !string_app_assoc.
Qed.

(** [missing] lists the required variables that are unset or empty. *)
Lemma elem_of_missing env name :
  name ∈ missing env ↔ name ∈ required_names ∧ unset_or_empty (env !! name) = true.
Proof.
  unfold missing. rewrite list_elem_of_fmap. split.
  - intros ([name' v] & -> & Hin). apply list_elem_of_In, filter_In in Hin as [Hin Hv].
    simpl in *. unfold required in Hin. simpl in Hin.
    unfold required_names.
    repeat (destruct Hin as [[= <- <-]|Hin]; [split; [set_solver|done]|]).
    done.
  - intros [Hin Hv]. exists (name, env !! name). split; [done|].
    apply list_elem_of_In, filter_In. split; [|done].
    unfold required_names in Hin. unfold required.
    repeat (apply elem_of_cons in Hin as [->|Hin]; [simpl; tauto|]).
    by apply elem_of_nil in Hin.
Qed.

(** Claim C7, amended. When a required variable is unset or empty, the
    invocation ends with the status 500 and has done no I/O at all: no
    secret was fetched, the database was not queried, nothing was posted.
    When moreover the port and the threshold, if set, are integer literals,
    the message is the list of the missing variables and names each of
    them. *)
Theorem missing_configuration w :
  missing (environ w) ≠ [] →
  ∃ msg s',
    lambda_handler w initial
    = (Ok {| statusCode := 500; body_of := Errored msg |}, s') ∧
    trace s' = [] ∧
    (∀ port threshold,
       py_int (default "5432" (environ w !! "AURORA_PORT")) = Ok port →
       py_int (default "60" (environ w !! "THRESHOLD_SECONDS")) = Ok threshold →
       msg = "Missing required environment variables: " +:+ join ", " (missing (environ w)) ∧
       ∀ name, name ∈ required_names → unset_or_empty (environ w !! name) = true →
               names msg name).
Proof.
  intros Hmissing.
  unfold lambda_handler, utcnow_read, try_except, mbind at 1, M_bind at 1.
  unfold collect. unfold mbind at 1, M_bind at 1, lift at 1.
  destruct (get_config (environ w)) as [config|e] eqn:Hcfg.
  - exfalso. unfold get_config, mbind, res_bind in Hcfg.
    destruct (py_int _); [|done]. destruct (py_int _); [|done].
    by rewrite bool_decide_eq_false_2 in Hcfg.
  - exists (str_exn e). eexists. split; [reflexivity|]. split; [done|].
    intros port threshold Hport Hthreshold.
    unfold get_config, mbind, res_bind in Hcfg. rewrite Hport, Hthreshold in Hcfg.
    rewrite bool_decide_eq_false_2 in Hcfg by done. injection Hcfg as <-.
    split; [done|]. intros name Hin Hun. simpl.
    apply names_join, elem_of_missing. done.
Qed.

Lemma missing_configuration_witness :
  missing (environ (example_world (delete "AURORA_USER" example_environ) [] logs_down)) ≠ [] ∧
  ∃ s',
    lambda_handler (example_world (delete "AURORA_USER" example_environ) [] logs_down) initial
    = (Ok {| statusCode := 500;
             body_of := Errored "Missing required environment variables: AURORA_USER" |},
       s') ∧
    trace s' = [].
Proof.
  split; [by vm_compute|].
  destruct (missing_configuration
              (example_world (delete "AURORA_USER" example_environ) [] logs_down))
    as (msg & s' & Hrun & Htrace & Hmsg); [by vm_compute|].
  destruct (Hmsg 5432 60) as [-> _]; [by vm_compute|by vm_compute|].
  exists s'. split; [exact Hrun|exact Htrace].
Defined.

Lemma contains_char_app c s t :
  contains_char c (s +:+ t) = contains_char c s || contains_char c t.
Proof.
  induction s as [|c' s IH]; [done|].
  rewrite string_app_cons. simpl. rewrite IH. by rewrite orb_assoc.
Qed.

(** Claim C7 as stated fails when the port is not an integer literal:
    [int] raises while the configuration is built, before the required
    variables are looked at, and the message names none of them although all
    six are missing. *)
Lemma missing_not_named :
  missing (environ (example_world {[ "AURORA_PORT" := "abc" ]} [] logs_down))
  = required_names ∧
  ∃ msg s',
    lambda_handler (example_world {[ "AURORA_PORT" := "abc" ]} [] logs_down) initial
    = (Ok {| statusCode := 500; body_of := Errored msg |}, s') ∧
    msg = "invalid literal for int() with base 10: 'abc'" ∧
    ¬ names msg "AURORA_HOST".
Proof.
  split; [by vm_compute|].
  eexists _, _. split; [vm_compute; reflexivity|]. split; [reflexivity|].
  intros (before & after & Heq).
  apply (f_equal (contains_char "A")) in Heq.
  rewrite !contains_char_app in Heq. simpl in Heq.
  rewrite orb_true_r in Heq. vm_compute in Heq. done.
Qed.

(** ** Severity *)

(** Claim C5. The entry built for a query carries the severity ERROR when
    the duration exceeds 300 seconds and WARN when it lies between the
    threshold and 300 seconds. *)
Theorem log_entry_severity db_name hostname q :
  (300 < duration_seconds q →
   make_log_entry db_name hostname q !! "severity" = Some (VStr "ERROR")) ∧
  (∀ threshold, threshold < duration_seconds q ≤ 300 →
   make_log_entry db_name hostname q !! "severity" = Some (VStr "WARN")).
Proof.
  unfold make_log_entry.
  rewrite lookup_insert_ne, lookup_insert_ne, lookup_insert_eq by done.
  unfold severity. split.
  - intros H. by destruct (Z.ltb_spec 300 (duration_seconds q)); [|lia].
  - intros threshold H. by destruct (Z.ltb_spec 300 (duration_seconds q)); [lia|].
Qed.

Lemma log_entry_severity_witness :
  300 < 400 ∧ 60 < 120 ≤ 300 ∧
  (make_log_entry "app" "db1" <$> example_rows) !! 0%nat
    ≫= (.!! "severity") = Some (VStr "ERROR") ∧
  (make_log_entry "app" "db1" <$> example_rows) !! 1%nat
    ≫= (.!! "severity") = Some (VStr "WARN").
Proof.
  split; [lia|]. split; [lia|]. unfold example_rows. simpl. split.
  - apply log_entry_severity. simpl. lia.
  - apply (proj2 (log_entry_severity _ _ _) 60). simpl. lia.
Defined.

(** ** Integer division to a float and its two-decimal rendering *)

Lemma div_half_even_bound n d :
  0 < d → 2 * Z.abs (div_half_even n d * d - n) ≤ d.
Proof.
  intros Hd. unfold div_half_even.
  pose proof (Z.div_mod n d ltac:(lia)) as Hdm.
  pose proof (Z.mod_pos_bound n d Hd) as Hr.
  set (q := n / d) in *. set (r := n mod d) in *.
  destruct (Z.ltb_spec (2 * r) d); [nia|].
  destruct (Z.ltb_spec d (2 * r)); [nia|].
  destruct (Z.even q); nia.
Qed.

Lemma div_half_even_nonneg n d : 0 ≤ n → 0 < d → 0 ≤ div_half_even n d.
Proof.
  intros Hn Hd. unfold div_half_even.
  pose proof (Z.div_pos n d Hn Hd).
  repeat case_match; lia.
Qed.

Lemma div_half_even_0 d : 0 < d → div_half_even 0 d = 0.
Proof.
  intros Hd. unfold div_half_even. rewrite Z.div_0_l, Zmod_0_l by lia.
  by destruct (Z.ltb_spec (2 * 0) d); [|lia].
Qed.

(** [2 ^ log2_ratio a b ≤ a / b], without fractions. *)
Lemma log2_ratio_lower a b :
  0 < a → 0 < b →
  b * 2 ^ Z.max 0 (log2_ratio a b) ≤ a * 2 ^ Z.max 0 (- log2_ratio a b).
Proof.
  intros Ha Hb. unfold log2_ratio.
  destruct (Z.log2_spec a Ha) as [Hla _]. destruct (Z.log2_spec b Hb) as [_ Hlb].
  pose proof (Z.log2_nonneg a) as Hna. pose proof (Z.log2_nonneg b) as Hnb.
  set (la := Z.log2 a) in *. set (lb := Z.log2 b) in *.
  destruct (Z.leb_spec (b * 2 ^ Z.max 0 (la - lb)) (a * 2 ^ Z.max 0 (- (la - lb))))
    as [Hle|Hgt]; [done|].
  destruct (Z.le_gt_cases 1 (la - lb)) as [Hd|Hd].
  - rewrite (Z.max_r 0 (la - lb - 1)), (Z.max_l 0 (- (la - lb - 1))) by lia.
    rewrite Z.pow_0_r, Z.mul_1_r.
    assert (b * 2 ^ (la - lb - 1) < 2 ^ Z.succ lb * 2 ^ (la - lb - 1)) as Hlt.
    { apply Z.mul_lt_mono_pos_r; [apply Z.pow_pos_nonneg; lia|done]. }
    rewrite <- Z.pow_add_r in Hlt by lia.
    replace (Z.succ lb + (la - lb - 1)) with la in Hlt by lia. lia.
  - rewrite (Z.max_l 0 (la - lb - 1)), (Z.max_r 0 (- (la - lb - 1))) by lia.
    rewrite Z.pow_0_r, Z.mul_1_r.
    assert (2 ^ la * 2 ^ (- (la - lb - 1)) ≤ a * 2 ^ (- (la - lb - 1))) as Hle.
    { apply Z.mul_le_mono_nonneg_r; [apply Z.pow_nonneg; lia|done]. }
    rewrite <- Z.pow_add_r in Hle by lia.
    replace (la + - (la - lb - 1)) with (Z.succ lb) in Hle by lia. lia.
Qed.

(** The same bound at the exponent of the significand, [e = log2_ratio - 52]. *)
Lemma log2_ratio_lower_52 a b :
  0 < a → 0 < b →
  b * 2 ^ Z.max 0 (log2_ratio a b - 52) * 2 ^ 52
  ≤ a * 2 ^ Z.max 0 (- (log2_ratio a b - 52)).
Proof.
  intros Ha Hb. pose proof (log2_ratio_lower a b Ha Hb) as H.
  set (L := log2_ratio a b) in *.
  destruct (Z.le_gt_cases 52 L) as [H52|H52].
  - rewrite (Z.max_r 0 (L - 52)), (Z.max_l 0 (- (L - 52))) by lia.
    rewrite (Z.max_r 0 L), (Z.max_l 0 (- L)) in H by lia.
    rewrite <- Z.mul_assoc, <- Z.pow_add_r by lia.
    by replace (L - 52 + 52) with L by lia.
  - rewrite (Z.max_l 0 (L - 52)), (Z.max_r 0 (- (L - 52))) by lia.
    rewrite Z.pow_0_r, Z.mul_1_r.
    destruct (Z.le_gt_cases 0 L) as [H0|H0].
    + rewrite (Z.max_r 0 L), (Z.max_l 0 (- L)) in H by lia.
      rewrite Z.pow_0_r, Z.mul_1_r in H.
      replace (2 ^ 52) with (2 ^ L * 2 ^ (- (L - 52))).
      2:{ rewrite <- Z.pow_add_r by lia. f_equal. lia. }
      rewrite Z.mul_assoc.
      apply Z.mul_le_mono_nonneg_r; [apply Z.pow_nonneg; lia|done].
    + rewrite (Z.max_l 0 L), (Z.max_r 0 (- L)) in H by lia.
      rewrite Z.pow_0_r, Z.mul_1_r in H.
      replace (2 ^ (- (L - 52))) with (2 ^ (- L) * 2 ^ 52).
      2:{ rewrite <- Z.pow_add_r by lia. f_equal. lia. }
      rewrite Z.mul_assoc.
      apply Z.mul_le_mono_nonneg_r; [lia|done].
Qed.

(** The two roundings together. [m * 2 ^ e] is the float nearest to [A / b]
    (at the exponent [e0], renormalised when the significand reaches 2^53)
    and [c] its hundredths: [c / 100] is within half a hundredth of [A / b],
    up to the relative error 2^-53 of the float. *)
Lemma rendering_error A b e0 m e :
  1 ≤ A → 0 < b →
  (b * 2 ^ Z.max 0 e0 * 2 ^ 52 ≤ A * 2 ^ Z.max 0 (- e0) ∨ e0 = -1074) →
  (m, e) = (if div_half_even (A * 2 ^ Z.max 0 (- e0)) (b * 2 ^ Z.max 0 e0) =? 2 ^ 53
            then (2 ^ 52, e0 + 1)
            else (div_half_even (A * 2 ^ Z.max 0 (- e0)) (b * 2 ^ Z.max 0 e0), e0)) →
  0 ≤ m ∧
  0 ≤ div_half_even (100 * m * 2 ^ Z.max 0 e) (2 ^ Z.max 0 (- e)) ∧
  2 ^ 53 * Z.abs (div_half_even (100 * m * 2 ^ Z.max 0 e) (2 ^ Z.max 0 (- e)) * b - 100 * A)
  ≤ (2 ^ 52 + 1) * b + 100 * A.
Proof.
  intros HA Hb Hrange Hme.
  set (P := 2 ^ Z.max 0 e0) in *. set (Q := 2 ^ Z.max 0 (- e0)) in *.
  assert (HP : 0 < P) by (apply Z.pow_pos_nonneg; lia).
  assert (HQ : 0 < Q) by (apply Z.pow_pos_nonneg; lia).
  set (m0 := div_half_even (A * Q) (b * P)) in *.
  assert (Hm0 : 0 ≤ m0) by (apply div_half_even_nonneg; nia).
  pose proof (div_half_even_bound (A * Q) (b * P) ltac:(nia)) as H1. fold m0 in H1.
  set (P' := 2 ^ Z.max 0 e). set (Q' := 2 ^ Z.max 0 (- e)).
  assert (HP' : 0 < P') by (apply Z.pow_pos_nonneg; lia).
  assert (HQ' : 0 < Q') by (apply Z.pow_pos_nonneg; lia).
  assert (H3 : m * P' * Q = m0 * P * Q' ∧ 0 ≤ m).
  { destruct (Z.eqb_spec m0 (2 ^ 53)) as [E|E]; injection Hme as -> ->.
    - rewrite E. split; [|by apply Z.pow_nonneg].
      unfold P', Q', P, Q.
      destruct (Z.le_gt_cases 0 e0) as [He|He].
      + rewrite (Z.max_r 0 (e0 + 1)), (Z.max_l 0 (- (e0 + 1))) by lia.
        rewrite (Z.max_r 0 e0), (Z.max_l 0 (- e0)) by lia.
        rewrite Z.pow_add_r by lia.
        change (2 ^ 53) with (2 ^ 52 * 2). change (2 ^ 1) with 2. change (2 ^ 0) with 1.
        ring.
      + rewrite (Z.max_l 0 (e0 + 1)), (Z.max_r 0 (- (e0 + 1))) by lia.
        rewrite (Z.max_l 0 e0), (Z.max_r 0 (- e0)) by lia.
        replace (- e0) with (- (e0 + 1) + 1) by lia.
        rewrite Z.pow_add_r by lia.
        change (2 ^ 53) with (2 ^ 52 * 2). change (2 ^ 1) with 2. change (2 ^ 0) with 1.
        replace (- (e0 + 1) + 1 - 1) with (- (e0 + 1)) by lia.
        ring.
    - done. }
  destruct H3 as [H3 Hm].
  set (c := div_half_even (100 * m * P') Q').
  assert (Hc : 0 ≤ c) by (apply div_half_even_nonneg; nia).
  pose proof (div_half_even_bound (100 * m * P') Q' HQ') as H2. fold c in H2.
  split; [done|]. split; [done|].
  set (X := c * b - 100 * A).
  set (U := c * Q' - 100 * m * P') in *. set (W := m0 * (b * P) - A * Q) in *.
  assert (HE : 2 * X * Q * Q' = 2 * U * (b * Q) + 100 * Q' * (2 * W)).
  { unfold X, U, W.
    transitivity (2 * b * Q * (c * Q') - 200 * A * Q * Q'); [ring|].
    transitivity (2 * b * Q * (c * Q') - 200 * b * (m * P' * Q)
                  + 200 * b * (m0 * P * Q') - 200 * A * Q * Q'); [rewrite H3; ring|ring]. }
  assert (HU : - Q' ≤ 2 * U ≤ Q') by lia.
  assert (HW : - (b * P) ≤ 2 * W ≤ b * P) by lia.
  assert (Hstar : - (b * (Q + 100 * P)) ≤ 2 * X * Q ≤ b * (Q + 100 * P)).
  { assert (- (Q' * (b * (Q + 100 * P))) ≤ 2 * X * Q * Q' ≤ Q' * (b * (Q + 100 * P)))
      by (rewrite HE; nia).
    split; apply (Z.mul_le_mono_pos_r _ _ Q' HQ'); lia. }
  assert (H52 : 2 ^ 52 = 4503599627370496) by reflexivity.
  assert (H53 : 2 ^ 53 = 9007199254740992) by reflexivity.
  rewrite H52, H53 in *.
  assert (Hgoal : - ((4503599627370496 + 1) * b + 100 * A) * Q
                  ≤ 9007199254740992 * X * Q
                  ≤ ((4503599627370496 + 1) * b + 100 * A) * Q).
  { destruct Hrange as [Hnormal| ->].
    - nia.
    - assert (HPv : P = 1) by reflexivity.
      assert (HQv : 450359962737049600 ≤ Q) by (unfold Q; by vm_compute).
      rewrite HPv in *. nia. }
  assert (- ((4503599627370496 + 1) * b + 100 * A) ≤ 9007199254740992 * X
          ≤ (4503599627370496 + 1) * b + 100 * A).
  { split; apply (Z.mul_le_mono_pos_r _ _ Q HQ); lia. }
  lia.
Qed.

(** [format(a / b, ".2f")] for a positive [b]: the sign of [a], and the
    hundredths [c] of the quotient. *)
Lemma int_truediv_render a b f :
  0 < b → int_truediv a b = Ok f →
  ∃ c, 0 ≤ c ∧
       format_2f f = (if a <? 0 then "-" else "") +:+ pretty (c / 100) +:+ "."
                     +:+ two_digits (c mod 100) ∧
       2 ^ 53 * Z.abs (c * b - 100 * Z.abs a) ≤ (2 ^ 52 + 1) * b + 100 * Z.abs a.
Proof.
  intros Hb. unfold int_truediv.
  destruct (Z.eqb_spec b 0) as [|_]; [lia|].
  assert (Hs : xorb (a <? 0) (b <? 0) = (a <? 0)).
  { destruct (Z.ltb_spec b 0); [lia|]. by rewrite xorb_false_r. }
  rewrite Hs. clear Hs.
  destruct (Z.eqb_spec a 0) as [->|Ha].
  - intros [= <-]. exists 0. split; [done|]. split; [done|]. simpl. lia.
  - rewrite (Z.abs_eq b) by lia.
    set (e0 := Z.max (log2_ratio (Z.abs a) b - 52) (-1074)).
    set (m0 := div_half_even _ _).
    destruct (if m0 =? 2 ^ 53 then (2 ^ 52, e0 + 1) else (m0, e0)) as [m e] eqn:Hme.
    destruct (971 <? e); [done|].
    destruct (rendering_error (Z.abs a) b e0 m e) as (Hm & Hc & Hbound);
      [lia|lia| |by rewrite <- Hme|].
    { unfold e0.
      destruct (Z.le_gt_cases (-1074) (log2_ratio (Z.abs a) b - 52)) as [Hn|Hsub].
      - left. rewrite (Z.max_l (log2_ratio (Z.abs a) b - 52) (-1074)) by lia.
        apply log2_ratio_lower_52; lia.
      - right. lia. }
    destruct m as [|p|p]; [| |lia].
    + intros [= <-]. exists 0. split; [done|]. split; [done|].
      rewrite div_half_even_0 in Hbound by (apply Z.pow_pos_nonneg; lia). done.
    + intros [= <-]. eexists. split; [exact Hc|]. split; [|exact Hbound].
      unfold format_2f, cents. done.
Qed.

(** A quotient of at most 2^31 in absolute value does not overflow. *)
Lemma int_truediv_bounded a b :
  0 < b → Z.abs a ≤ 2 ^ 31 * b → ∃ f, int_truediv a b = Ok f.
Proof.
  intros Hb Hab. unfold int_truediv.
  destruct (Z.eqb_spec b 0) as [|_]; [lia|].
  destruct (Z.eqb_spec a 0) as [->|Ha]; [by eexists|].
  rewrite (Z.abs_eq b) by lia.
  pose proof (log2_ratio_lower (Z.abs a) b ltac:(lia) Hb) as HL.
  set (L := log2_ratio (Z.abs a) b) in *.
  assert (HL31 : L ≤ 31).
  { destruct (Z.le_gt_cases L 31) as [|Hgt]; [done|exfalso].
    rewrite (Z.max_r 0 L), (Z.max_l 0 (- L)) in HL by lia.
    rewrite Z.pow_0_r, Z.mul_1_r in HL.
    assert (2 ^ 32 ≤ 2 ^ L) by (apply Z.pow_le_mono_r; lia).
    assert (H31 : 2 ^ 31 = 2147483648) by reflexivity.
    assert (H32 : 2 ^ 32 = 4294967296) by reflexivity.
    rewrite H31 in *. rewrite H32 in *. nia. }
  set (e0 := Z.max (L - 52) (-1074)).
  set (m0 := div_half_even _ _).
  assert (He0 : e0 ≤ -21) by (unfold e0; lia).
  destruct (Z.eqb_spec m0 (2 ^ 53)).
  - destruct (Z.ltb_spec 971 (e0 + 1)); [lia|]. by eexists.
  - destruct (Z.ltb_spec 971 e0); [lia|]. destruct m0; by eexists.
Qed.

(** The float division agrees with the IEEE 754 division of the standard
    library's specification of binary64 on these operands ([a * 2 ^ ea] by
    [b * 2 ^ eb]), some of which give subnormal quotients. *)
Example int_truediv_is_SFdiv :
  Forall (λ '(a, ea, b, eb),
            int_truediv (a * 2 ^ ea) (b * 2 ^ eb)
            = Ok (SFdiv 53 1024 (binary_normalize 53 1024 a ea false)
                                (binary_normalize 53 1024 b eb false)))
    [ (520, 0, 2, 0); (1, 0, 3, 0); (2, 0, 3, 0); (-7, 0, 9, 0); (1005, 0, 1000, 0);
      (2147483647, 0, 7, 0); (1, 0, 2147483648, 0); (123456789, 0, 1000, 0);
      (9007199254740991, 0, 3, 0); (1, 0, 9007199254740991, 0);
      (1, 0, 1, 1023); (3, 0, 7, 1020); (1, 0, 9007199254740991, 970);
      (-5, 0, 3, 1022); (9007199254740991, 970, 3, 0); (7, 1000, 9, 0) ].
Proof. repeat constructor. Qed.

Example format_2f_examples :
  (λ '(a, b), match int_truediv a b with
              | Ok f => format_2f f
              | Raise e => str_exn e
              end) <$>
    [ (520, 2); (1, 3); (2, 3); (1, 8); (3, 8); (1005, 1000); (-1, 3); (-1, 1000); (0, 4) ]
  = [ "260.00"; "0.33"; "0.67"; "0.12"; "0.38"; "1.00"; "-0.33"; "-0.00"; "0.00" ].
Proof. reflexivity. Qed.

(** ** The derived metrics *)

Lemma py_sum_foldr l : py_sum l = foldr Z.add 0 l.
Proof.
  unfold py_sum.
  assert (∀ acc, fold_left Z.add l acc = acc + foldr Z.add 0 l) as H.
  { induction l as [|x l IH]; intros acc; simpl; [lia|]. rewrite IH. lia. }
  rewrite H. lia.
Qed.

Lemma py_max_spec x l :
  ∃ maximum, py_max (x :: l) = Ok maximum ∧
             maximum ∈ x :: l ∧ ∀ d, d ∈ x :: l → d ≤ maximum.
Proof.
  unfold py_max. eexists. split; [reflexivity|].
  revert x. induction l as [|y l IH]; intros x; simpl.
  - split; [by left|]. intros d ->%list_elem_of_singleton. lia.
  - destruct (IH (if x <? y then y else x)) as [Hin Hub]. split.
    + apply elem_of_cons in Hin as [Heq|Hin].
      * rewrite Heq. destruct (x <? y); [right; left|left].
      * by do 2 right.
    + intros d Hd.
      assert (x ≤ (if x <? y then y else x) ∧ y ≤ (if x <? y then y else x)) as [Hx Hy]
        by (destruct (Z.ltb_spec x y); lia).
      pose proof (Hub (if x <? y then y else x) ltac:(left)).
      apply elem_of_cons in Hd as [->|Hd]; [lia|].
      apply elem_of_cons in Hd as [->|Hd]; [lia|].
      apply Hub. by right.
Qed.

Lemma sum_int32_bound (l : list Z) :
  Forall (λ d, - 2 ^ 31 ≤ d < 2 ^ 31) l →
  Z.abs (foldr Z.add 0 l) ≤ 2 ^ 31 * Z.of_nat (length l).
Proof.
  induction 1 as [|d l Hd _ IH]; simpl; [lia|].
  assert (H31 : 2 ^ 31 = 2147483648) by reflexivity. rewrite H31 in *. lia.
Qed.

(** Claim C2. The durations are the 32-bit integers of the SELECT. For no
    row the metrics are the single line of the count, with the value 0. For
    [N > 0] rows they are four lines, in the order count, max, avg, total:
    the count is [N], the maximum is the largest duration, the total is their
    sum, and the average is written with two decimals, [c] hundredths,
    where [c / 100] is [total / N] rounded: it is within half a hundredth
    of the quotient, up to the relative error 2^-53 of the float division;
    it is a nearest number of hundredths as long as [100 * |total| + N] is
    below 2^52, and the quotient itself whenever that has at most two
    decimals. *)
Theorem derived_metrics db_name hostname queries :
  Forall (λ q, - 2 ^ 31 ≤ duration_seconds q < 2 ^ 31) queries →
  (queries = [] →
   build_metrics db_name hostname queries
   = Ok [ metric_line "count" db_name hostname "0" ]) ∧
  (queries ≠ [] →
   ∃ maximum c : Z,
     let durations := duration_seconds <$> queries in
     let total := foldr Z.add 0 durations in
     let N := Z.of_nat (length queries) in
     build_metrics db_name hostname queries
     = Ok [ metric_line "count" db_name hostname (pretty (length queries));
            metric_line "max_duration_seconds" db_name hostname (pretty maximum);
            metric_line "avg_duration_seconds" db_name hostname
              ((if total <? 0 then "-" else "") +:+ pretty (c / 100) +:+ "."
               +:+ two_digits (c mod 100));
            metric_line "total_duration_seconds" db_name hostname (pretty total) ] ∧
     maximum ∈ durations ∧
     (∀ d, d ∈ durations → d ≤ maximum) ∧
     0 ≤ c ∧
     2 ^ 53 * Z.abs (c * N - 100 * Z.abs total) ≤ (2 ^ 52 + 1) * N + 100 * Z.abs total ∧
     (100 * Z.abs total + N < 2 ^ 52 → 2 * Z.abs (c * N - 100 * Z.abs total) ≤ N) ∧
     (∀ k, 100 * Z.abs total = k * N → c = k)).
Proof.
  intros Hint. split; [by intros ->|].
  intros Hne. destruct queries as [|q queries]; [done|].
  unfold build_metrics.
  change (0 <? length (q :: queries))%nat with true. cbv iota.
  rewrite fmap_cons.
  destruct (py_max_spec (duration_seconds q) (duration_seconds <$> queries))
    as (maximum & Hmax & Hin & Hub).
  rewrite <- fmap_cons in *.
  set (durations := duration_seconds <$> q :: queries) in *.
  assert (Hsum : Z.abs (foldr Z.add 0 durations) ≤ 2 ^ 31 * Z.of_nat (length (q :: queries))).
  { unfold durations. rewrite <- (length_fmap duration_seconds).
    apply sum_int32_bound. by apply Forall_fmap. }
  set (N := Z.of_nat (length (q :: queries))) in *.
  assert (HN : 0 < N) by (unfold N; simpl; lia).
  rewrite py_sum_foldr. set (total := foldr Z.add 0 durations) in *.
  destruct (int_truediv_bounded total N HN Hsum) as [avg Havg].
  destruct (int_truediv_render total N avg HN Havg) as (c & Hc & Hfmt & Hbound).
  exists maximum, c. cbv zeta. fold durations. fold total. fold N.
  rewrite Hmax, Havg. unfold mbind, res_bind. rewrite Hfmt.
  split; [done|]. split; [done|]. split; [done|]. split; [done|]. split; [done|].
  assert (H31 : 2 ^ 31 = 2147483648) by reflexivity.
  assert (H52 : 2 ^ 52 = 4503599627370496) by reflexivity.
  assert (H53 : 2 ^ 53 = 9007199254740992) by reflexivity.
  rewrite H31 in *. rewrite H52, H53 in *.
  split; [lia|].
  intros k Hk.
  assert (Hk' : k ≤ 214748364800) by nia.
  assert (9007199254740992 * Z.abs (c - k) * N ≤ (4503599627370496 + 1 + k) * N).
  { replace (Z.abs (c - k) * N) with (Z.abs (c * N - 100 * Z.abs total)); [lia|].
    rewrite Hk. replace (c * N - k * N) with ((c - k) * N) by ring.
    rewrite Z.abs_mul, (Z.abs_eq N) by lia. done. }
  assert (9007199254740992 * Z.abs (c - k) ≤ 4503599627370496 + 1 + k).
  { apply (Z.mul_le_mono_pos_r _ _ N HN). lia. }
  lia.
Qed.

Lemma derived_metrics_witness :
  Forall (λ q, - 2 ^ 31 ≤ duration_seconds q < 2 ^ 31) example_rows ∧
  example_rows ≠ [] ∧
  ∃ c, build_metrics "app" "db1" example_rows
       = Ok [ "custom.db.long_queries.count,db.type=postgres,db.name=app,host=db1 2";
              "custom.db.long_queries.max_duration_seconds,db.type=postgres,db.name=app,host=db1 400";
              "custom.db.long_queries.avg_duration_seconds,db.type=postgres,db.name=app,host=db1 260.00";
              "custom.db.long_queries.total_duration_seconds,db.type=postgres,db.name=app,host=db1 520" ] ∧
       c = 26000.
Proof.
  assert (Hint : Forall (λ q, - 2 ^ 31 ≤ duration_seconds q < 2 ^ 31) example_rows).
  { repeat constructor; simpl; lia. }
  split; [exact Hint|]. split; [done|].
  destruct (derived_metrics "app" "db1" example_rows Hint) as [_ H].
  destruct (H ltac:(done)) as (maximum & c & Hrun & _ & _ & _ & _ & _ & Hexact).
  exists c. split; [by vm_compute|]. apply Hexact. by vm_compute.
Defined.

(** ** Secrets *)

(** A secret that is not JSON is returned as it is. *)
Lemma get_secret_not_json w secret_arn secret msg :
  get_secret_value w secret_arn = Ok (Some secret) →
  json_loads w secret = DecodeError msg →
  secret_value w secret_arn = Ok (JStr secret).
Proof.
  intros Hget Hload. unfold secret_value, get_secret, secretsmanager_get.
  unfold mbind, M_bind. simpl. by rewrite Hget, Hload.
Qed.

(** A secret that is a JSON object gives its [password] when that is there
    and true (for a string: not empty), else its [apiToken] under the same
    condition, else the string itself. *)
Lemma get_secret_object w secret_arn secret kvs :
  get_secret_value w secret_arn = Ok (Some secret) →
  json_loads w secret = Decoded (JDict kvs) →
  secret_value w secret_arn
  = Ok (py_or (default JNull (assoc_last "password" kvs))
              (py_or (default JNull (assoc_last "apiToken" kvs)) (JStr secret))).
Proof.
  intros Hget Hload. unfold secret_value, get_secret, secretsmanager_get.
  unfold mbind, M_bind. simpl. rewrite Hget, Hload. simpl.
  unfold py_or at 2. by destruct (truthy (default JNull (assoc_last "password" kvs))).
Qed.

(** Claim C8, where the code departs from it. A secret whose text is JSON
    but not a JSON object (a number, a quoted string, a list, [true],
    [null]) is not returned as the raw string: [get_secret] calls [get] on
    the decoded value and the [AttributeError] is raised. A password of
    digits only is the common case. *)
Theorem get_secret_json_scalar w secret_arn secret v :
  get_secret_value w secret_arn = Ok (Some secret) →
  json_loads w secret = Decoded v →
  (∀ kvs, v ≠ JDict kvs) →
  secret_value w secret_arn
  = Raise (AttributeError ("'" +:+ type_name v +:+ "' object has no attribute 'get'")).
Proof.
  intros Hget Hload Hv. unfold secret_value, get_secret, secretsmanager_get.
  unfold mbind, M_bind. simpl. rewrite Hget, Hload.
  destruct v; simpl; try done. by destruct (Hv kvs).
Qed.

Lemma get_secret_json_scalar_witness :
  get_secret_value numeric_secret_world "arn:aws:secretsmanager:pw" = Ok (Some "12345") ∧
  json_loads numeric_secret_world "12345" = Decoded (JInt 12345) ∧
  (∀ kvs, JInt 12345 ≠ JDict kvs) ∧
  secret_value numeric_secret_world "arn:aws:secretsmanager:pw"
  = Raise (AttributeError "'int' object has no attribute 'get'").
Proof.
  split; [reflexivity|]. split; [reflexivity|]. split; [done|].
  apply (get_secret_json_scalar numeric_secret_world "arn:aws:secretsmanager:pw"
           "12345" (JInt 12345)); done.
Defined.

(** The invocation then ends with the status 500 after the first fetch. *)
Example numeric_password_fails :
  ∃ s',
    lambda_handler numeric_secret_world initial
    = (Ok {| statusCode := 500;
             body_of := Errored "'int' object has no attribute 'get'" |}, s') ∧
    trace s' = [SecretFetch "arn:aws:secretsmanager:pw"].
Proof. eexists. split; vm_compute; reflexivity. Qed.

(** * Further properties *)

(** ** dynatrace/logs_client.py *)

Lemma concat_batches {A} (size n : nat) (l : list A) :
  concat (batch_of size l <$> seq 0 n) = take (n * size) l.
Proof.
  induction n as [|n IH]; [by rewrite take_0|].
  rewrite seq_S, fmap_app, concat_app, IH, take_succ_batch. simpl.
  by rewrite app_nil_r.
Qed.

Lemma length_batch_bounds {A} (size k : nat) (l : list A) :
  (0 < size)%nat → (k * size < length l)%nat →
  (1 ≤ length (batch_of size l k) ≤ size)%nat.
Proof.
  intros Hsize Hk. unfold batch_of. rewrite length_take, length_drop. lia.
Qed.

(** X1. A batch size that is not positive. With the batch size 0 and a
    non-empty list, [range] raises the [ValueError] before anything is
    stamped or sent; with a negative batch size the loop does not run:
    the call returns [sent = 0] and the full [total], without any request
    and without stamping any entry. *)
Theorem send_logs_nonpositive_batch_size w self entries s :
  entries ≠ [] →
  (batch_size self = 0 →
   send_logs w self entries s
   = (Raise (ValueError "range() arg 3 must not be zero"), s)) ∧
  (batch_size self < 0 →
   send_logs w self entries s
   = (Ok {[ "sent" := RInt 0; "total" := RInt (Z.of_nat (length entries)) ]}, s)).
Proof.
  intros Hne. unfold send_logs. rewrite bool_decide_eq_false_2 by done. split.
  - intros ->. done.
  - intros Hneg. unfold py_range.
    destruct (Z.eqb_spec (batch_size self) 0); [lia|].
    destruct (Z.ltb_spec 0 (batch_size self)); [lia|].
    replace (Z.to_nat (0 - Z.of_nat (length entries))) with 0%nat by lia.
    done.
Qed.

Lemma send_logs_nonpositive_batch_size_witness :
  [0%nat] ≠ [] ∧
  batch_size (logs_client_init "https://abc.live.dynatrace.com" JNull 30 (-5)) < 0 ∧
  send_logs (world_replying (λ _, answer 204))
    (logs_client_init "https://abc.live.dynatrace.com" JNull 30 (-5)) [0%nat] initial
  = (Ok {[ "sent" := RInt 0; "total" := RInt 1 ]}, initial).
Proof.
  split; [done|]. split; [done|].
  apply (send_logs_nonpositive_batch_size (world_replying (λ _, answer 204))
           (logs_client_init "https://abc.live.dynatrace.com" JNull 30 (-5))
           [0%nat] initial); done.
Defined.

Lemma payloads_of_batches self (entries : list loc) (h : loc → entry) n :
  concat (payload_entries <$> (batch_request self entries h <$> seq 0 n))
  = h <$> take (n * Z.to_nat (batch_size self)) entries.
Proof.
  induction n as [|n IH]; [by rewrite take_0|].
  rewrite seq_S, !fmap_app, concat_app, IH, take_succ_batch, fmap_app. simpl.
  by rewrite app_nil_r.
Qed.

(** X2. With a positive batch size, the requests of [send_logs] carry the
    entries of the list, each one once and in the order of the list: the
    payloads put end to end are the list itself (as the entries are after
    the call). Every request goes to the ingest URL with the JSON content
    type and carries at least one entry and at most [batch_size]. *)
Theorem send_logs_partition w self entries s :
  0 < batch_size self →
  ∃ result s' requests,
    send_logs w self entries s = (Ok result, s') ∧
    trace s' = (trace s ++ (HttpPost <$> requests))%list ∧
    concat (payload_entries <$> requests) = heap s' <$> entries ∧
    Forall (λ rq, req_url rq = ingest_url self ∧
                  req_content_type rq = "application/json; charset=utf-8" ∧
                  1 ≤ Z.of_nat (length (payload_entries rq)) ≤ batch_size self)
           requests.
Proof.
  intros Hsize. destruct (decide (entries = [])) as [->|Hne].
  - exists {[ "sent" := RInt 0 ]}, s, []. rewrite send_logs_nil. simpl.
    by rewrite app_nil_r.
  - destruct (send_logs_run w self entries s Hsize Hne)
      as (s' & total_sent & errors & Hrun & Hinv).
    destruct Hinv as (_ & _ & _ & Htrace & _ & _ & _).
    eexists _, s', _. split; [exact Hrun|]. split; [exact Htrace|].
    destruct (batch_count_cover self entries Hsize) as [Hcover Hlast].
    split.
    + rewrite payloads_of_batches. by rewrite take_ge.
    + apply Forall_fmap, list.Forall_forall. intros k Hk%elem_of_seq.
      unfold compose, batch_request, logs_request, payload_entries. simpl.
      split; [done|]. split; [done|]. rewrite length_fmap.
      cbv zeta in Hlast. fold (batch_count self entries) in Hk.
      assert (k * Z.to_nat (batch_size self) < length entries)%nat as Hlt by nia.
      pose proof (length_batch_bounds (Z.to_nat (batch_size self)) k entries
                    ltac:(lia) Hlt) as Hb.
      lia.
Qed.

Lemma send_logs_partition_witness :
  0 < batch_size example_client ∧
  ∃ result s' requests,
    send_logs (world_replying (λ _, answer 500)) example_client [0%nat; 1%nat; 0%nat] initial
    = (Ok result, s') ∧
    trace s' = HttpPost <$> requests ∧
    length (concat (payload_entries <$> requests)) = 3%nat.
Proof.
  split; [done|].
  destruct (send_logs_partition (world_replying (λ _, answer 500)) example_client
              [0%nat; 1%nat; 0%nat] initial ltac:(done))
    as (result & s' & requests & Hrun & Htrace & Hconcat & _).
  exists result, s', requests. split; [exact Hrun|]. split; [exact Htrace|].
  by rewrite Hconcat.
Defined.

Lemma sent_count_spec w self (entries : list loc) h p0 n :
  0 < batch_size self →
  (n * Z.to_nat (batch_size self) < length entries + Z.to_nat (batch_size self))%nat →
  (sent_count w self entries h p0 n
   ≤ length (take (n * Z.to_nat (batch_size self)) entries))%nat ∧
  (sent_count w self entries h p0 n
   = length (take (n * Z.to_nat (batch_size self)) entries) ↔
   ∀ k, (k < n)%nat → post_failed (batch_outcome w self entries h p0 k) = false).
Proof.
  intros Hsize. unfold sent_count.
  induction n as [|n IH]; intros Hn.
  - rewrite take_0. simpl. split; [lia|]. split; [intros _ k Hk; lia|done].
  - destruct IH as [IHle IHeq]; [lia|].
    rewrite seq_S, sum_list_with_app, take_succ_batch, length_app. simpl.
    pose proof (length_batch_bounds (Z.to_nat (batch_size self)) n entries
                  ltac:(lia) ltac:(lia)) as Hb.
    destruct (post_failed (batch_outcome w self entries h p0 n)) eqn:Hf.
    + split; [lia|]. split; [lia|]. intros Hall. by rewrite Hall in Hf by lia.
    + split; [lia|]. split.
      * intros Heq k Hk. destruct (decide (k = n)) as [->|Hne]; [done|].
        apply IHeq; lia.
      * intros Hall. rewrite (proj2 IHeq); [lia|]. intros k Hk. apply Hall. lia.
Qed.

(** X3. With a positive batch size and a non-empty list, [sent] never
    exceeds [total], and the two are equal exactly when the result has no
    [errors]: a caller can tell a complete delivery by [sent == total]. *)
Theorem send_logs_sent_total w self entries s :
  0 < batch_size self → entries ≠ [] →
  ∃ result s' (sent : nat),
    send_logs w self entries s = (Ok result, s') ∧
    result !! "sent" = Some (RInt (Z.of_nat sent)) ∧
    result !! "total" = Some (RInt (Z.of_nat (length entries))) ∧
    (sent ≤ length entries)%nat ∧
    (sent = length entries ↔ result !! "errors" = None).
Proof.
  intros Hsize Hne.
  destruct (send_logs_run w self entries s Hsize Hne)
    as (s' & total_sent & errors & Hrun & Hinv).
  destruct Hinv as (_ & _ & _ & _ & Hacc & _ & _). injection Hacc as -> ->.
  eexists _, s', _. split; [exact Hrun|].
  rewrite logs_result_sent, logs_result_total, logs_result_errors.
  split; [done|]. split; [done|].
  destruct (batch_count_cover self entries Hsize) as [Hcover Hlast].
  destruct (sent_count_spec w self entries (heap s') (posts s) (batch_count self entries)
              Hsize Hlast) as [Hle Heq].
  rewrite take_ge in Hle, Heq by done.
  split; [done|]. rewrite Heq, <- error_strings_nil.
  case_bool_decide; split; done.
Qed.

Lemma send_logs_sent_total_witness :
  0 < batch_size example_client ∧ [0%nat; 1%nat] ≠ [] ∧
  ∃ result s' (sent : nat),
    send_logs (world_replying (λ _ _, Failed "timed out")) example_client
      [0%nat; 1%nat] initial
    = (Ok result, s') ∧
    result !! "sent" = Some (RInt (Z.of_nat sent)) ∧
    result !! "total" = Some (RInt 2) ∧
    (sent ≤ 2)%nat.
Proof.
  split; [done|]. split; [done|].
  destruct (send_logs_sent_total (world_replying (λ _ _, Failed "timed out"))
              example_client [0%nat; 1%nat] initial ltac:(done) ltac:(done))
    as (result & s' & sent & Hrun & Hsent & Htotal & Hle & Hiff).
  exists result, s', sent. split; [exact Hrun|]. split; [exact Hsent|].
  split; [exact Htotal|exact Hle].
Defined.

(** X4. Sending the same list a second time (a retry, by any client with a
    positive batch size) leaves every entry as the first call left it: the
    timestamps of the first call are kept, and the second call sends the
    entries with them. *)
Theorem send_logs_twice w1 w2 self1 self2 entries s :
  0 < batch_size self1 → 0 < batch_size self2 →
  ∃ result1 s1 result2 s2 requests,
    send_logs w1 self1 entries s = (Ok result1, s1) ∧
    send_logs w2 self2 entries s1 = (Ok result2, s2) ∧
    (∀ l, heap s2 l = heap s1 l) ∧
    trace s2 = (trace s1 ++ (HttpPost <$> requests))%list ∧
    concat (payload_entries <$> requests) = heap s1 <$> entries.
Proof.
  intros Hsize1 Hsize2. destruct (decide (entries = [])) as [->|Hne].
  - exists {[ "sent" := RInt 0 ]}, s, {[ "sent" := RInt 0 ]}, s, [].
    rewrite send_logs_nil. simpl. by rewrite app_nil_r.
  - destruct (send_logs_run w1 self1 entries s Hsize1 Hne)
      as (s1 & sent1 & errors1 & Hrun1 & Hinv1).
    destruct Hinv1 as (_ & _ & _ & _ & _ & Hhas1 & _).
    rewrite take_batch_count in Hhas1 by done.
    destruct (send_logs_run w2 self2 entries s1 Hsize2 Hne)
      as (s2 & sent2 & errors2 & Hrun2 & Hinv2).
    destruct Hinv2 as (_ & _ & _ & Htrace2 & _ & _ & Hstamped2).
    unfold stamped_upto in Hstamped2. rewrite take_batch_count in Hstamped2 by done.
    assert (Hsame : ∀ l, heap s2 l = heap s1 l).
    { intros l. destruct (Hstamped2 l) as (Hkeep & Hout & _).
      destruct (decide (l ∈ entries)) as [Hin|Hnin]; [apply Hkeep; auto|by apply Hout]. }
    eexists _, s1, _, s2, _. split; [exact Hrun1|]. split; [exact Hrun2|].
    split; [exact Hsame|]. split; [exact Htrace2|].
    rewrite payloads_of_batches, take_batch_count by done.
    apply list_fmap_ext. intros i l _. apply Hsame.
Qed.

Lemma send_logs_twice_witness :
  0 < batch_size example_client ∧
  ∃ result1 s1 result2 s2,
    send_logs (world_replying (λ _, answer 503)) example_client [0%nat] initial
    = (Ok result1, s1) ∧
    send_logs (world_replying (λ _, answer 204)) example_client [0%nat] s1
    = (Ok result2, s2) ∧
    heap s2 0%nat = heap s1 0%nat.
Proof.
  split; [done|].
  destruct (send_logs_twice (world_replying (λ _, answer 503))
              (world_replying (λ _, answer 204)) example_client example_client
              [0%nat] initial ltac:(done) ltac:(done))
    as (r1 & s1 & r2 & s2 & rqs & Hrun1 & Hrun2 & Hsame & _).
  exists r1, s1, r2, s2. split; [exact Hrun1|]. split; [exact Hrun2|apply Hsame].
Defined.

Lemma ceil_div_one size : 0 < size → ceil_div 1 size = 1.
Proof.
  intros Hsize. unfold ceil_div. replace (1 + size - 1) with size by lia.
  by rewrite Z.div_same by lia.
Qed.

Lemma batch_of_singleton {A} (size : nat) (x : A) :
  (0 < size)%nat → batch_of size [x] 0 = [x].
Proof.
  intros H. unfold batch_of. rewrite Nat.mul_0_l, drop_0. apply take_ge. simpl. lia.
Qed.

(** [send_logs] on a list of one entry, as a function of the state. *)
Lemma send_logs_singleton w self (l : loc) s :
  0 < batch_size self →
  let h' := stamp_heap (time_ms w (ticks s)) (heap s) l in
  let rq := logs_request self [h' l] in
  let o := requests_post w (posts s) rq in
  send_logs w self [l] s
  = (Ok (logs_result (if post_failed o then 0 else 1) 1 (option_list (error_string o))),
     {| heap := h'; next := next s; trace := (trace s ++ [HttpPost rq])%list;
        posts := S (posts s); ticks := S (ticks s) |}).
Proof.
  intros Hsize h' rq o. unfold send_logs.
  rewrite bool_decide_eq_false_2 by done.
  rewrite py_range_pos by done.
  change (Z.of_nat (length [l])) with 1. rewrite ceil_div_one by done.
  change (Z.to_nat 1) with 1%nat.
  change ((λ k : nat, Z.of_nat k * batch_size self) <$> seq 0 1)
    with [Z.of_nat 0 * batch_size self].
  unfold mbind at 1, M_bind at 1, lift at 1. cbv beta iota.
  unfold mbind at 1, M_bind at 1. unfold foldM. unfold mbind at 1, M_bind at 1.
  rewrite send_batch_run by (simpl; lia || done).
  rewrite batch_of_singleton by lia.
  change (stamp_all (time_ms w (ticks s)) (heap s) [l]) with h'.
  change (h' <$> [l]) with [h' l]. fold rq. fold o.
  unfold mret, M_ret, logs_result. cbv beta iota. simpl.
  destruct (post_failed o); reflexivity.
Qed.

Lemma bound_twice_none attributes name :
  bound_twice attributes = None → name ∈ send_log_parameters →
  name ∉ attributes.*1.
Proof.
  unfold bound_twice. intros Hfind Hname Hin.
  destruct (List.find _ attributes) as [kv|] eqn:E; [done|].
  apply list_elem_of_fmap in Hin as ([k v] & -> & Hin).
  apply list_elem_of_In in Hin.
  pose proof (find_none _ _ E _ Hin) as Hnone. simpl in Hnone.
  by rewrite bool_decide_eq_true_2 in Hnone.
Qed.

Lemma bound_twice_some attributes name :
  bound_twice attributes = Some name →
  name ∈ send_log_parameters ∧ name ∈ attributes.*1.
Proof.
  unfold bound_twice. intros Hfind.
  destruct (List.find _ attributes) as [[k v]|] eqn:E; [|done].
  injection Hfind as <-. apply find_some in E as [Hin Hk]. simpl in *.
  split; [by apply bool_decide_eq_true_1 in Hk|].
  apply list_elem_of_fmap. exists (k, v). split; [done|]. by apply list_elem_of_In.
Qed.

(** The keys of a display are set from left to right. *)
Lemma display_lookup_notin (base : entry) (attributes : list (string * value)) k :
  k ∉ attributes.*1 →
  foldl (λ e kv, <[kv.1 := kv.2]> e) base attributes !! k = base !! k.
Proof.
  revert base. induction attributes as [|[k' v'] attributes IH]; intros base Hk; [done|].
  simpl in *. apply not_elem_of_cons in Hk as [Hne Hk].
  rewrite IH by done. by rewrite lookup_insert_ne.
Qed.

Lemma display_lookup_in (base : entry) (attributes : list (string * value)) k v :
  NoDup attributes.*1 → (k, v) ∈ attributes →
  foldl (λ e kv, <[kv.1 := kv.2]> e) base attributes !! k = Some v.
Proof.
  revert base. induction attributes as [|[k' v'] attributes IH]; intros base Hnd Hin.
  - by apply elem_of_nil in Hin.
  - simpl in *. apply list.NoDup_cons in Hnd as [Hk' Hnd].
    apply elem_of_cons in Hin as [[= <- <-]|Hin].
    + rewrite display_lookup_notin by done. by rewrite lookup_insert_eq.
    + by apply IH.
Qed.

(** X5. [send_log], called with the content, the severity and the
    attributes as keywords. A keyword named [self], [content] or [severity]
    makes the call raise a [TypeError] naming the first such keyword, before
    any dictionary is built or any request is made. Otherwise the call
    creates one new dictionary that holds the content and the severity it
    was given and every attribute, and sends it alone: with a positive batch
    size there is exactly one request, its payload is that entry (with the
    clock reading as timestamp unless the attributes bring one), the result
    has [total = 1], and [sent] is 1 or 0 as the request succeeded or not;
    no other object is changed. *)
Theorem send_log_single w self content severity attributes s :
  (∀ name,
     bound_twice attributes = Some name →
     name ∈ send_log_parameters ∧ name ∈ attributes.*1 ∧
     send_log w self content severity attributes s
     = (Raise (TypeError ("DynatraceLogsClient.send_log() got multiple values for argument '"
                          +:+ name +:+ "'")), s)) ∧
  ((∀ name, name ∈ send_log_parameters → name ∉ attributes.*1) →
   bound_twice attributes = None) ∧
  (0 < batch_size self →
   bound_twice attributes = None →
   let built := log_entry_display content severity attributes in
   let entry := stamped (time_ms w (ticks s)) built in
   let outcome := requests_post w (posts s) (logs_request self [entry]) in
   built !! "content" = Some (VStr content) ∧
   built !! "severity" = Some (VStr severity) ∧
   (NoDup attributes.*1 → ∀ k v, (k, v) ∈ attributes → built !! k = Some v) ∧
   (∀ k, built !! k ≠ None → k = "content" ∨ k = "severity" ∨ k ∈ attributes.*1) ∧
   ∃ s',
     send_log w self content severity attributes s
     = (Ok (logs_result (if post_failed outcome then 0 else 1) 1
              (option_list (error_string outcome))), s') ∧
     trace s' = (trace s ++ [HttpPost (logs_request self [entry])])%list ∧
     heap s' (next s) = entry ∧
     (∀ l, l ≠ next s → heap s' l = heap s l) ∧
     next s' = S (next s)).
Proof.
  split; [|split].
  - intros name Hname. destruct (bound_twice_some _ _ Hname) as [Hp Hin].
    split; [done|]. split; [done|]. unfold send_log. by rewrite Hname.
  - intros Hnone. destruct (bound_twice attributes) as [name|] eqn:E; [|done].
    destruct (bound_twice_some _ _ E) as [Hp Hin]. by destruct (Hnone name Hp).
  - intros Hsize Hnone built entry outcome.
    assert (Hcontent : built !! "content" = Some (VStr content)).
    { unfold built, log_entry_display. rewrite display_lookup_notin.
      - by rewrite lookup_insert_ne, lookup_insert_eq.
      - apply (bound_twice_none _ _ Hnone). unfold send_log_parameters.
        repeat constructor. }
    assert (Hseverity : built !! "severity" = Some (VStr severity)).
    { unfold built, log_entry_display. rewrite display_lookup_notin.
      - by rewrite lookup_insert_eq.
      - apply (bound_twice_none _ _ Hnone). unfold send_log_parameters.
        repeat constructor. }
    split; [exact Hcontent|]. split; [exact Hseverity|].
    split; [|split].
    { intros Hnd k v Hin. by apply display_lookup_in. }
    { intros k Hk. destruct (decide (k ∈ attributes.*1)) as [Hin|Hnotin]; [auto|].
      unfold built, log_entry_display in Hk. rewrite display_lookup_notin in Hk by done.
      destruct (decide (k = "severity")) as [->|Hs]; [auto|].
      destruct (decide (k = "content")) as [->|Hc]; [auto|].
      by rewrite !lookup_insert_ne, lookup_empty in Hk. }
    unfold send_log. rewrite Hnone.
    unfold mbind at 1, M_bind at 1, alloc at 1. cbv beta iota.
    rewrite send_logs_singleton by done. cbn [heap next trace posts ticks].
    fold built.
    assert (Hheap : stamp_heap (time_ms w (ticks s)) (<[next s := built]> (heap s)) (next s)
                      (next s) = entry).
    { unfold stamp_heap. rewrite fn_lookup_insert.
      unfold entry, stamped. destruct (built !! "timestamp"); by rewrite fn_lookup_insert. }
    assert (Hother : ∀ l, l ≠ next s →
              stamp_heap (time_ms w (ticks s)) (<[next s := built]> (heap s)) (next s) l
              = heap s l).
    { intros l Hl. unfold stamp_heap. rewrite fn_lookup_insert.
      destruct (built !! "timestamp"); by rewrite !fn_lookup_insert_ne. }
    rewrite Hheap. fold outcome.
    eexists. split; [reflexivity|]. cbn [heap next trace posts ticks]. done.
Qed.

Lemma send_log_single_witness :
  0 < batch_size example_client ∧
  bound_twice [("host", VStr "db1")] = None ∧
  (∃ s',
     send_log (world_replying (λ _, answer 204)) example_client "disk full" "ERROR"
       [("host", VStr "db1")] initial
     = (Ok {[ "sent" := RInt 1; "total" := RInt 1 ]}, s') ∧
     heap s' 0%nat !! "content" = Some (VStr "disk full") ∧
     heap s' 0%nat !! "host" = Some (VStr "db1")) ∧
  send_log (world_replying (λ _, answer 204)) example_client "disk full" "ERROR"
    [("host", VStr "db1"); ("content", VStr "other")] initial
  = (Raise (TypeError
              "DynatraceLogsClient.send_log() got multiple values for argument 'content'"),
     initial).
Proof.
  split; [done|]. split; [reflexivity|]. split.
  - destruct (send_log_single (world_replying (λ _, answer 204)) example_client
                "disk full" "ERROR" [("host", VStr "db1")] initial)
      as (_ & _ & Hsent).
    destruct (Hsent ltac:(done) eq_refl) as (_ & _ & _ & _ & s' & Hrun & _ & Hheap & _).
    exists s'. split; [exact Hrun|].
    change (next initial) with 0%nat in Hheap. rewrite Hheap. split; reflexivity.
  - destruct (send_log_single (world_replying (λ _, answer 204)) example_client
                "disk full" "ERROR" [("host", VStr "db1"); ("content", VStr "other")]
                initial) as (Hraise & _).
    destruct (Hraise "content" eq_refl) as (_ & _ & Hrun). exact Hrun.
Defined.

(** ** The URLs of the two clients *)

Lemma rstrip_slash_app_slash s : rstrip_slash (s +:+ "/") = rstrip_slash s.
Proof.
  induction s as [|c s IH]; [done|].
  rewrite string_app_cons. simpl. by rewrite IH.
Qed.

Lemma rstrip_slash_slashes s n : rstrip_slash (s +:+ slashes n) = rstrip_slash s.
Proof.
  revert s. induction n as [|n IH]; intros s; simpl.
  - by rewrite string_app_nil_r.
  - change (String "/" (slashes n)) with ("/" +:+ slashes n).
    rewrite <- string_app_assoc, IH. apply rstrip_slash_app_slash.
Qed.

Lemma rstrip_slash_no_slash s : ¬ ends_with "/" (rstrip_slash s).
Proof.
  induction s as [|c s IH]; intros [t Ht].
  - by destruct t.
  - simpl in Ht. destruct (rstrip_slash s) as [|a r] eqn:E.
    + destruct (Ascii.eqb_spec c "/") as [->|Hc].
      * by destruct t.
      * destruct t as [|c' t]; [by injection Ht as ->|].
        rewrite string_app_cons in Ht. injection Ht as _ Ht. by destruct t.
    + destruct t as [|c' t]; [done|].
      rewrite string_app_cons in Ht. injection Ht as _ Ht.
      apply IH. by exists t.
Qed.

Lemma rstrip_slash_decompose s : ∃ n, s = rstrip_slash s +:+ slashes n.
Proof.
  induction s as [|c s [n IH]]; [by exists 0%nat|].
  simpl. destruct (rstrip_slash s) as [|a r] eqn:E.
  - destruct (Ascii.eqb_spec c "/") as [->|Hc].
    + exists (S n). change (String "/" s = String "/" (slashes n)). f_equal. exact IH.
    + exists n. rewrite string_app_cons. f_equal. exact IH.
  - exists n. rewrite string_app_cons. f_equal. exact IH.
Qed.

(** X6. The URLs the two clients post to. The base URL is the environment
    URL without its trailing slashes (all of them, and nothing else), so an
    environment URL written with or without trailing slashes gives the same
    ingest URLs, and these never hold a doubled slash before [api]. *)
Theorem client_urls environment_url token timeout size :
  let logs := logs_client_init environment_url token timeout size in
  let metrics := metrics_client_init environment_url token timeout in
  base_url logs = m_base_url metrics ∧
  (∃ n, environment_url = base_url logs +:+ slashes n) ∧
  ¬ ends_with "/" (base_url logs) ∧
  ingest_url logs = base_url logs +:+ "/api/v2/logs/ingest" ∧
  m_ingest_url metrics = base_url logs +:+ "/api/v2/metrics/ingest" ∧
  (∀ n, logs_client_init (environment_url +:+ slashes n) token timeout size = logs ∧
        metrics_client_init (environment_url +:+ slashes n) token timeout = metrics).
Proof.
  simpl. split; [done|]. split; [apply rstrip_slash_decompose|].
  split; [apply rstrip_slash_no_slash|]. split; [done|]. split; [done|].
  intros n. unfold logs_client_init, metrics_client_init.
  by rewrite rstrip_slash_slashes.
Qed.

Lemma client_urls_witness :
  logs_client_init "https://abc.live.dynatrace.com//" (JStr "dt0c01.token") 30 100
  = logs_client_init "https://abc.live.dynatrace.com" (JStr "dt0c01.token") 30 100 ∧
  ingest_url (logs_client_init "https://abc.live.dynatrace.com" (JStr "dt0c01.token") 30 100)
  = "https://abc.live.dynatrace.com/api/v2/logs/ingest".
Proof.
  destruct (client_urls "https://abc.live.dynatrace.com" (JStr "dt0c01.token") 30 100)
    as (_ & _ & _ & Hingest & _ & Hslashes).
  split.
  - apply (Hslashes 2%nat).
  - exact Hingest.
Defined.

(** ** dynatrace/metrics_client.py *)

Lemma send_metrics_run w self metrics s :
  metrics ≠ [] →
  send_metrics w self metrics s
  = (metrics_reply w self metrics (posts s), add_post (metrics_request self metrics) s).
Proof.
  intros Hne. unfold metrics_reply, send_metrics.
  rewrite bool_decide_eq_false_2 by done.
  fold (metrics_request self metrics).
  unfold try_except, mbind, M_bind, post, add_post. simpl.
  destruct (requests_post w (posts s) (metrics_request self metrics)) as [r|msg];
    [|done].
  rewrite !raise_for_status_run.
  destruct (bool_decide (400 ≤ status_code r < 600)); [done|].
  unfold response_json, lift, mret, M_ret, raise.
  destruct (bool_decide (text r = "")).
  - done.
  - destruct (json_loads w (text r)) as [v|msg]; [|done].
    destruct (dict_get v "linesOk" (JInt 0)); [|done].
    destruct (dict_get v "linesInvalid" (JInt 0)) as [invalid|]; [|done].
    by destruct (gt_zero invalid).
Qed.

(** X7. [send_metrics] posts at most once. An empty list is answered with
    the zero counts and no request; a non-empty list gives exactly one
    request, to the metrics URL, whose body is the lines joined by
    newlines, whatever comes back. The store is never touched. *)
Theorem send_metrics_one_request w self metrics s :
  ∃ r s',
    send_metrics w self metrics s = (r, s') ∧
    (metrics = [] →
     r = Ok (JDict [("linesOk", JInt 0); ("linesInvalid", JInt 0)]) ∧ s' = s) ∧
    (metrics ≠ [] →
     trace s' =
     (trace s ++ [HttpPost {| req_url := m_ingest_url self;
                              req_token := m_api_token self;
                              req_content_type := "text/plain; charset=utf-8";
                              req_data := TextBody (join (String "010" "") metrics);
                              req_timeout := m_timeout self |}])%list ∧
     posts s' = S (posts s)) ∧
    heap s' = heap s ∧ next s' = next s.
Proof.
  destruct (decide (metrics = [])) as [->|Hne].
  - eexists _, s. split; [reflexivity|]. done.
  - rewrite send_metrics_run by done. eexists _, _. split; [reflexivity|].
    split; [done|]. split; [done|]. done.
Qed.

Lemma send_metrics_one_request_witness :
  ∃ r s',
    send_metrics (world_replying (λ _, answer 202))
      (metrics_client_init "https://abc.live.dynatrace.com/" (JStr "dt0c01.token") 30)
      example_metrics initial = (r, s') ∧
    posts s' = 1%nat.
Proof.
  destruct (send_metrics_one_request (world_replying (λ _, answer 202))
              (metrics_client_init "https://abc.live.dynatrace.com/" (JStr "dt0c01.token") 30)
              example_metrics initial)
    as (r & s' & Hrun & _ & Hsent & _).
  exists r, s'. split; [exact Hrun|]. by apply Hsent.
Defined.

(** X8. Lines the backend rejects do not make the call fail. When the
    answer is not a 4xx or 5xx and its body is empty, [send_metrics] returns
    the empty dictionary; when the body is a JSON object whose
    [linesInvalid] is an integer (positive or not) or absent, it returns
    that object as it is. *)
Theorem send_metrics_accepts w self metrics s r :
  metrics ≠ [] →
  requests_post w (posts s) (metrics_request self metrics) = Responded r →
  ¬ (400 ≤ status_code r < 600) →
  (text r = "" →
   send_metrics w self metrics s
   = (Ok (JDict []), add_post (metrics_request self metrics) s)) ∧
  (∀ kvs,
     text r ≠ "" →
     json_loads w (text r) = Decoded (JDict kvs) →
     (assoc_last "linesInvalid" kvs = None ∨
      ∃ k, assoc_last "linesInvalid" kvs = Some (JInt k)) →
     send_metrics w self metrics s
     = (Ok (JDict kvs), add_post (metrics_request self metrics) s)).
Proof.
  intros Hne Hpost Hstatus.
  rewrite send_metrics_run by done. unfold metrics_reply, send_metrics.
  rewrite bool_decide_eq_false_2 by done.
  fold (metrics_request self metrics).
  unfold try_except, mbind, M_bind, post. cbn [posts]. rewrite Hpost.
  rewrite !raise_for_status_run, bool_decide_eq_false_2 by done.
  split.
  - intros Htext. by rewrite bool_decide_eq_true_2 by done.
  - intros kvs Htext Hload Hinvalid. rewrite bool_decide_eq_false_2 by done.
    unfold response_json. rewrite Hload. unfold lift, mret, M_ret. simpl.
    destruct Hinvalid as [->|[k ->]]; done.
Qed.

Lemma send_metrics_accepts_witness :
  [ "custom.db.long_queries.count 0" ] ≠ [] ∧
  ¬ (400 ≤ 202 < 600) ∧
  ∃ s',
    send_metrics (world_replying (λ _, answer 202))
      (metrics_client_init "https://abc.live.dynatrace.com" (JStr "t") 30)
      [ "custom.db.long_queries.count 0" ] initial
    = (Ok (JDict []), s').
Proof.
  split; [done|]. split; [lia|].
  destruct (send_metrics_accepts (world_replying (λ _, answer 202))
              (metrics_client_init "https://abc.live.dynatrace.com" (JStr "t") 30)
              [ "custom.db.long_queries.count 0" ] initial
              {| status_code := 202; reason := ""; text := "";
                 url := "https://abc.live.dynatrace.com/api/v2/metrics/ingest" |})
    as [Hempty _].
  - done.
  - reflexivity.
  - simpl. lia.
  - eexists. apply Hempty. reflexivity.
Defined.





(** ** lambda_function.py: the configuration *)

Lemma unset_or_empty_false value :
  unset_or_empty value = false ↔ ∃ v, value = Some v ∧ v ≠ "".
Proof.
  destruct value as [[|c v]|]; simpl; split; try done.
  - intros (v & [= <-] & Hv). done.
  - intros _. by eexists.
  - intros (v & [=] & _).
Qed.

Lemma missing_nil env :
  missing env = [] ↔ ∀ name, name ∈ required_names → unset_or_empty (env !! name) = false.
Proof.
  split.
  - intros Hnil name Hin. destruct (unset_or_empty (env !! name)) eqn:E; [|done].
    assert (name ∈ missing env) as Hm by (by apply elem_of_missing).
    rewrite Hnil in Hm. by apply elem_of_nil in Hm.
  - intros Hall. destruct (missing env) as [|name l] eqn:E; [done|].
    assert (name ∈ missing env) as Hm by (rewrite E; left).
    apply elem_of_missing in Hm as [Hin Hun]. by rewrite Hall in Hun.
Qed.

(** X10. When [get_config] succeeds. It returns a configuration exactly
    when the six required variables are set to non-empty values and the port
    and the threshold read as integers, an unset port being 5432 and an
    unset threshold 60; the configuration then holds these values as they
    are in the environment. *)
Theorem get_config_success env config :
  (get_config env = Ok config ↔
   env !! "AURORA_HOST" = Some (aurora_host config) ∧ aurora_host config ≠ "" ∧
   env !! "AURORA_DATABASE" = Some (aurora_database config) ∧ aurora_database config ≠ "" ∧
   env !! "AURORA_USER" = Some (aurora_user config) ∧ aurora_user config ≠ "" ∧
   env !! "AURORA_PASSWORD_SECRET_ARN" = Some (aurora_password_secret_arn config) ∧
   aurora_password_secret_arn config ≠ "" ∧
   env !! "DT_ENVIRONMENT_URL" = Some (dt_environment_url config) ∧
   dt_environment_url config ≠ "" ∧
   env !! "DT_API_TOKEN_SECRET_ARN" = Some (dt_api_token_secret_arn config) ∧
   dt_api_token_secret_arn config ≠ "" ∧
   py_int (default "5432" (env !! "AURORA_PORT")) = Ok (aurora_port config) ∧
   py_int (default "60" (env !! "THRESHOLD_SECONDS")) = Ok (threshold_seconds config)) ∧
  (get_config env = Ok config →
   (env !! "AURORA_PORT" = None → aurora_port config = 5432) ∧
   (env !! "THRESHOLD_SECONDS" = None → threshold_seconds config = 60)).
Proof.
  assert (Hfwd : get_config env = Ok config →
            (∀ name, name ∈ required_names → unset_or_empty (env !! name) = false) ∧
            config = {| aurora_host := default "" (env !! "AURORA_HOST");
                        aurora_port := aurora_port config;
                        aurora_database := default "" (env !! "AURORA_DATABASE");
                        aurora_user := default "" (env !! "AURORA_USER");
                        aurora_password_secret_arn :=
                          default "" (env !! "AURORA_PASSWORD_SECRET_ARN");
                        dt_environment_url := default "" (env !! "DT_ENVIRONMENT_URL");
                        dt_api_token_secret_arn :=
                          default "" (env !! "DT_API_TOKEN_SECRET_ARN");
                        threshold_seconds := threshold_seconds config |} ∧
            py_int (default "5432" (env !! "AURORA_PORT")) = Ok (aurora_port config) ∧
            py_int (default "60" (env !! "THRESHOLD_SECONDS"))
            = Ok (threshold_seconds config)).
  { unfold get_config, mbind, res_bind.
    destruct (py_int (default "5432" _)) as [port|]; [|done].
    destruct (py_int (default "60" _)) as [threshold|]; [|done].
    case_bool_decide as Hm; [|done]. intros [= <-]. simpl.
    split; [by apply missing_nil|done]. }
  split; [split|].
  - intros Hcfg. destruct (Hfwd Hcfg) as (Hall & Hc & Hport & Hthreshold).
    assert (Hget : ∀ name, name ∈ required_names →
              env !! name = Some (default "" (env !! name)) ∧ default "" (env !! name) ≠ "").
    { intros name Hin. apply Hall, unset_or_empty_false in Hin as (v & -> & Hv). done. }
    rewrite Hc. simpl. unfold required_names in Hget.
    repeat split; try apply Hget; try done; repeat constructor.
  - intros (Hh & Hh' & Hd & Hd' & Hu & Hu' & Hp & Hp' & He & He' & Ht & Ht' & Hport & Hthr).
    unfold get_config, mbind, res_bind. rewrite Hport, Hthr.
    rewrite bool_decide_eq_true_2.
    + rewrite Hh, Hd, Hu, Hp, He, Ht. simpl. by destruct config.
    + apply missing_nil. intros name Hin. apply unset_or_empty_false.
      unfold required_names in Hin.
      repeat (apply elem_of_cons in Hin as [->|Hin]; [eauto|]).
      by apply elem_of_nil in Hin.
  - intros Hcfg. destruct (Hfwd Hcfg) as (_ & _ & Hport & Hthreshold).
    split.
    + intros Hnone. rewrite Hnone in Hport. simpl in Hport.
      assert (py_int "5432" = Ok 5432) as Hdefault by (by vm_compute).
      congruence.
    + intros Hnone. rewrite Hnone in Hthreshold. simpl in Hthreshold.
      assert (py_int "60" = Ok 60) as Hdefault by (by vm_compute).
      congruence.
Qed.

Lemma get_config_success_witness :
  get_config example_environ = Ok example_config ∧
  aurora_port example_config = 5432 ∧ threshold_seconds example_config = 60.
Proof.
  assert (H : get_config example_environ = Ok example_config) by (by vm_compute).
  split; [exact H|].
  destruct (get_config_success example_environ example_config) as [_ Hdefaults].
  destruct (Hdefaults H) as [Hport Hthreshold].
  split; [apply Hport|apply Hthreshold]; reflexivity.
Defined.

(** ** lambda_function.py: the secrets *)

(** X11. What [get_secret] does for a reference. It asks Secrets Manager
    once, whatever follows. An error of that call is raised as it is; a
    response without a [SecretString] raises a [ValueError] that names the
    reference. When it returns a value for the secret text [secret], the
    value is the text itself or, the text being a JSON object, a true value
    of the object: its [password], or its [apiToken] when the [password] is
    absent or false. So a secret text that is not empty never gives an empty
    credential. *)
Theorem get_secret_outcomes w secret_arn s :
  snd (get_secret w secret_arn s) = add_event (SecretFetch secret_arn) s ∧
  fst (get_secret w secret_arn s) = secret_value w secret_arn ∧
  (∀ e, get_secret_value w secret_arn = Raise e → secret_value w secret_arn = Raise e) ∧
  (get_secret_value w secret_arn = Ok None →
   secret_value w secret_arn
   = Raise (ValueError ("Secret " +:+ secret_arn +:+ " does not contain a string value"))) ∧
  (∀ secret v,
     get_secret_value w secret_arn = Ok (Some secret) →
     secret_value w secret_arn = Ok v →
     (v = JStr secret ∨
      ∃ kvs, json_loads w secret = Decoded (JDict kvs) ∧ truthy v = true ∧
             (assoc_last "password" kvs = Some v ∨
              (assoc_last "apiToken" kvs = Some v ∧
               truthy (default JNull (assoc_last "password" kvs)) = false))) ∧
     (secret ≠ "" → truthy v = true)).
Proof.
  rewrite get_secret_run. split; [done|]. split; [done|].
  split; [|split].
  - intros e He. unfold secret_value, get_secret, secretsmanager_get.
    unfold mbind, M_bind. simpl. by rewrite He.
  - intros He. unfold secret_value, get_secret, secretsmanager_get.
    unfold mbind, M_bind. simpl. by rewrite He.
  - intros secret v Hget Hv.
    assert (Hraw : secret ≠ "" → truthy (JStr secret) = true).
    { intros Hne. simpl. destruct (String.eqb_spec secret ""); done. }
    destruct (json_loads w secret) as [d|msg] eqn:Hload.
    + destruct d as [ | | | | | |kvs];
        try (unfold secret_value, get_secret, secretsmanager_get, mbind, M_bind in Hv;
             simpl in Hv; rewrite Hget, Hload in Hv; simpl in Hv; discriminate Hv).
      rewrite (get_secret_object w secret_arn secret kvs Hget Hload) in Hv.
      injection Hv as <-. unfold py_or.
      destruct (assoc_last "password" kvs) as [password|] eqn:Hpw; simpl.
      * destruct (truthy password) eqn:Htp.
        { split; [|by intros _]. right. exists kvs. rewrite ?Hpw, ?Htok. simpl. eauto. }
        destruct (assoc_last "apiToken" kvs) as [apiToken|] eqn:Htok; simpl.
        { destruct (truthy apiToken) eqn:Hta.
          - split; [|by intros _]. right. exists kvs. rewrite ?Hpw, ?Htok. simpl. eauto.
          - split; [by left|exact Hraw]. }
        split; [by left|exact Hraw].
      * destruct (assoc_last "apiToken" kvs) as [apiToken|] eqn:Htok; simpl.
        { destruct (truthy apiToken) eqn:Hta.
          - split; [|by intros _]. right. exists kvs. rewrite ?Hpw, ?Htok. simpl. eauto.
          - split; [by left|exact Hraw]. }
        split; [by left|exact Hraw].
    + rewrite (get_secret_not_json w secret_arn secret msg Hget Hload) in Hv.
      injection Hv as <-. split; [by left|exact Hraw].
Qed.

Lemma get_secret_outcomes_witness :
  secret_value rds_secret_world "arn:aws:secretsmanager:pw" = Ok (JStr "s3cret") ∧
  truthy (JStr "s3cret") = true.
Proof.
  assert (H : secret_value rds_secret_world "arn:aws:secretsmanager:pw"
              = Ok (JStr "s3cret")) by (by vm_compute).
  split; [exact H|].
  destruct (get_secret_outcomes rds_secret_world "arn:aws:secretsmanager:pw" initial)
    as (_ & _ & _ & _ & Hvalue).
  destruct (Hvalue rds_secret_text (JStr "s3cret")) as [_ Htrue].
  - reflexivity.
  - exact H.
  - apply Htrue. by vm_compute.
Defined.

(** ** lambda_function.py: the invocation *)

Lemma lambda_handler_start w :
  lambda_handler w initial
  = try_except (collect w (utcnow w 0))
      (λ e, mret {| statusCode := 500; body_of := Errored (str_exn e) |}) started.
Proof. done. Qed.

Lemma try_except_raise {A} (m : M A) (h : exn → M A) s e s1 :
  m s = (Raise e, s1) → try_except m h s = h e s1.
Proof. intros H. unfold try_except. by rewrite H. Qed.

Lemma try_except_ok {A} (m : M A) (h : exn → M A) s a s1 :
  m s = (Ok a, s1) → try_except m h s = (Ok a, s1).
Proof. intros H. unfold try_except. by rewrite H. Qed.

(** X12. The invocation stops at the first step that fails. With a complete
    configuration, a failure of the first secret ends the invocation after
    that one fetch; a failure of the second after the two fetches; a failure
    of the database query after the fetches and the query, nothing being
    sent to Dynatrace; a failure of the metrics POST after that one POST, no
    log entry being built or sent. Each time the result is the status 500
    with the text of the error that was raised. *)
Theorem handler_fail_fast w config :
  get_config (environ w) = Ok config →
  let pw := aurora_password_secret_arn config in
  let tok := dt_api_token_secret_arn config in
  let failed e s' :=
    lambda_handler w initial
    = (Ok {| statusCode := 500; body_of := Errored (str_exn e) |}, s') in
  (∀ e, secret_value w pw = Raise e →
        failed e (add_event (SecretFetch pw) started)) ∧
  (∀ db_password e,
     secret_value w pw = Ok db_password →
     secret_value w tok = Raise e →
     failed e (add_event (SecretFetch tok) (add_event (SecretFetch pw) started))) ∧
  (∀ db_password dt_api_token e,
     secret_value w pw = Ok db_password →
     secret_value w tok = Ok dt_api_token →
     pg_stat_activity w (collector_for config db_password) = Raise e →
     failed e (add_event (DbQuery (collector_for config db_password))
                 (add_event (SecretFetch tok) (add_event (SecretFetch pw) started)))) ∧
  (∀ db_password dt_api_token queries metrics e,
     secret_value w pw = Ok db_password →
     secret_value w tok = Ok dt_api_token →
     pg_stat_activity w (collector_for config db_password) = Ok queries →
     build_metrics (aurora_database config) (before_dot (aurora_host config)) queries
     = Ok metrics →
     metrics_reply w (metrics_client_for config dt_api_token) metrics 0 = Raise e →
     failed e (add_post (metrics_request (metrics_client_for config dt_api_token) metrics)
                 (add_event (DbQuery (collector_for config db_password))
                    (add_event (SecretFetch tok) (add_event (SecretFetch pw) started))))).
Proof.
  intros Hcfg pw tok failed. subst failed pw tok. cbv beta.
  split; [|split; [|split]].
  - intros e Hpw. rewrite lambda_handler_start.
    erewrite try_except_raise; [reflexivity|]. unfold collect.
    rewrite (bind_run_ok _ _ started config started) by (unfold lift; by rewrite Hcfg).
    erewrite bind_run_raise; [reflexivity|]. by rewrite get_secret_run, Hpw.
  - intros db_password e Hpw Htok. rewrite lambda_handler_start.
    erewrite try_except_raise; [reflexivity|]. unfold collect.
    rewrite (bind_run_ok _ _ started config started) by (unfold lift; by rewrite Hcfg).
    erewrite bind_run_ok by (rewrite get_secret_run, Hpw; reflexivity).
    erewrite bind_run_raise; [reflexivity|]. by rewrite get_secret_run, Htok.
  - intros db_password dt_api_token e Hpw Htok Hrows. rewrite lambda_handler_start.
    erewrite try_except_raise; [reflexivity|]. unfold collect.
    rewrite (bind_run_ok _ _ started config started) by (unfold lift; by rewrite Hcfg).
    erewrite bind_run_ok by (rewrite get_secret_run, Hpw; reflexivity).
    erewrite bind_run_ok by (rewrite get_secret_run, Htok; reflexivity).
    fold (collector_for config db_password).
    erewrite bind_run_raise; [reflexivity|].
    by rewrite get_long_running_queries_run, Hrows.
  - intros db_password dt_api_token queries metrics e Hpw Htok Hrows Hm Hreply.
    rewrite lambda_handler_start.
    erewrite try_except_raise; [reflexivity|].
    rewrite (collect_prefix w _ _ config db_password dt_api_token queries metrics)
      by done.
    erewrite bind_run_raise; [reflexivity|].
    fold (metrics_client_for config dt_api_token).
    rewrite send_metrics_run by (by eapply build_metrics_nonempty).
    by rewrite <- Hreply.
Qed.

Lemma handler_fail_fast_witness :
  ∃ s', lambda_handler database_down initial
        = (Ok {| statusCode := 500; body_of := Errored "connection refused" |}, s') ∧
        trace s' =
        [ SecretFetch "arn:aws:secretsmanager:pw";
          SecretFetch "arn:aws:secretsmanager:token";
          DbQuery (collector_for example_config
                     (JStr "value of arn:aws:secretsmanager:pw")) ] ∧
        posts s' = 0%nat.
Proof.
  assert (Hcfg : get_config (environ database_down) = Ok example_config)
    by (by vm_compute).
  destruct (handler_fail_fast database_down example_config Hcfg) as (_ & _ & Hdb & _).
  eexists. split.
  - apply (Hdb (JStr "value of arn:aws:secretsmanager:pw")
               (JStr "value of arn:aws:secretsmanager:token")
               (ExternalError "connection refused")); reflexivity.
  - split; reflexivity.
Defined.

Lemma make_log_entry_no_timestamp db_name hostname q :
  make_log_entry db_name hostname q !! "timestamp" = None.
Proof. unfold make_log_entry. by rewrite !lookup_insert_ne, lookup_empty. Qed.

Lemma append_log_entry_run db_name hostname acc q s :
  append_log_entry db_name hostname acc q s
  = (Ok (acc ++ [next s])%list,
     {| heap := <[next s := make_log_entry db_name hostname q]> (heap s);
        next := S (next s); trace := trace s; posts := posts s; ticks := ticks s |}).
Proof. done. Qed.

(** The loop that builds the log entries creates one object for each row. *)
Lemma append_log_entries_run db_name hostname queries acc s :
  ∃ s', foldM (append_log_entry db_name hostname) acc queries s
        = (Ok (acc ++ seq (next s) (length queries))%list, s') ∧
        next s' = (next s + length queries)%nat ∧
        trace s' = trace s ∧ posts s' = posts s ∧ ticks s' = ticks s ∧
        (∀ i q, queries !! i = Some q →
                heap s' (next s + i)%nat = make_log_entry db_name hostname q) ∧
        (∀ l, (l < next s)%nat → heap s' l = heap s l).
Proof.
  revert acc s. induction queries as [|q queries IH]; intros acc s.
  - exists s. simpl. rewrite app_nil_r, Nat.add_0_r.
    repeat split; try done; intros i q Hi; by rewrite lookup_nil in Hi.
  - cbn [foldM]. erewrite bind_run_ok by apply append_log_entry_run.
    match goal with
    | |- context [foldM _ ?a queries ?s0] => destruct (IH a s0)
        as (s' & Hrun & Hnext & Htrace & Hposts & Hticks & Hnew & Hold)
    end.
    cbn [heap next trace posts ticks] in *.
    exists s'. rewrite Hrun. split.
    { by rewrite <- app_assoc. }
    split; [simpl; lia|]. repeat split; try done.
    + intros [|i] q' Hi; simpl in Hi.
      * injection Hi as ->. rewrite Nat.add_0_r, Hold by lia.
        by rewrite fn_lookup_insert.
      * replace (next s + S i)%nat with (S (next s) + i)%nat by lia. by apply Hnew.
    + intros l Hl. rewrite Hold by lia. rewrite fn_lookup_insert_ne by lia. done.
Qed.

Lemma first_at_seq n i : (i < n)%nat → first_at (seq 0 n) i i.
Proof.
  intros Hi. split.
  - by apply lookup_seq.
  - intros i' Hi' Hl. apply lookup_seq in Hl. lia.
Qed.

Lemma fmap_batch_of {A B} (f : A → B) size (l : list A) k :
  f <$> batch_of size l k = batch_of size (f <$> l) k.
Proof. unfold batch_of. by rewrite fmap_take, fmap_drop. Qed.

(** The run of an invocation whose steps up to the metrics POST succeed. *)
Lemma handler_success_run w config db_password dt_api_token queries metrics result :
  get_config (environ w) = Ok config →
  secret_value w (aurora_password_secret_arn config) = Ok db_password →
  secret_value w (dt_api_token_secret_arn config) = Ok dt_api_token →
  pg_stat_activity w (collector_for config db_password) = Ok queries →
  build_metrics (aurora_database config) (before_dot (aurora_host config)) queries
  = Ok metrics →
  metrics_reply w (metrics_client_for config dt_api_token) metrics 0 = Ok result →
  let batches := Z.to_nat (ceil_div (Z.of_nat (length queries)) 100) in
  ∃ s',
    lambda_handler w initial
    = (Ok {| statusCode := 200;
             body_of := Completed "Collection completed successfully" (length queries)
                          (length metrics) (length queries)
                          (utcnow w (1 + batches) - utcnow w 0) |}, s') ∧
    trace s' =
    ([ SecretFetch (aurora_password_secret_arn config);
       SecretFetch (dt_api_token_secret_arn config);
       DbQuery (collector_for config db_password);
       HttpPost (metrics_request (metrics_client_for config dt_api_token) metrics) ]
     ++ (HttpPost <$> log_requests w config dt_api_token queries))%list ∧
    posts s' = (1 + batches)%nat ∧
    next s' = length queries ∧
    (∀ i q, queries !! i = Some q → heap s' i = posted_entry w config i q).
Proof.
  intros Hcfg Hpw Htok Hrows Hm Hreply batches.
  rewrite lambda_handler_start.
  set (s3 := add_post (metrics_request (metrics_client_for config dt_api_token) metrics)
               (add_event (DbQuery (collector_for config db_password))
                  (add_event (SecretFetch (dt_api_token_secret_arn config))
                     (add_event (SecretFetch (aurora_password_secret_arn config))
                        started)))).
  assert (Hlogs : ∃ s',
    (if (0 <? length queries)%nat then
       log_entries ← foldM (append_log_entry (aurora_database config)
                              (before_dot (aurora_host config))) [] queries;
       logs_result ← send_logs w (logs_client_for config dt_api_token) log_entries;
       mret ()
     else mret ()) s3 = (Ok (), s') ∧
    trace s' = (trace s3 ++ (HttpPost <$> log_requests w config dt_api_token queries))%list ∧
    posts s' = (1 + batches)%nat ∧ ticks s' = (1 + batches)%nat ∧
    next s' = length queries ∧
    (∀ i q, queries !! i = Some q → heap s' i = posted_entry w config i q)).
  { destruct (decide (queries = [])) as [->|Hne].
    - exists s3. subst batches.
      change (log_requests w config dt_api_token []) with (@nil request).
      change (Z.to_nat (ceil_div (Z.of_nat (length (@nil QueryRow))) 100)) with 0%nat.
      cbn [fmap list_fmap length Nat.ltb Nat.leb]. rewrite app_nil_r.
      repeat split; try done; intros i q Hi; by rewrite lookup_nil in Hi.
    - assert (0 < length queries)%nat as Hlen by (destruct queries; simpl; [done|lia]).
      rewrite (proj2 (Nat.ltb_lt _ _) Hlen).
      destruct (append_log_entries_run (aurora_database config)
                  (before_dot (aurora_host config)) queries [] s3)
        as (s4 & Hrun & Hnext & Htrace & Hposts & Hticks & Hnew & _).
      change (next s3) with 0%nat in *. rewrite app_nil_l in Hrun.
      rewrite Nat.add_0_l in Hnext.
      erewrite bind_run_ok by exact Hrun.
      set (lc := logs_client_for config dt_api_token).
      set (entries := seq 0 (length queries)) in *.
      assert (0 < batch_size lc) as Hsize by done.
      assert (entries ≠ []) as Hne'.
      { intros E. apply (f_equal length) in E. unfold entries in E.
        rewrite length_seq in E. simpl in E. lia. }
      destruct (send_logs_run w lc entries s4 Hsize Hne')
        as (s' & total_sent & errors & Hsend & Hinv).
      erewrite bind_run_ok by exact Hsend.
      exists s'. split; [done|].
      destruct Hinv as (Hnext' & Hticks' & Hposts' & Htrace' & _ & _ & Hstamped).
      assert (Hcount : batch_count lc entries = batches).
      { unfold batch_count, entries. by rewrite length_seq. }
      rewrite Hcount in *.
      assert (Hheap : ∀ i q, queries !! i = Some q → heap s' i = posted_entry w config i q).
      { intros i q Hi. destruct (Hstamped i) as (_ & _ & Hst).
        pose proof (lookup_lt_Some _ _ _ Hi) as Hlt.
        destruct (batch_count_cover lc entries Hsize) as [Hcover _].
        cbv zeta in Hcover. rewrite Hcount in Hcover. unfold entries in Hcover.
        rewrite length_seq in Hcover.
        specialize (Hnew i q Hi). rewrite Nat.add_0_l in Hnew.
        rewrite (Hst i) ; [| lia | by apply first_at_seq |].
        - rewrite Hnew, Hticks. done.
        - rewrite Hnew. unfold has_timestamp.
          rewrite make_log_entry_no_timestamp. by intros [? ?]. }
      assert (posts s3 = 1%nat) as Hp3 by done.
      assert (ticks s3 = 1%nat) as Ht3 by done.
      split; [|split; [|split; [|split]]]; [|lia|lia|congruence|exact Hheap].
      rewrite Htrace', Htrace. f_equal. f_equal. unfold log_requests.
      apply list_fmap_ext. intros _ k _. unfold batch_request. f_equal.
      rewrite fmap_batch_of. f_equal.
      apply list_eq. intros i. rewrite list_lookup_fmap, list_lookup_imap.
      unfold entries. destruct (queries !! i) as [q|] eqn:Hi; simpl.
      + rewrite lookup_seq_lt by (by eapply lookup_lt_Some). simpl.
        f_equal. by apply Hheap.
      + rewrite lookup_seq_ge by (by apply lookup_ge_None). done. }
  destruct Hlogs as (s' & Hrun & Htrace & Hposts & Hticks & Hnext & Hheap).
  eexists. split.
  - apply try_except_ok.
    rewrite (collect_prefix w _ _ config db_password dt_api_token queries metrics)
      by done.
    fold (metrics_client_for config dt_api_token).
    fold (logs_client_for config dt_api_token).
    erewrite bind_run_ok.
    2:{ rewrite send_metrics_run by (by eapply build_metrics_nonempty).
        fold s3. change (posts _) with 0%nat. rewrite Hreply. reflexivity. }
    erewrite bind_run_ok by exact Hrun.
    unfold utcnow_read, mbind, M_bind, mret, M_ret. rewrite Hticks. reflexivity.
  - cbn [heap next trace posts ticks]. rewrite Htrace. done.
Qed.

Lemma http_posts_fmap (requests : list request) :
  omap (λ ev, match ev with HttpPost rq => Some rq | _ => None end)
       (HttpPost <$> requests) = requests.
Proof. induction requests as [|rq requests IH]; [done|]. simpl. f_equal. exact IH. Qed.

(** X13. Failures of the log endpoint are not fatal. When the configuration
    is complete, the two secrets are read, the query returns [N] rows and
    the metrics POST is accepted, the invocation returns the status 200
    whatever happens to the log batches: nothing is assumed of the answers
    to the POSTs after the first. It reports [N] rows found and [N] logs
    sent, makes [1 + ceil (N / 100)] POSTs in all, and its execution time is
    the difference of the last and the first reading of the clock. *)
Theorem log_failures_not_fatal w config db_password dt_api_token queries metrics result :
  get_config (environ w) = Ok config →
  secret_value w (aurora_password_secret_arn config) = Ok db_password →
  secret_value w (dt_api_token_secret_arn config) = Ok dt_api_token →
  pg_stat_activity w (collector_for config db_password) = Ok queries →
  build_metrics (aurora_database config) (before_dot (aurora_host config)) queries
  = Ok metrics →
  metrics_reply w (metrics_client_for config dt_api_token) metrics 0 = Ok result →
  let batches := Z.to_nat (ceil_div (Z.of_nat (length queries)) 100) in
  ∃ s',
    lambda_handler w initial
    = (Ok {| statusCode := 200;
             body_of := Completed "Collection completed successfully" (length queries)
                          (length metrics) (length queries)
                          (utcnow w (1 + batches) - utcnow w 0) |}, s') ∧
    posts s' = (1 + batches)%nat ∧
    length (http_posts (trace s')) = (1 + batches)%nat.
Proof.
  intros Hcfg Hpw Htok Hrows Hm Hreply batches.
  destruct (handler_success_run w config db_password dt_api_token queries metrics result
              Hcfg Hpw Htok Hrows Hm Hreply)
    as (s' & Hrun & Htrace & Hposts & _).
  exists s'. split; [exact Hrun|]. split; [exact Hposts|].
  rewrite Htrace. unfold http_posts. rewrite omap_app, length_app.
  rewrite http_posts_fmap. unfold log_requests. rewrite length_fmap, length_seq.
  done.
Qed.

Lemma log_failures_not_fatal_witness :
  ∃ s',
    lambda_handler (example_world example_environ example_rows logs_down) initial
    = (Ok {| statusCode := 200;
             body_of := Completed "Collection completed successfully" 2 4 2 2000 |}, s') ∧
    posts s' = 2%nat.
Proof.
  set (w := example_world example_environ example_rows logs_down).
  assert (Hcfg : get_config (environ w) = Ok example_config)
    by (vm_compute; reflexivity).
  assert (Hpw : secret_value w (aurora_password_secret_arn example_config)
                = Ok (JStr "value of arn:aws:secretsmanager:pw"))
    by (vm_compute; reflexivity).
  assert (Htok : secret_value w (dt_api_token_secret_arn example_config)
                 = Ok (JStr "value of arn:aws:secretsmanager:token"))
    by (vm_compute; reflexivity).
  assert (Hrows : pg_stat_activity w
                    (collector_for example_config
                       (JStr "value of arn:aws:secretsmanager:pw"))
                  = Ok example_rows) by reflexivity.
  assert (Hm : build_metrics (aurora_database example_config)
                 (before_dot (aurora_host example_config)) example_rows
               = Ok example_metrics) by (vm_compute; reflexivity).
  assert (Hreply : metrics_reply w
                     (metrics_client_for example_config
                        (JStr "value of arn:aws:secretsmanager:token"))
                     example_metrics 0 = Ok (JDict []))
    by (vm_compute; reflexivity).
  destruct (log_failures_not_fatal w example_config
              (JStr "value of arn:aws:secretsmanager:pw")
              (JStr "value of arn:aws:secretsmanager:token")
              example_rows example_metrics (JDict []) Hcfg Hpw Htok Hrows Hm Hreply)
    as (s' & Hrun & Hposts & _).
  exists s'. split; [exact Hrun|exact Hposts].
Defined.

(** X14. What the log endpoint receives. In such an invocation the first
    POST carries the metrics and the following ones the log entries: put
    end to end, their payloads are the entries built for the rows, one for
    each row and in the order of the rows, each with the timestamp read for
    its batch of 100. Every log request goes to the logs ingest URL with the
    Dynatrace token and carries between 1 and 100 entries. The list these
    requests were built from holds the same dictionaries afterwards. *)
Theorem handler_posts_rows w config db_password dt_api_token queries metrics result :
  get_config (environ w) = Ok config →
  secret_value w (aurora_password_secret_arn config) = Ok db_password →
  secret_value w (dt_api_token_secret_arn config) = Ok dt_api_token →
  pg_stat_activity w (collector_for config db_password) = Ok queries →
  build_metrics (aurora_database config) (before_dot (aurora_host config)) queries
  = Ok metrics →
  metrics_reply w (metrics_client_for config dt_api_token) metrics 0 = Ok result →
  ∃ r s' requests,
    lambda_handler w initial = (Ok r, s') ∧
    trace s' =
    ([ SecretFetch (aurora_password_secret_arn config);
       SecretFetch (dt_api_token_secret_arn config);
       DbQuery (collector_for config db_password);
       HttpPost (metrics_request (metrics_client_for config dt_api_token) metrics) ]
     ++ (HttpPost <$> requests))%list ∧
    concat (payload_entries <$> requests) = imap (posted_entry w config) queries ∧
    Forall (λ rq, req_url rq
                  = rstrip_slash (dt_environment_url config) +:+ "/api/v2/logs/ingest" ∧
                  req_token rq = dt_api_token ∧
                  (1 ≤ length (payload_entries rq) ≤ 100)%nat) requests ∧
    (∀ i q, queries !! i = Some q → heap s' i = posted_entry w config i q).
Proof.
  intros Hcfg Hpw Htok Hrows Hm Hreply.
  destruct (handler_success_run w config db_password dt_api_token queries metrics result
              Hcfg Hpw Htok Hrows Hm Hreply)
    as (s' & Hrun & Htrace & _ & _ & Hheap).
  eexists _, s', (log_requests w config dt_api_token queries).
  split; [exact Hrun|]. split; [exact Htrace|].
  pose proof (ceil_div_spec (Z.of_nat (length queries)) 100 ltac:(done)) as Hceil.
  set (batches := Z.to_nat (ceil_div (Z.of_nat (length queries)) 100)) in *.
  split; [|split; [|exact Hheap]].
  - unfold log_requests. rewrite <- list_fmap_compose.
    erewrite (list_fmap_ext _ (batch_of 100 (imap (posted_entry w config) queries)))
      by done.
    rewrite concat_batches. apply take_ge. rewrite length_imap. fold batches. lia.
  - unfold log_requests. apply Forall_fmap, list.Forall_forall.
    intros k Hk%elem_of_seq. fold batches in Hk. simpl.
    split; [done|]. split; [done|].
    apply length_batch_bounds; [lia|]. rewrite length_imap. lia.
Qed.

Lemma handler_posts_rows_witness :
  ∃ r s' requests,
    lambda_handler (example_world example_environ example_rows logs_down) initial
    = (Ok r, s') ∧
    concat (payload_entries <$> requests)
    = imap (posted_entry (example_world example_environ example_rows logs_down)
              example_config) example_rows ∧
    Forall (λ rq, req_url rq = "https://abc.live.dynatrace.com/api/v2/logs/ingest" ∧
                  req_token rq = JStr "value of arn:aws:secretsmanager:token" ∧
                  (1 ≤ length (payload_entries rq) ≤ 100)%nat) requests.
Proof.
  set (w := example_world example_environ example_rows logs_down).
  assert (Hcfg : get_config (environ w) = Ok example_config)
    by (vm_compute; reflexivity).
  assert (Hpw : secret_value w (aurora_password_secret_arn example_config)
                = Ok (JStr "value of arn:aws:secretsmanager:pw"))
    by (vm_compute; reflexivity).
  assert (Htok : secret_value w (dt_api_token_secret_arn example_config)
                 = Ok (JStr "value of arn:aws:secretsmanager:token"))
    by (vm_compute; reflexivity).
  assert (Hrows : pg_stat_activity w
                    (collector_for example_config
                       (JStr "value of arn:aws:secretsmanager:pw"))
                  = Ok example_rows) by reflexivity.
  assert (Hm : build_metrics (aurora_database example_config)
                 (before_dot (aurora_host example_config)) example_rows
               = Ok example_metrics) by (vm_compute; reflexivity).
  assert (Hreply : metrics_reply w
                     (metrics_client_for example_config
                        (JStr "value of arn:aws:secretsmanager:token"))
                     example_metrics 0 = Ok (JDict []))
    by (vm_compute; reflexivity).
  destruct (handler_posts_rows w example_config
              (JStr "value of arn:aws:secretsmanager:pw")
              (JStr "value of arn:aws:secretsmanager:token")
              example_rows example_metrics (JDict []) Hcfg Hpw Htok Hrows Hm Hreply)
    as (r & s' & requests & Hrun & Htrace & Hpayloads & Hall & _).
  exists r, s', requests. split; [exact Hrun|]. split; [exact Hpayloads|exact Hall].
Defined.

(** ** lambda_function.py: the log entry of a row *)

Lemma substring_prefix n s : ∃ rest, s = String.substring 0 n s +:+ rest.
Proof.
  revert s. induction n as [|n IH]; intros s.
  - exists s. by destruct s.
  - destruct s as [|c s]; [by exists ""|].
    destruct (IH s) as [rest Hrest]. exists rest. simpl.
    by rewrite string_app_cons, <- Hrest.
Qed.

Lemma length_substring n s :
  String.length (String.substring 0 n s) = (n `min` String.length s)%nat.
Proof.
  revert s. induction n as [|n IH]; intros s; [by destruct s|].
  destruct s as [|c s]; [done|]. simpl. by rewrite IH.
Qed.

Lemma substring_all n s :
  (String.length s ≤ n)%nat → String.substring 0 n s = s.
Proof.
  revert s. induction n as [|n IH]; intros s Hlen.
  - destruct s; [done|]. simpl in Hlen. lia.
  - destruct s as [|c s]; [done|]. simpl in *. rewrite IH; [done|lia].
Qed.

(** X15. The log entry of a row. Its content is the text of the query cut
    after 10000 characters: a prefix of the text, the whole text when that
    is not longer. The entry has the thirteen fields of the dictionary
    display and no timestamp. The pid and the duration are written in
    decimal, so that rows with different pids or durations give different
    entries; the wait events that are null become the empty string. *)
Theorem log_entry_contents db_name hostname q :
  let e := make_log_entry db_name hostname q in
  (∃ content rest,
     e !! "content" = Some (VStr content) ∧
     query q = content +:+ rest ∧
     String.length content = ((100 * 100) `min` String.length (query q))%nat) ∧
  ((String.length (query q) ≤ 100 * 100)%nat → e !! "content" = Some (VStr (query q))) ∧
  e !! "timestamp" = None ∧
  size e = 13%nat ∧
  e !! "query.pid" = Some (VStr (pretty (pid q))) ∧
  e !! "query.duration_seconds" = Some (VStr (pretty (duration_seconds q))) ∧
  (∀ q', make_log_entry db_name hostname q' !! "query.pid" = e !! "query.pid" →
         pid q' = pid q) ∧
  (∀ q', make_log_entry db_name hostname q' !! "query.duration_seconds"
         = e !! "query.duration_seconds" →
         duration_seconds q' = duration_seconds q) ∧
  e !! "query.state" = Some (VStr (q_state q)) ∧
  e !! "query.username" = Some (VStr (usename q)) ∧
  e !! "query.database" = Some (VStr (datname q)) ∧
  e !! "query.wait_event_type" = Some (VStr (default "" (wait_event_type q))) ∧
  e !! "query.wait_event" = Some (VStr (default "" (wait_event q))) ∧
  e !! "db.name" = Some (VStr db_name) ∧
  e !! "db.host" = Some (VStr hostname) ∧
  e !! "db.type" = Some (VStr "postgres") ∧
  e !! "log.source" = Some (VStr "custom.db.long_running_query").
Proof.
  intros e.
  assert (Hcontent : e !! "content"
                     = Some (VStr (String.substring 0 (100 * 100) (query q)))).
  { subst e. unfold make_log_entry. by rewrite lookup_insert_eq. }
  assert (Hpid : ∀ q', make_log_entry db_name hostname q' !! "query.pid"
                       = Some (VStr (pretty (pid q')))).
  { intros q'. unfold make_log_entry.
    by rewrite !lookup_insert_ne, lookup_insert_eq by done. }
  assert (Hduration : ∀ q', make_log_entry db_name hostname q' !! "query.duration_seconds"
                            = Some (VStr (pretty (duration_seconds q')))).
  { intros q'. unfold make_log_entry.
    by rewrite !lookup_insert_ne, lookup_insert_eq by done. }
  split; [|split; [|split; [|split; [|split; [|split; [|split; [|split]]]]]]].
  - destruct (substring_prefix (100 * 100) (query q)) as [rest Hrest].
    exists (String.substring 0 (100 * 100) (query q)), rest.
    split; [done|]. split; [done|]. by rewrite length_substring.
  - intros Hlen. by rewrite Hcontent, substring_all.
  - apply make_log_entry_no_timestamp.
  - subst e. unfold make_log_entry.
    rewrite !map_size_insert_None; [by rewrite map_size_empty|..];
      by rewrite ?lookup_insert_ne, ?lookup_empty by done.
  - apply Hpid.
  - apply Hduration.
  - intros q'. subst e. rewrite !Hpid. intros [= H]. by apply (inj pretty) in H.
  - intros q'. subst e. rewrite !Hduration. intros [= H]. by apply (inj pretty) in H.
  - subst e. unfold make_log_entry.
    repeat split; by rewrite ?lookup_insert_ne, ?lookup_insert_eq by done.
Qed.

Lemma log_entry_contents_witness :
  example_rows !! 0%nat = Some blocked_update ∧
  (String.length (query blocked_update) ≤ 100 * 100)%nat ∧
  make_log_entry "app" "db1" blocked_update !! "content"
  = Some (VStr "UPDATE accounts SET balance = 0").
Proof.
  split; [reflexivity|].
  assert (Hlen : (String.length (query blocked_update) ≤ 100 * 100)%nat)
    by (apply Nat.leb_le; vm_compute; reflexivity).
  split; [exact Hlen|].
  destruct (log_entry_contents "app" "db1" blocked_update) as (_ & Hwhole & _).
  apply Hwhole, Hlen.
Defined.

(** ** collectors/postgres_collector.py *)

(** Runs the combinators of a method of the collector. *)
Ltac run_collector :=
  cbv beta iota zeta delta
    [PostgresCollector.get_long_running_queries PostgresCollector.get_blocked_queries
     PostgresCollector.get_query_stats PostgresCollector.test_connection
     PostgresCollector.accepts PostgresCollector.try_except PostgresCollector.bind
     PostgresCollector.try_finally PostgresCollector.with_cursor
     PostgresCollector.cur_execute PostgresCollector._get_connection
     PostgresCollector.log_and_raise PostgresCollector.emit PostgresCollector.ret
     PostgresCollector.throw PostgresCollector.any_error
     PostgresCollector.is_undefined_table PostgresCollector.query_events fst snd].

Ltac session_facts :=
  eexists; split; [by rewrite <- ?app_assoc|];
  split; [reflexivity|]; split; [reflexivity|]; split; [simpl; lia|];
  first [discriminate | intros _; reflexivity].

(** X16. The connection is never leaked. Whatever the server does, each of
    the four methods of the collector tries to connect once, with the
    parameters of the collector, the timeout 10 and the application name
    [dynatrace_monitor]; it runs at most one statement, and none when the
    connection was refused; the cursor and the connection it opened are
    closed again when it returns or raises, the statement being run between
    the opening and the closing of the cursor. *)
Theorem collector_sessions srv self t :
  let good (evs : list PostgresCollector.event) :=
    PostgresCollector.session PostgresCollector.Idle evs = Some PostgresCollector.Idle ∧
    PostgresCollector.connects evs
    = [(PostgresCollector.args_of self, PostgresCollector.accepts srv self)] ∧
    (length (PostgresCollector.statements evs) ≤ 1)%nat ∧
    (PostgresCollector.accepts srv self = false → PostgresCollector.statements evs = []) in
  PostgresCollector.connect_timeout (PostgresCollector.args_of self) = 10 ∧
  PostgresCollector.application_name (PostgresCollector.args_of self)
  = "dynatrace_monitor" ∧
  (∃ evs, snd (PostgresCollector.get_long_running_queries srv self t) = (t ++ evs)%list ∧
          good evs) ∧
  (∃ evs, snd (PostgresCollector.get_blocked_queries srv self t) = (t ++ evs)%list ∧
          good evs) ∧
  (∃ evs, snd (PostgresCollector.get_query_stats srv self t) = (t ++ evs)%list ∧
          good evs) ∧
  (∃ evs, snd (PostgresCollector.test_connection srv self t) = (t ++ evs)%list ∧
          good evs).
Proof.
  intros good. subst good. cbv beta.
  split; [done|]. split; [done|].
  run_collector.
  destruct (PostgresCollector.connect srv (PostgresCollector.args_of self)) as [e|];
    run_collector.
  - repeat split; session_facts.
  - split; [|split; [|split]].
    + destruct (PostgresCollector.execute srv _ _) as [e|rows]; run_collector;
        session_facts.
    + destruct (PostgresCollector.execute srv _ _) as [e|rows]; run_collector;
        session_facts.
    + destruct (PostgresCollector.execute srv _ _) as [[msg|msg]|rows]; run_collector;
        session_facts.
    + session_facts.
Qed.

Lemma collector_sessions_witness :
  PostgresCollector.accepts PostgresCollector.unreachable example_collector = false ∧
  ∃ evs,
    snd (PostgresCollector.get_long_running_queries PostgresCollector.unreachable
           example_collector []) = evs ∧
    PostgresCollector.statements evs = [].
Proof.
  split; [reflexivity|].
  destruct (collector_sessions PostgresCollector.unreachable example_collector [])
    as (_ & _ & (evs & Hevs & _ & _ & _ & Hnone) & _).
  exists evs. split; [exact Hevs|]. apply Hnone. reflexivity.
Defined.

(** X17. What the two queries return. [get_long_running_queries] sends its
    statement with the threshold of the collector as the only parameter,
    [get_blocked_queries] sends its own without parameters. Each returns the
    rows of the server as they are and logs nothing; an error of the
    connection or of the statement is raised as it is, after the connection
    (if there is one) was closed and the error was logged once. *)
Theorem collector_query_results srv self t :
  let run statement params (m : PostgresCollector.P (list PostgresCollector.row)) :=
    (∀ e, PostgresCollector.connect srv (PostgresCollector.args_of self) = Some e →
          m t = (PostgresCollector.Raised e,
                 t ++ [ PostgresCollector.Connect (PostgresCollector.args_of self) false;
                        PostgresCollector.LogError
                          ("Database error: " +:+ PostgresCollector.str_error e) ])%list) ∧
    (∀ e, PostgresCollector.connect srv (PostgresCollector.args_of self) = None →
          PostgresCollector.execute srv statement params = inl e →
          m t = (PostgresCollector.Raised e,
                 t ++ PostgresCollector.query_events self statement params
                   ++ [ PostgresCollector.LogError
                          ("Database error: " +:+ PostgresCollector.str_error e) ])%list) ∧
    (∀ rows, PostgresCollector.connect srv (PostgresCollector.args_of self) = None →
             PostgresCollector.execute srv statement params = inr rows →
             m t = (PostgresCollector.Returned rows,
                    t ++ PostgresCollector.query_events self statement params)%list) in
  run PostgresCollector.LongRunningQueriesSQL [cp_threshold self]
      (PostgresCollector.get_long_running_queries srv self) ∧
  run PostgresCollector.BlockedQueriesSQL []
      (PostgresCollector.get_blocked_queries srv self).
Proof.
  intros run. subst run. cbv beta. run_collector.
  split; (split; [|split]).
  all: try (intros e Hc; rewrite Hc; by rewrite <- ?app_assoc).
  all: intros x Hc Hx; rewrite Hc, Hx; by rewrite <- ?app_assoc.
Qed.

Lemma collector_query_results_witness :
  PostgresCollector.get_long_running_queries PostgresCollector.unreachable
    example_collector []
  = (PostgresCollector.Raised (PostgresCollector.OtherError "connection refused"),
     [ PostgresCollector.Connect (PostgresCollector.args_of example_collector) false;
       PostgresCollector.LogError "Database error: connection refused" ]).
Proof.
  destruct (collector_query_results PostgresCollector.unreachable example_collector [])
    as [(Hrefused & _) _].
  apply (Hrefused (PostgresCollector.OtherError "connection refused")). reflexivity.
Defined.

(** X18. [get_query_stats] without the extension. When the statement fails
    because [pg_stat_statements] does not exist, the method returns the
    empty dictionary: it logs a warning, closes the connection, logs no
    error and raises nothing. Any other error of the statement is raised
    after the connection was closed, and an error of the connection is
    raised whatever its class. When the statement succeeds the method
    returns the first row, or the empty dictionary when there is none. *)
Theorem get_query_stats_fallback srv self t :
  let args := PostgresCollector.args_of self in
  let stats := PostgresCollector.get_query_stats srv self t in
  (∀ msg, PostgresCollector.connect srv args = None →
          PostgresCollector.execute srv PostgresCollector.QueryStatsSQL []
          = inl (PostgresCollector.UndefinedTable msg) →
          stats = (PostgresCollector.Returned ∅,
                   t ++ [ PostgresCollector.Connect args true;
                          PostgresCollector.OpenCursor;
                          PostgresCollector.Execute PostgresCollector.QueryStatsSQL [];
                          PostgresCollector.CloseCursor;
                          PostgresCollector.LogWarning
                            "pg_stat_statements extension not available";
                          PostgresCollector.Close ])%list) ∧
  (∀ msg, PostgresCollector.connect srv args = None →
          PostgresCollector.execute srv PostgresCollector.QueryStatsSQL []
          = inl (PostgresCollector.OtherError msg) →
          stats = (PostgresCollector.Raised (PostgresCollector.OtherError msg),
                   t ++ PostgresCollector.query_events self PostgresCollector.QueryStatsSQL []
                     ++ [ PostgresCollector.LogError ("Database error: " +:+ msg) ])%list) ∧
  (∀ e, PostgresCollector.connect srv args = Some e →
        stats = (PostgresCollector.Raised e,
                 t ++ [ PostgresCollector.Connect args false;
                        PostgresCollector.LogError
                          ("Database error: " +:+ PostgresCollector.str_error e) ])%list) ∧
  (∀ rows, PostgresCollector.connect srv args = None →
           PostgresCollector.execute srv PostgresCollector.QueryStatsSQL [] = inr rows →
           stats = (PostgresCollector.Returned (default ∅ (head rows)),
                    t ++ PostgresCollector.query_events self
                           PostgresCollector.QueryStatsSQL [])%list).
Proof.
  intros args stats. subst args stats. run_collector.
  split; [|split; [|split]].
  - intros msg Hc Hx. rewrite Hc, Hx. by rewrite <- ?app_assoc.
  - intros msg Hc Hx. rewrite Hc, Hx. by rewrite <- ?app_assoc.
  - intros e Hc. rewrite Hc. by rewrite <- ?app_assoc.
  - intros rows Hc Hx. rewrite Hc, Hx. rewrite <- ?app_assoc.
    f_equal. f_equal. destruct rows as [|r rows]; [done|]. simpl.
    by case_bool_decide.
Qed.

Lemma get_query_stats_fallback_witness :
  fst (PostgresCollector.get_query_stats PostgresCollector.without_stat_statements
         example_collector [])
  = PostgresCollector.Returned ∅.
Proof.
  destruct (get_query_stats_fallback PostgresCollector.without_stat_statements
              example_collector []) as (Hmissing & _).
  rewrite (Hmissing "relation pg_stat_statements does not exist"); reflexivity.
Defined.

(** X19. The connection test of the collector. It returns [True] exactly
    when the server accepts the connection and [False] otherwise, and never
    raises an error of the library. It runs no statement; it closes the
    connection it got, and logs the refusal when it got none. *)
Theorem collector_test_connection srv self t :
  let args := PostgresCollector.args_of self in
  fst (PostgresCollector.test_connection srv self t)
  = PostgresCollector.Returned (PostgresCollector.accepts srv self) ∧
  (PostgresCollector.connect srv args = None →
   snd (PostgresCollector.test_connection srv self t)
   = (t ++ [PostgresCollector.Connect args true; PostgresCollector.Close])%list) ∧
  (∀ e, PostgresCollector.connect srv args = Some e →
        snd (PostgresCollector.test_connection srv self t)
        = (t ++ [ PostgresCollector.Connect args false;
                  PostgresCollector.LogError
                    ("Connection test failed: " +:+ PostgresCollector.str_error e) ])%list).
Proof.
  intros args. subst args. run_collector.
  destruct (PostgresCollector.connect srv (PostgresCollector.args_of self)) as [e|].
  - split; [done|]. split; [done|]. intros e' [= <-]. by rewrite <- ?app_assoc.
  - split; [done|]. split; [|done]. intros _. by rewrite <- ?app_assoc.
Qed.

Lemma collector_test_connection_witness :
  PostgresCollector.test_connection PostgresCollector.unreachable example_collector []
  = (PostgresCollector.Returned false,
     [ PostgresCollector.Connect (PostgresCollector.args_of example_collector) false;
       PostgresCollector.LogError "Connection test failed: connection refused" ]).
Proof.
  destruct (collector_test_connection PostgresCollector.unreachable example_collector [])
    as (Hresult & _ & Hrefused).
  specialize (Hrefused (PostgresCollector.OtherError "connection refused") eq_refl).
  rewrite (surjective_pairing (PostgresCollector.test_connection _ _ _)).
  rewrite Hresult, Hrefused. reflexivity.
Defined.
